(** * Overlord API control plane

    A shallow embedding of the service directory (RegistryService and the
    in-memory repository), the health monitor (HealthService), the gateway
    (GatewayService) and the event bus (EventService), together with the
    Service entity they share.

    Conventions of the embedding:
    - a JavaScript string is a [string] whose characters are UTF-16 code
      units below 256;
    - a [Date] is its millisecond time stamp, a [Z];
    - an [async] method is a computation in the monad [M]: it threads the
      process state [World] and either returns or throws; a call in [M]
      runs to its end before the next one starts;
    - calls that overlap are written out where the code starts them
      together: the legs of [broadcast] go from one wait on the network to
      the next, in the order in which the platform lets the waits end, and
      [proxy] is also given in the three parts that its waits cut it
      into;
    - the platform (clock, [fetch], the order of arrival of the answers,
      the [URL] class) is a [Platform]: the definitions and the general
      theorems hold for every platform; the platforms of the scenarios
      take their [URL] from the module [Whatwg]. *)

From Stdlib Require Import ZArith List String Ascii Bool Lia DecimalString.
From Stdlib Require Import Permutation.
Import ListNotations.

Set Warnings "-register-all".

Open Scope string_scope.
Open Scope list_scope.
Open Scope Z_scope.

(** ** JavaScript strings *)

Module JsString.

Definition code (c : ascii) : N := N_of_ascii c.

Definition between (lo hi c : ascii) : bool :=
  ((code lo <=? code c) && (code c <=? code hi))%N.

(** [String.prototype.toLowerCase] on one code unit below 256: the ASCII
    capitals and the Latin-1 capitals (U+00C0..U+00DE without the
    multiplication sign U+00D7) move up by 32. *)
Definition lowerChar (c : ascii) : ascii :=
  let n := code c in
  if (((65 <=? n) && (n <=? 90)) ||
      ((192 <=? n) && (n <=? 222) && negb (n =? 215)))%N
  then ascii_of_N (n + 32)
  else c.

Fixpoint toLowerCase (s : string) : string :=
  match s with
  | EmptyString => EmptyString
  | String c r => String (lowerChar c) (toLowerCase r)
  end.

(** White space and line terminators removed by [String.prototype.trim]. *)
Definition isWhiteSpace (c : ascii) : bool :=
  let n := code c in
  (((9 <=? n) && (n <=? 13)) || (n =? 32) || (n =? 160))%N.

Fixpoint allWhiteSpace (s : string) : bool :=
  match s with
  | EmptyString => true
  | String c r => isWhiteSpace c && allWhiteSpace r
  end.

(** [value.trim().length === 0] *)
Definition trimIsEmpty (s : string) : bool := allWhiteSpace s.

Definition isEmpty (s : string) : bool :=
  match s with EmptyString => true | _ => false end.

(** [s.replace(/\/$/, '')] *)
Fixpoint stripTrailingSlash (s : string) : string :=
  match s with
  | EmptyString => EmptyString
  | String c r =>
      if Ascii.eqb c "/" && isEmpty r then EmptyString
      else String c (stripTrailingSlash r)
  end.

(** [String(n)] for an integer [n]. *)
Definition ofZ (n : Z) : string := NilEmpty.string_of_int (Z.to_int n).

End JsString.

(** ** Slug derivation ([RegistryService.generateServiceId]) *)

Module Slug.

(** The character class [[a-z0-9]]. *)
Definition isSlugChar (c : ascii) : bool :=
  JsString.between "a" "z" c || JsString.between "0" "9" c.

(** [s.replace(/[^a-z0-9]+/g, '-')], as the left-to-right scan of the
    regular expression engine: [inMatch] holds while the current match of
    [[^a-z0-9]+] is being extended. *)
Fixpoint replaceNonSlugRuns (inMatch : bool) (s : string) : string :=
  match s with
  | EmptyString => EmptyString
  | String c r =>
      if isSlugChar c then String c (replaceNonSlugRuns false r)
      else if inMatch then replaceNonSlugRuns true r
      else String "-" (replaceNonSlugRuns true r)
  end.

(** [s.replace(/^-|-$/g, '')]: a dash is matched by the first alternative
    at index 0 only, by the second one at the last index only. *)
Fixpoint replaceEdgeDashes (atStart : bool) (s : string) : string :=
  match s with
  | EmptyString => EmptyString
  | String c r =>
      if Ascii.eqb c "-" && (atStart || JsString.isEmpty r)
      then replaceEdgeDashes false r
      else String c (replaceEdgeDashes false r)
  end.

Definition generateServiceId (name : string) : string :=
  replaceEdgeDashes true
    (replaceNonSlugRuns false (JsString.toLowerCase name)).

(** *** The derivation in the words of the specification *)

(** The maximal runs of a string: consecutive characters of one kind
    (inside or outside the class), each run as long as possible. *)
Fixpoint runs (s : string) : list (bool * string) :=
  match s with
  | EmptyString => []
  | String c r =>
      let k := isSlugChar c in
      match runs r with
      | (k', w) :: rest =>
          if Bool.eqb k k' then (k, String c w) :: rest
          else (k, String c EmptyString) :: (k', w) :: rest
      | [] => [(k, String c EmptyString)]
      end
  end.

Definition renderRun (r : bool * string) : string :=
  if fst r then snd r else "-".

Fixpoint renderRuns (rs : list (bool * string)) : string :=
  match rs with
  | [] => EmptyString
  | r :: rest => renderRun r ++ renderRuns rest
  end.

(** "replacing every maximal run of characters that are not lowercase
    letters or digits with a single dash" *)
Definition spec_collapse (s : string) : string := renderRuns (runs s).

(** "removing a leading dash" *)
Definition spec_dropLeadingDash (s : string) : string :=
  match s with
  | String c r => if Ascii.eqb c "-" then r else s
  | EmptyString => EmptyString
  end.

(** "removing a trailing dash" *)
Fixpoint spec_dropTrailingDash (s : string) : string :=
  match s with
  | EmptyString => EmptyString
  | String c EmptyString => if Ascii.eqb c "-" then EmptyString else s
  | String c r => String c (spec_dropTrailingDash r)
  end.

Definition spec_slug (name : string) : string :=
  spec_dropTrailingDash
    (spec_dropLeadingDash (spec_collapse (JsString.toLowerCase name))).

End Slug.

(** ** JavaScript values and maps *)

(** The values carried as opaque payloads ([unknown],
    [Record<string, unknown>]): JSON documents. *)
Inductive JsValue : Type :=
| JUndefined
| JNull
| JBool (b : bool)
| JNum (n : Z)
| JStr (s : string)
| JArr (items : list JsValue)
| JObj (fields : list (string * JsValue)).

Module Js.

(** ToBoolean *)
Definition truthy (v : JsValue) : bool :=
  match v with
  | JUndefined | JNull => false
  | JBool b => b
  | JNum n => negb (n =? 0)
  | JStr s => negb (JsString.isEmpty s)
  | JArr _ | JObj _ => true
  end.

Fixpoint lookup {V : Type} (k : string) (l : list (string * V)) : option V :=
  match l with
  | [] => None
  | (k', v) :: r => if String.eqb k' k then Some v else lookup k r
  end.

(** [v?.k] *)
Definition prop (k : string) (v : JsValue) : JsValue :=
  match v with
  | JObj fields =>
      match lookup k fields with Some x => x | None => JUndefined end
  | _ => JUndefined
  end.

(** [x || d] on an optional string *)
Definition orString (x : option string) (d : string) : string :=
  match x with
  | Some s => if JsString.isEmpty s then d else s
  | None => d
  end.

(** [x || d] on an optional object or array *)
Definition orElse {A : Type} (x : option A) (d : A) : A :=
  match x with Some a => a | None => d end.

End Js.

(** [Map<K, V>]: keys in insertion order, at most one entry per key. *)
Module JsMap.

Definition t (K V : Type) : Type := list (K * V).

Section WithKey.
Context {K V : Type} (eqb : K -> K -> bool).

Fixpoint get (k : K) (m : t K V) : option V :=
  match m with
  | [] => None
  | (k', v) :: r => if eqb k' k then Some v else get k r
  end.

(** [set] keeps the position of a key that is already present. *)
Fixpoint set (k : K) (v : V) (m : t K V) : t K V :=
  match m with
  | [] => [(k, v)]
  | (k', v') :: r =>
      if eqb k' k then (k', v) :: r else (k', v') :: set k v r
  end.

Definition has (k : K) (m : t K V) : bool :=
  match get k m with Some _ => true | None => false end.

Fixpoint delete (k : K) (m : t K V) : t K V :=
  match m with
  | [] => []
  | (k', v) :: r => if eqb k' k then r else (k', v) :: delete k r
  end.

Definition values (m : t K V) : list V := map snd m.
Definition keys (m : t K V) : list K := map fst m.
Definition size (m : t K V) : Z := Z.of_nat (List.length m).
End WithKey.
End JsMap.

(** ** Domain types ([domain/shared/types]) *)

Inductive ServiceType := AGENT | WEB_APP | MOBILE_APP | API.

Definition ServiceType_value (t : ServiceType) : string :=
  match t with
  | AGENT => "agent"
  | WEB_APP => "web_app"
  | MOBILE_APP => "mobile_app"
  | API => "api"
  end.

Inductive ServiceStatus :=
| HEALTHY | UNHEALTHY | DEGRADED | UNKNOWN | STARTING | STOPPING.

Definition ServiceStatus_eqb (a b : ServiceStatus) : bool :=
  match a, b with
  | HEALTHY, HEALTHY | UNHEALTHY, UNHEALTHY | DEGRADED, DEGRADED
  | UNKNOWN, UNKNOWN | STARTING, STARTING | STOPPING, STOPPING => true
  | _, _ => false
  end.

Inductive EventType :=
| SERVICE_REGISTERED | SERVICE_DEREGISTERED | SERVICE_HEALTH_CHANGED
| COMMAND_DISPATCHED | COMMAND_COMPLETED | COMMAND_FAILED
| WORKFLOW_STARTED | WORKFLOW_COMPLETED | WORKFLOW_FAILED.

Definition EventType_eqb (a b : EventType) : bool :=
  match a, b with
  | SERVICE_REGISTERED, SERVICE_REGISTERED
  | SERVICE_DEREGISTERED, SERVICE_DEREGISTERED
  | SERVICE_HEALTH_CHANGED, SERVICE_HEALTH_CHANGED
  | COMMAND_DISPATCHED, COMMAND_DISPATCHED
  | COMMAND_COMPLETED, COMMAND_COMPLETED
  | COMMAND_FAILED, COMMAND_FAILED
  | WORKFLOW_STARTED, WORKFLOW_STARTED
  | WORKFLOW_COMPLETED, WORKFLOW_COMPLETED
  | WORKFLOW_FAILED, WORKFLOW_FAILED => true
  | _, _ => false
  end.

Definition Date := Z.

Record ServiceCapability := {
  cap_name : string;
  cap_version : string;
  cap_description : option string
}.

Record HealthCheckResult := {
  hc_status : ServiceStatus;
  hc_timestamp : Date;
  hc_responseTimeMs : Z;
  hc_details : option JsValue
}.

Record DomainEvent := {
  ev_type : EventType;
  ev_serviceId : option string;
  ev_timestamp : Date;
  ev_data : option JsValue
}.

(** ** Errors ([domain/shared/errors]) *)

Inductive ErrorCode :=
| INTERNAL_ERROR | VALIDATION_ERROR | NOT_FOUND | UNAUTHORIZED | FORBIDDEN
| SERVICE_NOT_FOUND | SERVICE_ALREADY_EXISTS | SERVICE_REGISTRATION_FAILED
| HEALTH_CHECK_FAILED | SERVICE_UNHEALTHY
| GATEWAY_TIMEOUT | SERVICE_UNAVAILABLE | PROXY_ERROR
| WORKFLOW_NOT_FOUND | WORKFLOW_EXECUTION_FAILED
| COMMAND_DISPATCH_FAILED | COMMAND_TIMEOUT.

(** What a [throw] carries: a [DomainError], another [Error] (given by its
    [name] and [message]: [TypeError], [SyntaxError], the [AbortError] of an
    aborted [fetch]) or a value that is not an [Error]. *)
Inductive Thrown :=
| DomainError (code : ErrorCode) (message : string) (statusCode : Z)
| JsError (name message : string)
| NonError (v : JsValue).

Module Errors.

Definition serviceUnavailable (serviceId : string) : Thrown :=
  DomainError SERVICE_UNAVAILABLE
    ("Service '" ++ serviceId ++ "' is currently unavailable") 503.

Definition gatewayTimeout (serviceId : string) : Thrown :=
  DomainError GATEWAY_TIMEOUT
    ("Request to service '" ++ serviceId ++ "' timed out") 504.

(** [error instanceof Error && error.name === 'AbortError'] *)
Definition isAbortError (e : Thrown) : bool :=
  match e with
  | JsError name _ => String.eqb name "AbortError"
  | _ => false
  end.

(** [error instanceof Error ? error.message : 'Unknown error'] *)
Definition messageOrUnknown (e : Thrown) : string :=
  match e with
  | DomainError _ message _ => message
  | JsError _ message => message
  | NonError _ => "Unknown error"
  end.

Definition codeOf (e : Thrown) : option ErrorCode :=
  match e with
  | DomainError c _ _ => Some c
  | _ => None
  end.

End Errors.

Inductive Outcome (A : Type) : Type :=
| Ok (a : A)
| Throw (e : Thrown).
Arguments Ok {A} a.
Arguments Throw {A} e.

(** ** Guards ([domain/shared/guards]) *)

Module Guard.

Definition stringNotEmpty (value paramName : string) : Outcome string :=
  if JsString.isEmpty value || JsString.trimIsEmpty value
  then Throw (DomainError VALIDATION_ERROR
                (paramName ++ " cannot be null, empty, or whitespace") 400)
  else Ok value.

(** [validUrl]; [parses] tells whether [new URL(value)] succeeds. *)
Definition validUrl (parses : string -> bool) (value paramName : string)
  : Outcome string :=
  if parses value then Ok value
  else Throw (DomainError VALIDATION_ERROR
                (paramName ++ " must be a valid URL") 400).

Definition throwIfNull {T : Type} (value : option T) (identifier : string)
  : Outcome T :=
  match value with
  | Some v => Ok v
  | None =>
      Throw (DomainError NOT_FOUND
               ("Resource"
                ++ (if JsString.isEmpty identifier then ""
                    else " '" ++ identifier ++ "'")
                ++ " was not found") 404)
  end.

End Guard.

(** ** The Service entity ([domain/registry/Service]) *)

Module Service.

Record Props := {
  p_id : string;
  p_name : string;
  p_type : ServiceType;
  p_baseUrl : string;
  p_healthEndpoint : option string;
  p_capabilities : option (list ServiceCapability);
  p_metadata : option (list (string * JsValue));
  p_version : option string
}.

Record t := {
  id : string;
  name : string;
  type : ServiceType;
  baseUrl : string;
  healthEndpoint : string;
  capabilities : list ServiceCapability;
  metadata : list (string * JsValue);
  version : string;
  registeredAt : Date;
  _status : ServiceStatus;
  _lastHealthCheck : option HealthCheckResult;
  _lastSeenAt : Date
}.

Record Snapshot := {
  snap_id : string;
  snap_name : string;
  snap_type : ServiceType;
  snap_baseUrl : string;
  snap_healthEndpoint : string;
  snap_capabilities : list ServiceCapability;
  snap_metadata : list (string * JsValue);
  snap_version : string;
  snap_status : ServiceStatus;
  snap_registeredAt : Date;
  snap_lastSeenAt : Date;
  snap_lastHealthCheck : option HealthCheckResult
}.

(** The guard clauses of the constructor.  [Guard.notNull(props.type)]
    cannot fail on a [ServiceType]. *)
Definition validate (parses : string -> bool) (props : Props)
  : Outcome unit :=
  match Guard.stringNotEmpty (p_id props) "id" with
  | Throw e => Throw e
  | Ok _ =>
      match Guard.stringNotEmpty (p_name props) "name" with
      | Throw e => Throw e
      | Ok _ =>
          match Guard.validUrl parses (p_baseUrl props) "baseUrl" with
          | Throw e => Throw e
          | Ok _ => Ok tt
          end
      end
  end.

(** The assignments of the constructor; [now1] and [now2] are its two
    readings of the clock. *)
Definition init (props : Props) (now1 now2 : Date) : t :=
  {| id := p_id props;
     name := p_name props;
     type := p_type props;
     baseUrl := JsString.stripTrailingSlash (p_baseUrl props);
     healthEndpoint := Js.orString (p_healthEndpoint props) "/health";
     capabilities := Js.orElse (p_capabilities props) [];
     metadata := Js.orElse (p_metadata props) [];
     version := Js.orString (p_version props) "1.0.0";
     registeredAt := now1;
     _status := STARTING;
     _lastHealthCheck := None;
     _lastSeenAt := now2 |}.

Definition status (s : t) : ServiceStatus := _status s.
Definition lastHealthCheck (s : t) : option HealthCheckResult :=
  _lastHealthCheck s.
Definition lastSeenAt (s : t) : Date := _lastSeenAt s.

(** The mutators assign private fields; [now] is the value of the
    [new Date()] they evaluate. *)
Definition updateHealthStatus (result : HealthCheckResult) (now : Date)
  (s : t) : t :=
  {| id := id s; name := name s; type := type s; baseUrl := baseUrl s;
     healthEndpoint := healthEndpoint s; capabilities := capabilities s;
     metadata := metadata s; version := version s;
     registeredAt := registeredAt s;
     _status := hc_status result;
     _lastHealthCheck := Some result;
     _lastSeenAt := now |}.

Definition touch (now : Date) (s : t) : t :=
  {| id := id s; name := name s; type := type s; baseUrl := baseUrl s;
     healthEndpoint := healthEndpoint s; capabilities := capabilities s;
     metadata := metadata s; version := version s;
     registeredAt := registeredAt s;
     _status := _status s;
     _lastHealthCheck := _lastHealthCheck s;
     _lastSeenAt := now |}.

Definition getFullHealthUrl (s : t) : string :=
  baseUrl s ++ healthEndpoint s.

Definition hasCapability (capabilityName : string) (s : t) : bool :=
  existsb (fun c => String.eqb (cap_name c) capabilityName)
    (capabilities s).

Definition isStale (now : Date) (ttlMs : Z) (s : t) : bool :=
  ttlMs <? now - _lastSeenAt s.

Definition isAvailable (s : t) : bool :=
  ServiceStatus_eqb (_status s) HEALTHY
  || ServiceStatus_eqb (_status s) DEGRADED.

Definition toSnapshot (s : t) : Snapshot :=
  {| snap_id := id s;
     snap_name := name s;
     snap_type := type s;
     snap_baseUrl := baseUrl s;
     snap_healthEndpoint := healthEndpoint s;
     snap_capabilities := capabilities s;
     snap_metadata := metadata s;
     snap_version := version s;
     snap_status := _status s;
     snap_registeredAt := registeredAt s;
     snap_lastSeenAt := _lastSeenAt s;
     snap_lastHealthCheck := _lastHealthCheck s |}.

End Service.

(** ** The platform *)

Record FetchRequest := {
  fr_url : string;
  fr_method : string;
  fr_headers : list (string * string);
  (** the value handed to [JSON.stringify] for the body, if any *)
  fr_body : option JsValue;
  (** the delay after which the [AbortController] aborts the call *)
  fr_timeoutMs : Z
}.

(** What reading the body of a response comes to: its content, or the
    [Error] of the platform that the reading rejects with, given by its
    name and message (the [SyntaxError] of the parser when the body is not
    JSON, a [TypeError] when the connection broke). *)
Inductive Body (A : Type) : Type :=
| Read (a : A)
| Unread (name message : string).
Arguments Read {A} a.
Arguments Unread {A} name message.

Definition reading {A : Type} (b : Body A) : Outcome A :=
  match b with
  | Read a => Ok a
  | Unread name message => Throw (JsError name message)
  end.

Record Response := {
  resp_status : Z;
  (** the entries of [response.headers], names in lower case *)
  resp_headers : list (string * string);
  (** [await response.text()] *)
  resp_text : Body string;
  (** [await response.json()] *)
  resp_json : Body JsValue
}.

Inductive FetchOutcome :=
| Responded (r : Response)
(** [fetch] rejects with an [Error] of this name and message: an
    [AbortError] when the signal fired, a [TypeError] on a network failure *)
| Rejected (name message : string).

Class Platform := {
  (** the [n]-th reading of the clock ([Date.now()], [new Date()]) *)
  clock : nat -> Date;
  (** the outcome of the [n]-th call of [fetch] *)
  fetch : nat -> FetchRequest -> FetchOutcome;
  (** the order in which the waits of calls that one method has started
      together come to an end, when the first of these calls is the [n]-th
      call of [fetch]: each number is the position of a call among them *)
  arrival : nat -> list nat;
  (** the objects of the class [URL] *)
  URL : Type;
  (** [new URL(input, base)]; [None] when it throws a [TypeError] *)
  URL_new : string -> option string -> option URL;
  (** [url.searchParams.append(key, value)] *)
  URL_append : string -> string -> URL -> URL;
  (** [url.toString()] *)
  URL_toString : URL -> string
}.

(** ** Constants ([domain/shared/constants]) *)

Definition HEALTH_CHECK_TIMEOUT_MS : Z := 5000.
Definition COMMAND_TIMEOUT_MS : Z := 30000.

(** ** Process state and the monad of [async] methods *)

(** A subscribed handler: a function object (told apart by reference) that
    either returns or rejects on an event. *)
Record EventHandler := {
  handler_ref : nat;
  handler_run : DomainEvent -> option Thrown
}.

Record World := {
  (** [InMemoryRegistryRepository.services].  An entity read from the map
      is the object stored in it, so a mutation followed by [save] is an
      update of the entry. *)
  services : JsMap.t string Service.t;
  (** [EventService.handlers], [allHandlers], [recentEvents] *)
  handlers : JsMap.t EventType (list EventHandler);
  allHandlers : list EventHandler;
  recentEvents : list DomainEvent;
  (** how often the clock has been read *)
  clockReads : nat;
  (** the requests handed to [fetch], the latest first *)
  requests : list FetchRequest;
  (** the handler invocations, the latest first *)
  invocations : list (nat * DomainEvent)
}.

Definition M (A : Type) : Type := World -> Outcome A * World.

Definition ret {A : Type} (a : A) : M A := fun w => (Ok a, w).

Definition bind {A B : Type} (m : M A) (k : A -> M B) : M B :=
  fun w =>
    match m w with
    | (Ok a, w') => k a w'
    | (Throw e, w') => (Throw e, w')
    end.

Definition throw {A : Type} (e : Thrown) : M A := fun w => (Throw e, w).

Definition lift {A : Type} (o : Outcome A) : M A := fun w => (o, w).

(** [try { m } catch (error) { h error }] *)
Definition tryCatch {A : Type} (m : M A) (h : Thrown -> M A) : M A :=
  fun w =>
    match m w with
    | (Ok a, w') => (Ok a, w')
    | (Throw e, w') => h e w'
    end.

Definition gets {A : Type} (f : World -> A) : M A := fun w => (Ok (f w), w).

Definition modify (f : World -> World) : M unit := fun w => (Ok tt, f w).

Notation "x <- m ;; k" := (bind m (fun x => k))
  (at level 61, m at next level, right associativity).
Notation "m ;;; k" := (bind m (fun _ => k))
  (at level 61, right associativity).

(** [for (const x of items) { body }] *)
Fixpoint forOf {A : Type} (items : list A) (body : A -> M unit) : M unit :=
  match items with
  | [] => ret tt
  | x :: rest => body x ;;; forOf rest body
  end.

(** A loop whose body updates local variables [acc]. *)
Fixpoint forOfAcc {A S : Type} (items : list A) (body : A -> S -> M S)
  (acc : S) : M S :=
  match items with
  | [] => ret acc
  | x :: rest => acc' <- body x acc ;; forOfAcc rest body acc'
  end.

Definition set_services (f : JsMap.t string Service.t ->
                             JsMap.t string Service.t) (w : World) : World :=
  {| services := f (services w); handlers := handlers w;
     allHandlers := allHandlers w; recentEvents := recentEvents w;
     clockReads := clockReads w; requests := requests w;
     invocations := invocations w |}.

Definition set_handlers (f : JsMap.t EventType (list EventHandler) ->
                             JsMap.t EventType (list EventHandler))
  (w : World) : World :=
  {| services := services w; handlers := f (handlers w);
     allHandlers := allHandlers w; recentEvents := recentEvents w;
     clockReads := clockReads w; requests := requests w;
     invocations := invocations w |}.

Definition set_allHandlers (f : list EventHandler -> list EventHandler)
  (w : World) : World :=
  {| services := services w; handlers := handlers w;
     allHandlers := f (allHandlers w); recentEvents := recentEvents w;
     clockReads := clockReads w; requests := requests w;
     invocations := invocations w |}.

Definition set_recentEvents (f : list DomainEvent -> list DomainEvent)
  (w : World) : World :=
  {| services := services w; handlers := handlers w;
     allHandlers := allHandlers w; recentEvents := f (recentEvents w);
     clockReads := clockReads w; requests := requests w;
     invocations := invocations w |}.

Definition tick (w : World) : World :=
  {| services := services w; handlers := handlers w;
     allHandlers := allHandlers w; recentEvents := recentEvents w;
     clockReads := S (clockReads w); requests := requests w;
     invocations := invocations w |}.

Definition log_request (r : FetchRequest) (w : World) : World :=
  {| services := services w; handlers := handlers w;
     allHandlers := allHandlers w; recentEvents := recentEvents w;
     clockReads := clockReads w; requests := r :: requests w;
     invocations := invocations w |}.

Definition log_invocation (h : nat) (e : DomainEvent) (w : World) : World :=
  {| services := services w; handlers := handlers w;
     allHandlers := allHandlers w; recentEvents := recentEvents w;
     clockReads := clockReads w; requests := requests w;
     invocations := (h, e) :: invocations w |}.

(** The state of a freshly started process. *)
Definition emptyWorld : World :=
  {| services := []; handlers := []; allHandlers := []; recentEvents := [];
     clockReads := 0%nat; requests := []; invocations := [] |}.

Section Effects.
Context {P : Platform}.

(** [Date.now()] and [new Date()] *)
Definition now : M Date :=
  fun w => (Ok (clock (clockReads w)), tick w).

(** [await fetch(url, options)] under the timeout of [request] *)
Definition doFetch (request : FetchRequest) : M Response :=
  fun w =>
    match fetch (List.length (requests w)) request with
    | Responded r => (Ok r, log_request request w)
    | Rejected name message =>
        (Throw (JsError name message), log_request request w)
    end.

(** [fetch(url, options)] up to its [await]: the call is out, and what it
    settles to is the platform's. *)
Definition sendFetch (request : FetchRequest) : M FetchOutcome :=
  fun w =>
    (Ok (fetch (List.length (requests w)) request), log_request request w).

(** The [await] of a call of [fetch] that settles to [outcome]. *)
Definition settled (outcome : FetchOutcome) : M Response :=
  match outcome with
  | Responded r => ret r
  | Rejected name message => throw (JsError name message)
  end.

(** [new URL(input, base)] *)
Definition newURL (input base : string) : M URL :=
  match URL_new input (Some base) with
  | Some u => ret u
  | None => throw (JsError "TypeError" "Invalid URL")
  end.

(** Whether [new URL(value)] succeeds. *)
Definition canParse (value : string) : bool :=
  match URL_new value None with
  | Some _ => true
  | None => false
  end.

(** [new Service(props)] *)
Definition newService (props : Service.Props) : M Service.t :=
  lift (Service.validate canParse props) ;;;
  now1 <- now ;;
  now2 <- now ;;
  ret (Service.init props now1 now2).
End Effects.

(** ** The in-memory repository ([InMemoryRegistryRepository]) *)

Module Repo.

Definition save (service : Service.t) : M unit :=
  modify (set_services (JsMap.set String.eqb (Service.id service) service)).

Definition findById (id : string) : M (option Service.t) :=
  gets (fun w => JsMap.get String.eqb id (services w)).

Definition findAll : M (list Service.t) :=
  gets (fun w => JsMap.values (services w)).

Definition findByName (name : string) : M (option Service.t) :=
  gets (fun w =>
          find (fun s => String.eqb (Service.name s) name)
            (JsMap.values (services w))).

(** [type] is the string value of the enumeration member. *)
Definition findByType (type : string) : M (list Service.t) :=
  gets (fun w =>
          filter
            (fun s => String.eqb (ServiceType_value (Service.type s)) type)
            (JsMap.values (services w))).

Definition findByStatus (status : ServiceStatus) : M (list Service.t) :=
  gets (fun w =>
          filter (fun s => ServiceStatus_eqb (Service.status s) status)
            (JsMap.values (services w))).

Definition delete (id : string) : M bool :=
  fun w => (Ok (JsMap.has String.eqb id (services w)),
            set_services (JsMap.delete String.eqb id) w).

Definition exists_ (id : string) : M bool :=
  gets (fun w => JsMap.has String.eqb id (services w)).

Definition count : M Z := gets (fun w => JsMap.size (services w)).

Definition findByCapability (capabilityName : string)
  : M (list Service.t) :=
  gets (fun w =>
          filter (Service.hasCapability capabilityName)
            (JsMap.values (services w))).

Definition getAllSnapshots : M (list Service.Snapshot) :=
  gets (fun w => map Service.toSnapshot (JsMap.values (services w))).

Definition clear : M unit := modify (set_services (fun _ => [])).

End Repo.

(** ** Arrays and sets *)

Module JsArray.

(** [a.slice(0, end)] for an integer [end]: a negative [end] counts from
    the end of the array. *)
Definition slice0 {A : Type} (end_ : Z) (a : list A) : list A :=
  let len := Z.of_nat (List.length a) in
  let final := if end_ <? 0 then Z.max (len + end_) 0 else Z.min end_ len in
  firstn (Z.to_nat final) a.

(** [a.unshift(x)] *)
Definition unshift {A : Type} (x : A) (a : list A) : list A := x :: a.

(** [a.pop()], the array that is left *)
Definition pop {A : Type} (a : list A) : list A := removelast a.

(** [a.includes(s)] on strings *)
Definition includes (s : string) (a : list string) : bool :=
  existsb (String.eqb s) a.

End JsArray.

Module JsSet.

Definition sameRef (h h' : EventHandler) : bool :=
  Nat.eqb (handler_ref h) (handler_ref h').

(** [set.add(h)]: nothing happens when the object is a member already. *)
Definition add (h : EventHandler) (s : list EventHandler)
  : list EventHandler :=
  if existsb (sameRef h) s then s else s ++ [h].

Definition delete (h : EventHandler) (s : list EventHandler)
  : list EventHandler :=
  filter (fun h' => negb (sameRef h h')) s.

End JsSet.

(** ** The event bus ([EventService]) *)

Module EventService.

Definition maxRecentEvents : Z := 100.

(** [await handler(event)] *)
Definition call (handler : EventHandler) (event : DomainEvent) : M unit :=
  fun w =>
    let w' := log_invocation (handler_ref handler) event w in
    match handler_run handler event with
    | None => (Ok tt, w')
    | Some e => (Throw e, w')
    end.

(** One turn of the notification loops; the [catch] logs the error. *)
Definition notify (event : DomainEvent) (handler : EventHandler) : M unit :=
  tryCatch (call handler event) (fun _ => ret tt).

Definition emit (event : DomainEvent) : M unit :=
  modify (set_recentEvents (JsArray.unshift event)) ;;;
  len <- gets (fun w => Z.of_nat (List.length (recentEvents w))) ;;
  (if maxRecentEvents <? len
   then modify (set_recentEvents JsArray.pop)
   else ret tt) ;;;
  typeHandlers <-
    gets (fun w => JsMap.get EventType_eqb (ev_type event) (handlers w)) ;;
  match typeHandlers with
  | Some hs => forOf hs (notify event)
  | None => ret tt
  end ;;;
  all <- gets allHandlers ;;
  forOf all (notify event).

Definition subscribe (eventType : EventType) (handler : EventHandler)
  : M unit :=
  modify (set_handlers (fun m =>
    let m' := if JsMap.has EventType_eqb eventType m then m
              else JsMap.set EventType_eqb eventType [] m in
    match JsMap.get EventType_eqb eventType m' with
    | Some hs => JsMap.set EventType_eqb eventType (JsSet.add handler hs) m'
    | None => m'
    end)).

Definition unsubscribe (eventType : EventType) (handler : EventHandler)
  : M unit :=
  modify (set_handlers (fun m =>
    match JsMap.get EventType_eqb eventType m with
    | Some hs =>
        JsMap.set EventType_eqb eventType (JsSet.delete handler hs) m
    | None => m
    end)).

Definition subscribeAll (handler : EventHandler) : M unit :=
  modify (set_allHandlers (JsSet.add handler)).

(** [limit] is [None] when the argument is left out. *)
Definition getRecentEvents (limit : option Z) : M (list DomainEvent) :=
  let limit := match limit with Some l => l | None => 50 end in
  gets (fun w => JsArray.slice0 limit (recentEvents w)).

End EventService.

(** ** The health monitor ([HealthService]) *)

Record ServiceHealthDetail := {
  d_serviceId : string;
  d_serviceName : string;
  d_status : ServiceStatus;
  d_lastCheck : option Date;
  d_responseTimeMs : option Z;
  d_error : JsValue
}.

Record ServiceCounts := {
  total : Z;
  healthy : Z;
  unhealthy : Z;
  degraded : Z;
  unknown : Z
}.

Record AggregatedHealth := {
  agg_status : ServiceStatus;
  agg_timestamp : Date;
  agg_services : ServiceCounts;
  agg_details : list ServiceHealthDetail
}.

Module HealthService.

(** The local variables of the two aggregation loops. *)
Record Tally := {
  t_healthy : Z;
  t_unhealthy : Z;
  t_degraded : Z;
  t_unknown : Z;
  t_details : list ServiceHealthDetail
}.

Definition tally0 : Tally :=
  {| t_healthy := 0; t_unhealthy := 0; t_degraded := 0; t_unknown := 0;
     t_details := [] |}.

(** The [switch] on a status, then [details.push(detail)]. *)
Definition count (status : ServiceStatus) (detail : ServiceHealthDetail)
  (t : Tally) : Tally :=
  let details := t_details t ++ [detail] in
  match status with
  | HEALTHY =>
      {| t_healthy := t_healthy t + 1; t_unhealthy := t_unhealthy t;
         t_degraded := t_degraded t; t_unknown := t_unknown t;
         t_details := details |}
  | UNHEALTHY =>
      {| t_healthy := t_healthy t; t_unhealthy := t_unhealthy t + 1;
         t_degraded := t_degraded t; t_unknown := t_unknown t;
         t_details := details |}
  | DEGRADED =>
      {| t_healthy := t_healthy t; t_unhealthy := t_unhealthy t;
         t_degraded := t_degraded t + 1; t_unknown := t_unknown t;
         t_details := details |}
  | _ =>
      {| t_healthy := t_healthy t; t_unhealthy := t_unhealthy t;
         t_degraded := t_degraded t; t_unknown := t_unknown t + 1;
         t_details := details |}
  end.

Definition counts (n : Z) (t : Tally) : ServiceCounts :=
  {| total := n; healthy := t_healthy t; unhealthy := t_unhealthy t;
     degraded := t_degraded t; unknown := t_unknown t |}.

(** [response.ok] *)
Definition ok (r : Response) : bool :=
  (200 <=? resp_status r) && (resp_status r <=? 299).

Section WithPlatform.
Context {P : Platform}.

Definition checkServiceHealth (serviceId : string)
  : M HealthCheckResult :=
  service <- Repo.findById serviceId ;;
  match service with
  | None =>
      timestamp <- now ;;
      ret {| hc_status := UNKNOWN;
             hc_timestamp := timestamp;
             hc_responseTimeMs := 0;
             hc_details :=
               Some (JObj [("error", JStr "Service not found")]) |}
  | Some service =>
      startTime <- now ;;
      tryCatch
        (response <- doFetch
             {| fr_url := Service.getFullHealthUrl service;
                fr_method := "GET";
                fr_headers := [("Accept", "application/json")];
                fr_body := None;
                fr_timeoutMs := HEALTH_CHECK_TIMEOUT_MS |} ;;
         endTime <- now ;;
         let responseTimeMs := endTime - startTime in
         let '(status, details) :=
           if ok response then
             (HEALTHY,
              match resp_json response with
              | Read parsed => parsed
              | Unread _ _ => JObj []
              end)
           else if 500 <=? resp_status response then
             (UNHEALTHY,
              JObj [("httpStatus", JNum (resp_status response))])
           else
             (DEGRADED,
              JObj [("httpStatus", JNum (resp_status response))]) in
         timestamp <- now ;;
         let result :=
           {| hc_status := status;
              hc_timestamp := timestamp;
              hc_responseTimeMs := responseTimeMs;
              hc_details := Some details |} in
         seen <- now ;;
         Repo.save (Service.updateHealthStatus result seen service) ;;;
         ret result)
        (fun error =>
           endTime <- now ;;
           let responseTimeMs := endTime - startTime in
           timestamp <- now ;;
           let result :=
             {| hc_status := UNHEALTHY;
                hc_timestamp := timestamp;
                hc_responseTimeMs := responseTimeMs;
                hc_details :=
                  Some (JObj [("error",
                               JStr (Errors.messageOrUnknown error))]) |} in
           seen <- now ;;
           Repo.save (Service.updateHealthStatus result seen service) ;;;
           ret result)
  end.

Definition checkAllServices : M AggregatedHealth :=
  services <- Repo.findAll ;;
  t <- forOfAcc services
         (fun service t =>
            healthResult <- checkServiceHealth (Service.id service) ;;
            ret (count (hc_status healthResult)
                   {| d_serviceId := Service.id service;
                      d_serviceName := Service.name service;
                      d_status := hc_status healthResult;
                      d_lastCheck := Some (hc_timestamp healthResult);
                      d_responseTimeMs :=
                        Some (hc_responseTimeMs healthResult);
                      d_error :=
                        match hc_details healthResult with
                        | Some details => Js.prop "error" details
                        | None => JUndefined
                        end |} t))
         tally0 ;;
  let length := Z.of_nat (List.length services) in
  let overallStatus :=
    if 0 <? t_unhealthy t then
      if length =? t_unhealthy t then UNHEALTHY else DEGRADED
    else if 0 <? t_degraded t then DEGRADED
    else if 0 <? t_healthy t then HEALTHY
    else UNKNOWN in
  timestamp <- now ;;
  ret {| agg_status := overallStatus;
         agg_timestamp := timestamp;
         agg_services := counts length t;
         agg_details := t_details t |}.

Definition getServiceHealth (serviceId : string)
  : M (option HealthCheckResult) :=
  service <- Repo.findById serviceId ;;
  ret match service with
      | Some service => Service.lastHealthCheck service
      | None => None
      end.

Definition getAggregatedHealth : M AggregatedHealth :=
  services <- Repo.findAll ;;
  t <- forOfAcc services
         (fun service t =>
            ret (count (Service.status service)
                   {| d_serviceId := Service.id service;
                      d_serviceName := Service.name service;
                      d_status := Service.status service;
                      d_lastCheck :=
                        option_map hc_timestamp
                          (Service.lastHealthCheck service);
                      d_responseTimeMs :=
                        option_map hc_responseTimeMs
                          (Service.lastHealthCheck service);
                      d_error := JUndefined |} t))
         tally0 ;;
  let length := Z.of_nat (List.length services) in
  let overallStatus :=
    if 0 <? t_unhealthy t then
      if length =? t_unhealthy t then UNHEALTHY else DEGRADED
    else if 0 <? t_degraded t then DEGRADED
    else if 0 <? t_healthy t then HEALTHY
    else UNKNOWN in
  timestamp <- now ;;
  ret {| agg_status := overallStatus;
         agg_timestamp := timestamp;
         agg_services := counts length t;
         agg_details := t_details t |}.

End WithPlatform.
End HealthService.

(** ** The gateway ([GatewayService]) *)

Record ProxyRequest := {
  pr_serviceId : string;
  pr_method : string;
  pr_path : string;
  pr_headers : option (list (string * string));
  pr_body : option JsValue;
  (** the entries of the [query] object, as [Object.entries] lists them *)
  pr_query : option (list (string * string));
  pr_timeout : option Z
}.

Record ProxyResponse := {
  prx_status : Z;
  prx_headers : list (string * string);
  prx_body : JsValue;
  prx_responseTimeMs : Z
}.

Module GatewayService.

(** [{ ...defaults, ...overrides }] and [headers[key] = value] *)
Definition assign (entries : list (string * string))
  (target : list (string * string)) : list (string * string) :=
  fold_left (fun o kv => JsMap.set String.eqb (fst kv) (snd kv) o)
    entries target.

(** [s.includes(needle)] *)
Fixpoint includes (needle s : string) : bool :=
  if String.prefix needle s then true
  else match s with
       | EmptyString => false
       | String _ r => includes needle r
       end.

Definition errorObject (error : Thrown) : JsValue :=
  JObj [("error", JStr (Errors.messageOrUnknown error))].

Section WithPlatform.
Context {P : Platform}.

Definition proxy (request : ProxyRequest) : M ProxyResponse :=
  service <- Repo.findById (pr_serviceId request) ;;
  service <- lift (Guard.throwIfNull service (pr_serviceId request)) ;;
  if negb (Service.isAvailable service) then
    throw (Errors.serviceUnavailable (pr_serviceId request))
  else
    url <- newURL (pr_path request) (Service.baseUrl service) ;;
    let url :=
      match pr_query request with
      | Some query =>
          fold_left
            (fun u kv => URL_append (fst kv) (snd kv) u)
            query url
      | None => url
      end in
    startTime <- now ;;
    let timeout :=
      match pr_timeout request with
      | Some t => if t =? 0 then COMMAND_TIMEOUT_MS else t
      | None => COMMAND_TIMEOUT_MS
      end in
    tryCatch
      (let headers :=
         assign (Js.orElse (pr_headers request) [])
           [("Content-Type", "application/json");
            ("X-Forwarded-By", "overlord-api")] in
       let body :=
         match pr_body request with
         | Some b =>
             if Js.truthy b
                && JsArray.includes (pr_method request)
                     ["POST"; "PUT"; "PATCH"]
             then Some b else None
         | None => None
         end in
       response <- doFetch
           {| fr_url := URL_toString url;
              fr_method := pr_method request;
              fr_headers := headers;
              fr_body := body;
              fr_timeoutMs := timeout |} ;;
       endTime <- now ;;
       let responseTimeMs := endTime - startTime in
       let headers := assign (resp_headers response) [] in
       body <-
         (match Js.lookup "content-type" (resp_headers response) with
          | Some contentType =>
              if includes "application/json" contentType then
                lift (reading (resp_json response))
              else
                text <- lift (reading (resp_text response)) ;;
                ret (JStr text)
          | None =>
              text <- lift (reading (resp_text response)) ;;
              ret (JStr text)
          end) ;;
       seen <- now ;;
       Repo.save (Service.touch seen service) ;;;
       ret {| prx_status := resp_status response;
              prx_headers := headers;
              prx_body := body;
              prx_responseTimeMs := responseTimeMs |})
      (fun error =>
         if Errors.isAbortError error then
           throw (Errors.gatewayTimeout (pr_serviceId request))
         else throw error).

Definition dispatchCommand (serviceId command : string)
  (params : option JsValue) : M JsValue :=
  response <- proxy {| pr_serviceId := serviceId;
                       pr_method := "POST";
                       pr_path := "/commands/" ++ command;
                       pr_headers := None;
                       pr_body := params;
                       pr_query := None;
                       pr_timeout := None |} ;;
  if 400 <=? prx_status response then
    throw (DomainError COMMAND_DISPATCH_FAILED
             ("Command '" ++ command ++ "' failed with status "
              ++ JsString.ofZ (prx_status response))
             (prx_status response))
  else ret (prx_body response).

(** The request of one broadcast leg. *)
Definition broadcastRequest (service : Service.t) (message : JsValue)
  : ProxyRequest :=
  {| pr_serviceId := Service.id service;
     pr_method := "POST";
     pr_path := "/broadcast";
     pr_headers := None;
     pr_body := Some message;
     pr_query := None;
     pr_timeout := None |}.

(** *** [proxy], cut at its waits

    A call of [proxy] waits for the network twice: for [fetch] to settle
    (line 55) and for the body of the response (lines 70 and 72).  What
    the method does up to the first wait, between the two, and after the
    second one: *)

(** A call that has handed its request to [fetch]. *)
Record Sent := {
  sent_service : Service.t;
  sent_startTime : Date;
  sent_outcome : FetchOutcome
}.

(** A call that has its response and reads the body. *)
Record Answered := {
  ans_service : Service.t;
  ans_response : Response;
  ans_responseTimeMs : Z
}.

(** The [catch] of [proxy]. *)
Definition rethrow {A : Type} (request : ProxyRequest) (error : Thrown)
  : M A :=
  if Errors.isAbortError error then
    throw (Errors.gatewayTimeout (pr_serviceId request))
  else throw error.

Definition proxySend (request : ProxyRequest) : M Sent :=
  service <- Repo.findById (pr_serviceId request) ;;
  service <- lift (Guard.throwIfNull service (pr_serviceId request)) ;;
  if negb (Service.isAvailable service) then
    throw (Errors.serviceUnavailable (pr_serviceId request))
  else
    url <- newURL (pr_path request) (Service.baseUrl service) ;;
    let url :=
      match pr_query request with
      | Some query =>
          fold_left
            (fun u kv => URL_append (fst kv) (snd kv) u)
            query url
      | None => url
      end in
    startTime <- now ;;
    let timeout :=
      match pr_timeout request with
      | Some t => if t =? 0 then COMMAND_TIMEOUT_MS else t
      | None => COMMAND_TIMEOUT_MS
      end in
    let headers :=
      assign (Js.orElse (pr_headers request) [])
        [("Content-Type", "application/json");
         ("X-Forwarded-By", "overlord-api")] in
    let body :=
      match pr_body request with
      | Some b =>
          if Js.truthy b
             && JsArray.includes (pr_method request)
                  ["POST"; "PUT"; "PATCH"]
          then Some b else None
      | None => None
      end in
    outcome <- sendFetch
        {| fr_url := URL_toString url;
           fr_method := pr_method request;
           fr_headers := headers;
           fr_body := body;
           fr_timeoutMs := timeout |} ;;
    ret {| sent_service := service;
           sent_startTime := startTime;
           sent_outcome := outcome |}.

Definition proxyAnswered (request : ProxyRequest) (sent : Sent)
  : M Answered :=
  tryCatch
    (response <- settled (sent_outcome sent) ;;
     endTime <- now ;;
     ret {| ans_service := sent_service sent;
            ans_response := response;
            ans_responseTimeMs := endTime - sent_startTime sent |})
    (rethrow request).

Definition proxyReturn (request : ProxyRequest) (answered : Answered)
  : M ProxyResponse :=
  let response := ans_response answered in
  tryCatch
    (let headers := assign (resp_headers response) [] in
     body <-
       (match Js.lookup "content-type" (resp_headers response) with
        | Some contentType =>
            if includes "application/json" contentType then
              lift (reading (resp_json response))
            else
              text <- lift (reading (resp_text response)) ;;
              ret (JStr text)
        | None =>
            text <- lift (reading (resp_text response)) ;;
            ret (JStr text)
        end) ;;
     seen <- now ;;
     Repo.save (Service.touch seen (ans_service answered)) ;;;
     ret {| prx_status := resp_status response;
            prx_headers := headers;
            prx_body := body;
            prx_responseTimeMs := ans_responseTimeMs answered |})
    (rethrow request).

(** *** [broadcast]

    [map] starts one leg per target, in order; every leg runs up to its
    first wait on the network.  From then on a leg goes on whenever the
    operation that it waits for settles, in the order that the platform
    gives ([arrival]), and [Promise.all] resolves when the last leg has
    settled. *)

(** Where a leg stands. *)
Inductive Leg :=
| AwaitsAnswer (sent : Sent)
| AwaitsBody (answered : Answered)
| Settled.

(** The [catch] of a leg. *)
Definition legFailed (service : Service.t) (error : Thrown)
  (results : JsMap.t string JsValue) : M (Leg * JsMap.t string JsValue) :=
  ret (Settled,
       JsMap.set String.eqb (Service.id service) (errorObject error) results).

(** The callback handed to [map], up to its first wait. *)
Definition legStart (message : JsValue) (service : Service.t)
  (results : JsMap.t string JsValue) : M (Leg * JsMap.t string JsValue) :=
  tryCatch
    (sent <- proxySend (broadcastRequest service message) ;;
     ret (AwaitsAnswer sent, results))
    (fun error => legFailed service error results).

(** The callback from the end of one wait to the next wait, or to its
    end. *)
Definition legResume (message : JsValue) (service : Service.t) (leg : Leg)
  (results : JsMap.t string JsValue) : M (Leg * JsMap.t string JsValue) :=
  match leg with
  | AwaitsAnswer sent =>
      tryCatch
        (answered <- proxyAnswered (broadcastRequest service message) sent ;;
         ret (AwaitsBody answered, results))
        (fun error => legFailed service error results)
  | AwaitsBody answered =>
      tryCatch
        (response <-
           proxyReturn (broadcastRequest service message) answered ;;
         ret (Settled,
              JsMap.set String.eqb (Service.id service)
                (prx_body response) results))
        (fun error => legFailed service error results)
  | Settled => ret (Settled, results)
  end.

(** The legs with their targets, and the map [results]. *)
Definition Pool : Type :=
  list (Service.t * Leg) * JsMap.t string JsValue.

(** [services.map(async (service) => ...)] *)
Fixpoint startLegs (message : JsValue) (services : list Service.t)
  (results : JsMap.t string JsValue) : M Pool :=
  match services with
  | [] => ret ([], results)
  | service :: rest =>
      started <- legStart message service results ;;
      pool <- startLegs message rest (snd started) ;;
      ret ((service, fst started) :: fst pool, snd pool)
  end.

(** The wait of the leg at [position] ends.  A position that names no
    leg, or a leg that has settled, changes nothing. *)
Fixpoint resumeLeg (message : JsValue) (position : nat)
  (legs : list (Service.t * Leg)) (results : JsMap.t string JsValue)
  {struct legs} : M Pool :=
  match legs with
  | [] => ret ([], results)
  | (service, leg) :: rest =>
      match position with
      | O =>
          resumed <- legResume message service leg results ;;
          ret ((service, fst resumed) :: rest, snd resumed)
      | S position' =>
          pool <- resumeLeg message position' rest results ;;
          ret ((service, leg) :: fst pool, snd pool)
      end
  end.

(** The waits that are left end, leg after leg. *)
Fixpoint finishLegs (message : JsValue) (legs : list (Service.t * Leg))
  (results : JsMap.t string JsValue) : M Pool :=
  match legs with
  | [] => ret ([], results)
  | (service, leg) :: rest =>
      once <- legResume message service leg results ;;
      twice <- legResume message service (fst once) (snd once) ;;
      pool <- finishLegs message rest (snd twice) ;;
      ret ((service, fst twice) :: fst pool, snd pool)
  end.

(** [await Promise.all(legs)]: the waits end in the order [order], and
    those that [order] leaves out after them, so that every list stands for
    a complete order of arrival.  A leg that rejects makes [Promise.all]
    reject at once. *)
Definition promiseAll (message : JsValue) (order : list nat) (pool : Pool)
  : M Pool :=
  pool <- forOfAcc order
            (fun position pool =>
               resumeLeg message position (fst pool) (snd pool))
            pool ;;
  finishLegs message (fst pool) (snd pool).

(** [broadcast] up to its [return]. *)
Definition broadcastLegs (serviceType : string) (message : JsValue)
  : M Pool :=
  services <- Repo.findByType serviceType ;;
  order <- gets (fun w => arrival (List.length (requests w))) ;;
  pool <- startLegs message (filter Service.isAvailable services) [] ;;
  promiseAll message order pool.

Definition broadcast (serviceType : string) (message : JsValue)
  : M (JsMap.t string JsValue) :=
  pool <- broadcastLegs serviceType message ;;
  ret (snd pool).

End WithPlatform.
End GatewayService.

(** ** The registry ([RegistryService]) *)

Record RegisterServiceRequest := {
  r_name : string;
  r_type : ServiceType;
  r_baseUrl : string;
  r_healthEndpoint : option string;
  r_capabilities : option (list ServiceCapability);
  r_metadata : option (list (string * JsValue));
  r_version : option string
}.

Module RegistryService.

Definition generateServiceId (name : string) : string :=
  Slug.generateServiceId name.

(** The present state of the entity object [service]: the caller holds
    the very object that the repository stores under its id, so it sees
    what other methods have written to it since. *)
Definition current (service : Service.t) : M Service.t :=
  gets (fun w =>
          Js.orElse (JsMap.get String.eqb (Service.id service) (services w))
            service).

Section WithPlatform.
Context {P : Platform}.

Definition registerService (request : RegisterServiceRequest)
  : M Service.Snapshot :=
  let serviceId := generateServiceId (r_name request) in
  existing <- Repo.findById serviceId ;;
  match existing with
  | Some existing =>
      seen <- now ;;
      let existing := Service.touch seen existing in
      Repo.save existing ;;;
      ret (Service.toSnapshot existing)
  | None =>
      service <- newService
          {| Service.p_id := serviceId;
             Service.p_name := r_name request;
             Service.p_type := r_type request;
             Service.p_baseUrl := r_baseUrl request;
             Service.p_healthEndpoint := r_healthEndpoint request;
             Service.p_capabilities := r_capabilities request;
             Service.p_metadata := r_metadata request;
             Service.p_version := r_version request |} ;;
      Repo.save service ;;;
      tryCatch
        (HealthService.checkServiceHealth serviceId ;;; ret tt)
        (fun _ => ret tt) ;;;
      timestamp <- now ;;
      EventService.emit
        {| ev_type := SERVICE_REGISTERED;
           ev_serviceId := Some serviceId;
           ev_timestamp := timestamp;
           ev_data :=
             Some (JObj [("name", JStr (r_name request));
                         ("type",
                          JStr (ServiceType_value (r_type request)))]) |} ;;;
      service <- current service ;;
      ret (Service.toSnapshot service)
  end.

Definition deregisterService (serviceId : string) : M unit :=
  service <- Repo.findById serviceId ;;
  service <- lift (Guard.throwIfNull service serviceId) ;;
  Repo.delete serviceId ;;;
  timestamp <- now ;;
  EventService.emit
    {| ev_type := SERVICE_DEREGISTERED;
       ev_serviceId := Some serviceId;
       ev_timestamp := timestamp;
       ev_data := Some (JObj [("name", JStr (Service.name service))]) |}.

Definition getService (serviceId : string) : M Service.Snapshot :=
  service <- Repo.findById serviceId ;;
  service <- lift (Guard.throwIfNull service serviceId) ;;
  ret (Service.toSnapshot service).

Definition getAllServices : M (list Service.Snapshot) :=
  services <- Repo.findAll ;;
  ret (map Service.toSnapshot services).

Definition getServicesByType (type : ServiceType)
  : M (list Service.Snapshot) :=
  services <- Repo.findByType (ServiceType_value type) ;;
  ret (map Service.toSnapshot services).

Definition getHealthyServices : M (list Service.Snapshot) :=
  services <- Repo.findByStatus HEALTHY ;;
  ret (map Service.toSnapshot services).

Definition findServicesByCapability (capability : string)
  : M (list Service.Snapshot) :=
  services <- Repo.findByCapability capability ;;
  ret (map Service.toSnapshot services).

Definition heartbeat (serviceId : string) : M unit :=
  service <- Repo.findById serviceId ;;
  match service with
  | Some service =>
      seen <- now ;;
      Repo.save (Service.touch seen service)
  | None => ret tt
  end.

End WithPlatform.
End RegistryService.

(** ** A model of the class [URL]

    The part of the WHATWG URL standard that the addresses of services
    exercise: an address [scheme://userinfo@host:port/path?query#fragment]
    or [scheme:path], a reference resolved against one, and the query
    parameters of [searchParams].  The model parses the port (digits, at
    most 65535, the default port of the scheme left out), puts the scheme
    and the host of [http], [https], [ws], [wss] and [ftp] addresses in
    lower case, reads their back slashes as slashes, removes dot segments,
    and writes the query of [searchParams] anew with every [append].

    Outside the model, and kept as they are written: hosts that are
    numbers (other than a dotted address in its usual form) or IPv6
    addresses or that need IDNA, the characters that the parser
    percent-encodes, percent escapes in a host, escapes of a query that are
    not UTF-8, the drive letters and the empty host of [file], and a
    reference [http:path] without slashes.  The scenarios of this file
    stay clear of these. *)

Module Whatwg.

Local Open Scope string_scope.

(** *** Text *)

(** [s] cut at the first occurrence of the character [c]. *)
Fixpoint cut (c : ascii) (s : string) : string * option string :=
  match s with
  | EmptyString => (EmptyString, None)
  | String a r =>
      if Ascii.eqb a c then (EmptyString, Some r)
      else let '(before, after) := cut c r in (String a before, after)
  end.

(** [s] cut at the last occurrence of [c]. *)
Fixpoint lastCut (c : ascii) (s : string) : option (string * string) :=
  match s with
  | EmptyString => None
  | String a r =>
      match lastCut c r with
      | Some (before, after) => Some (String a before, after)
      | None => if Ascii.eqb a c then Some (EmptyString, r) else None
      end
  end.

(** [s] cut before the first character that [stop] holds of. *)
Fixpoint span (stop : ascii -> bool) (s : string) : string * string :=
  match s with
  | EmptyString => (EmptyString, EmptyString)
  | String a r =>
      if stop a then (EmptyString, s)
      else let '(before, after) := span stop r in (String a before, after)
  end.

(** The pieces of [s] between the occurrences of [c]. *)
Fixpoint splitOn (c : ascii) (s : string) : list string :=
  match s with
  | EmptyString => [EmptyString]
  | String a r =>
      match splitOn c r with
      | piece :: pieces =>
          if Ascii.eqb a c then EmptyString :: piece :: pieces
          else String a piece :: pieces
      | [] => [String a EmptyString]
      end
  end.

Fixpoint join (c : string) (pieces : list string) : string :=
  match pieces with
  | [] => EmptyString
  | [piece] => piece
  | piece :: rest => piece ++ c ++ join c rest
  end.

Fixpoint dropWhile (p : ascii -> bool) (s : string) : string :=
  match s with
  | EmptyString => EmptyString
  | String a r => if p a then dropWhile p r else s
  end.

Fixpoint mapChars (f : ascii -> ascii) (s : string) : string :=
  match s with
  | EmptyString => EmptyString
  | String a r => String (f a) (mapChars f r)
  end.

Fixpoint allChars (p : ascii -> bool) (s : string) : bool :=
  match s with
  | EmptyString => true
  | String a r => p a && allChars p r
  end.

Definition orEmpty (s : option string) : string :=
  match s with Some x => x | None => EmptyString end.

Definition isAlpha (c : ascii) : bool :=
  JsString.between "a" "z" c || JsString.between "A" "Z" c.

Definition isDigit (c : ascii) : bool := JsString.between "0" "9" c.

Definition isHex (c : ascii) : bool :=
  isDigit c || JsString.between "a" "f" c || JsString.between "A" "F" c.

Definition hexValue (c : ascii) : N :=
  if isDigit c then JsString.code c - 48
  else if JsString.between "a" "f" c then JsString.code c - 87
  else JsString.code c - 55.

Definition hexDigit (n : N) : ascii :=
  if (n <? 10)%N then ascii_of_N (48 + n) else ascii_of_N (55 + n).

Definition percent (n : N) : string :=
  String "%" (String (hexDigit (n / 16)) (String (hexDigit (n mod 16))
    EmptyString)).

(** *** The query parameters ([application/x-www-form-urlencoded]) *)

(** The UTF-8 bytes of a code unit below 256. *)
Definition utf8 (c : ascii) : string :=
  let n := JsString.code c in
  if (n <? 128)%N then String c EmptyString
  else String (ascii_of_N (192 + n / 64))
         (String (ascii_of_N (128 + n mod 64)) EmptyString).

Fixpoint utf8All (s : string) : string :=
  match s with
  | EmptyString => EmptyString
  | String c r => utf8 c ++ utf8All r
  end.

(** The serialiser on one byte: alphanumerics and [*-._] stay, a space
    becomes a plus sign, every other byte is percent-encoded. *)
Definition serializeByte (b : ascii) : string :=
  if isAlpha b || isDigit b
     || Ascii.eqb b "*" || Ascii.eqb b "-" || Ascii.eqb b "."
     || Ascii.eqb b "_"
  then String b EmptyString
  else if Ascii.eqb b " " then "+"
  else percent (JsString.code b).

Fixpoint serializeBytes (s : string) : string :=
  match s with
  | EmptyString => EmptyString
  | String b r => serializeByte b ++ serializeBytes r
  end.

(** The serialisation of a name or a value given as a string. *)
Definition encode (s : string) : string := serializeBytes (utf8All s).

(** The bytes that a name or a value of a query stands for: a plus sign
    is a space, [%XX] is the byte [XX]. *)
Fixpoint decode (s : string) : string :=
  match s with
  | EmptyString => EmptyString
  | String c r =>
      if Ascii.eqb c "%" then
        match r with
        | String a (String b r') =>
            if isHex a && isHex b
            then String (ascii_of_N (16 * hexValue a + hexValue b))
                   (decode r')
            else String c (decode r)
        | _ => String c (decode r)
        end
      else if Ascii.eqb c "+" then String " " (decode r)
      else utf8 c ++ decode r
  end.

(** The parameters of a query, as bytes. *)
Definition parseParams (query : string) : list (string * string) :=
  map (fun piece =>
         let '(name, value) := cut "=" piece in
         (decode name, decode (orEmpty value)))
      (filter (fun piece => negb (JsString.isEmpty piece))
         (splitOn "&" query)).

Definition serializeParams (params : list (string * string)) : string :=
  join "&"
    (map (fun kv => serializeBytes (fst kv) ++ "=" ++ serializeBytes (snd kv))
       params).

(** *** Addresses *)

Record t := {
  (** in lower case, without the colon *)
  scheme : string;
  (** [userinfo@host:port], when the address has a host *)
  authority : option string;
  path : string;
  (** the path is opaque ([mailto:someone]): no reference resolves
      against it *)
  opaque : bool;
  (** without the question mark; [None] when there is none *)
  query : option string;
  (** without the hash sign; [None] when there is none *)
  fragment : option string
}.

Definition toString (u : t) : string :=
  scheme u ++ ":"
  ++ match authority u with Some a => "//" ++ a | None => "" end
  ++ path u
  ++ match query u with Some q => "?" ++ q | None => "" end
  ++ match fragment u with Some f => "#" ++ f | None => "" end.

(** [url.searchParams.append(key, value)]: the parameters of the query,
    then the new one, written anew. *)
Definition append (key value : string) (u : t) : t :=
  {| scheme := scheme u; authority := authority u; path := path u;
     opaque := opaque u;
     query :=
       Some (serializeParams
               (parseParams (orEmpty (query u))
                ++ [(utf8All key, utf8All value)])%list);
     fragment := fragment u |}.

Definition defaultPort (scheme : string) : option N :=
  if String.eqb scheme "http" then Some 80%N
  else if String.eqb scheme "https" then Some 443%N
  else if String.eqb scheme "ws" then Some 80%N
  else if String.eqb scheme "wss" then Some 443%N
  else if String.eqb scheme "ftp" then Some 21%N
  else None.

Definition isSpecial (scheme : string) : bool :=
  match defaultPort scheme with Some _ => true | None => false end.

(** A scheme: a letter, then letters, digits, [+], [-] and [.]. *)
Definition validScheme (s : string) : bool :=
  match s with
  | EmptyString => false
  | String c r =>
      isAlpha c
      && allChars (fun a => isAlpha a || isDigit a || Ascii.eqb a "+"
                            || Ascii.eqb a "-" || Ascii.eqb a ".") r
  end.

(** The scheme of [s] and what follows its colon. *)
Definition takeScheme (s : string) : option (string * string) :=
  match cut ":" s with
  | (before, Some rest) =>
      if validScheme before
      then Some (JsString.toLowerCase before, rest) else None
  | (_, None) => None
  end.

(** A reference split into its body, its query and its fragment. *)
Definition splitReference (s : string)
  : string * option string * option string :=
  let '(beforeHash, hash) := cut "#" s in
  let '(body, q) := cut "?" beforeHash in
  (body, q, hash).

Definition isSlash (c : ascii) : bool := Ascii.eqb c "/".

Definition backToSlash (c : ascii) : ascii :=
  if Ascii.eqb c "\" then "/"%char else c.

Fixpoint decimal (acc : N) (s : string) : N :=
  match s with
  | EmptyString => acc
  | String c r => decimal (10 * acc + (JsString.code c - 48)) r
  end.

(** The port as the address shows it: [Some None] when it shows none,
    [None] when the port is not one. *)
Definition parsePort (scheme port : string) : option (option string) :=
  if allChars isDigit port then
    if JsString.isEmpty port then Some None
    else
      let n := decimal 0 port in
      if (65535 <? n)%N then None
      else
        match defaultPort scheme with
        | Some d =>
            if (n =? d)%N then Some None
            else Some (Some (JsString.ofZ (Z.of_N n)))
        | None => Some (Some (JsString.ofZ (Z.of_N n)))
        end
  else None.

(** The characters that no host holds. *)
Definition forbiddenInHost (c : ascii) : bool :=
  (JsString.code c <=? 32)%N || (JsString.code c =? 127)%N
  || Ascii.eqb c "#" || Ascii.eqb c "/" || Ascii.eqb c ":"
  || Ascii.eqb c "<" || Ascii.eqb c ">" || Ascii.eqb c "?"
  || Ascii.eqb c "@" || Ascii.eqb c "[" || Ascii.eqb c "\"
  || Ascii.eqb c "]" || Ascii.eqb c "^" || Ascii.eqb c "|"
  || Ascii.eqb c "%".

Definition parseAuthority (scheme text : string) : option string :=
  let '(userinfo, hostport) :=
    match lastCut "@" text with
    | Some (u, h) => (u ++ "@", h)
    | None => (EmptyString, text)
    end in
  let '(host, port) :=
    match lastCut ":" hostport with
    | Some (h, p) => (h, p)
    | None => (hostport, EmptyString)
    end in
  if negb (allChars (fun c => negb (forbiddenInHost c)) host)
     || (isSpecial scheme && JsString.isEmpty host)
  then None
  else
    match parsePort scheme port with
    | Some shown =>
        Some (userinfo
              ++ (if isSpecial scheme then JsString.toLowerCase host
                  else host)
              ++ match shown with Some n => ":" ++ n | None => "" end)
    | None => None
    end.

Definition isSingleDot (segment : string) : bool :=
  String.eqb segment "." || String.eqb (JsString.toLowerCase segment) "%2e".

Definition isDoubleDot (segment : string) : bool :=
  let s := JsString.toLowerCase segment in
  String.eqb s ".." || String.eqb s ".%2e" || String.eqb s "%2e."
  || String.eqb s "%2e%2e".

(** The segments of a path without its dot segments; [done] holds the
    segments kept so far, the last one first. *)
Fixpoint shorten (done segments : list string) : list string :=
  match segments with
  | [] => rev done
  | segment :: rest =>
      if isDoubleDot segment then
        match rest with
        | [] => rev (EmptyString :: tl done)
        | _ => shorten (tl done) rest
        end
      else if isSingleDot segment then
        match rest with
        | [] => rev (EmptyString :: done)
        | _ => shorten done rest
        end
      else shorten (segment :: done) rest
  end.

(** A path that starts with a slash, without its dot segments. *)
Definition normalize (path : string) : string :=
  match path with
  | String _ r => "/" ++ join "/" (shorten [] (splitOn "/" r))
  | EmptyString => EmptyString
  end.

(** What follows the colon of [scheme], parsed. *)
Definition parseAfterScheme (scheme rest : string) : option t :=
  let '(body, q, f) := splitReference rest in
  if isSpecial scheme then
    let '(a, p) := span isSlash (dropWhile isSlash (mapChars backToSlash body))
    in
    match parseAuthority scheme a with
    | Some a =>
        Some {| scheme := scheme; authority := Some a;
                path := if JsString.isEmpty p then "/" else normalize p;
                opaque := false; query := q; fragment := f |}
    | None => None
    end
  else if String.prefix "//" body then
    let '(a, p) :=
      span isSlash (String.substring 2 (String.length body - 2) body) in
    match parseAuthority scheme a with
    | Some a =>
        Some {| scheme := scheme; authority := Some a; path := normalize p;
                opaque := false; query := q; fragment := f |}
    | None => None
    end
  else if String.prefix "/" body then
    Some {| scheme := scheme; authority := None; path := normalize body;
            opaque := false; query := q; fragment := f |}
  else
    Some {| scheme := scheme; authority := None; path := body;
            opaque := true; query := q; fragment := f |}.

(** The path up to and including its last slash. *)
Fixpoint directory (path : string) : string :=
  match path with
  | EmptyString => EmptyString
  | String a r =>
      match directory r with
      | EmptyString => if Ascii.eqb a "/" then "/" else EmptyString
      | d => String a d
      end
  end.

(** A reference without a scheme, resolved against [base]. *)
Definition resolve (input : string) (base : t) : option t :=
  let '(body, q, f) := splitReference input in
  let body :=
    if isSpecial (scheme base) then mapChars backToSlash body else body in
  if opaque base then
    match body, q, f with
    | EmptyString, None, Some _ =>
        Some {| scheme := scheme base; authority := authority base;
                path := path base; opaque := true; query := query base;
                fragment := f |}
    | _, _, _ => None
    end
  else if String.prefix "//" body then parseAfterScheme (scheme base) input
  else
    Some {| scheme := scheme base; authority := authority base;
            path :=
              match body with
              | EmptyString => path base
              | String "/" _ => normalize body
              | _ =>
                  normalize
                    (match directory (path base) with
                     | EmptyString => "/"
                     | d => d
                     end ++ body)
              end;
            opaque := false;
            query :=
              match body, q with
              | EmptyString, None => query base
              | _, _ => q
              end;
            fragment := f |}.

(** Leading and trailing spaces and control characters are dropped, and
    tabs and line ends everywhere. *)
Definition isBlank (c : ascii) : bool := (JsString.code c <=? 32)%N.

Fixpoint dropTrailingBlanks (s : string) : string :=
  match s with
  | EmptyString => EmptyString
  | String a r =>
      match dropTrailingBlanks r with
      | EmptyString => if isBlank a then EmptyString else String a EmptyString
      | r' => String a r'
      end
  end.

Fixpoint dropLineEnds (s : string) : string :=
  match s with
  | EmptyString => EmptyString
  | String a r =>
      if (JsString.code a =? 9)%N || (JsString.code a =? 10)%N
         || (JsString.code a =? 13)%N
      then dropLineEnds r else String a (dropLineEnds r)
  end.

Definition strip (s : string) : string :=
  dropLineEnds (dropTrailingBlanks (dropWhile isBlank s)).

Definition parse (input : string) (base : option t) : option t :=
  match takeScheme (strip input) with
  | Some (scheme, rest) => parseAfterScheme scheme rest
  | None =>
      match base with
      | Some b => resolve (strip input) b
      | None => None
      end
  end.

(** [new URL(input, base)] *)
Definition URL_new (input : string) (base : option string) : option t :=
  match base with
  | Some b =>
      match parse b None with
      | Some parsedBase => parse input (Some parsedBase)
      | None => None
      end
  | None => parse input None
  end.

End Whatwg.

(** ** Scenarios *)

Module Scenario.

Definition okResponse : Response :=
  {| resp_status := 200;
     resp_headers := [("content-type", "application/json")];
     resp_text := Read "{}";
     resp_json := Read (JObj [("status", JStr "ok")]) |}.

(** A platform whose clock starts at 1000 and advances by one per
    reading, and whose network answers the [n]-th call with the [n]-th
    element of [script], and with [okResponse] after that. *)
Definition scripted (script : list FetchOutcome) : Platform :=
  {| clock := fun n => 1000 + Z.of_nat n;
     fetch := fun n _ => nth n script (Responded okResponse);
     arrival := fun _ => [];
     URL := Whatwg.t;
     URL_new := Whatwg.URL_new;
     URL_append := Whatwg.append;
     URL_toString := Whatwg.toString |}.

Definition register (name base : string) : RegisterServiceRequest :=
  {| r_name := name;
     r_type := AGENT;
     r_baseUrl := base;
     r_healthEndpoint := None;
     r_capabilities := None;
     r_metadata := None;
     r_version := None |}.

Definition run {A : Type} (m : M A) (w : World) : World := snd (m w).

(** One healthy agent "Billing" whose base address has a path. *)
Definition billingWorld : World :=
  run (RegistryService.registerService (P := scripted [])
         (register "Billing" "http://svc.local:3000/api"))
    emptyWorld.

Definition event (n : Z) : DomainEvent :=
  {| ev_type := COMMAND_COMPLETED;
     ev_serviceId := None;
     ev_timestamp := n;
     ev_data := None |}.

(** Three healthy agents, registered one after the other. *)
Definition threeAgents : World :=
  run (RegistryService.registerService (P := scripted [])
         (register "Gamma" "http://gamma.local"))
    (run (RegistryService.registerService (P := scripted [])
            (register "Beta" "http://beta.local"))
       (run (RegistryService.registerService (P := scripted [])
               (register "Alpha" "http://alpha.local"))
          emptyWorld)).

End Scenario.

(** ** The Workflow entity ([domain/orchestrator/Workflow])

    The getter [progress] and [toSnapshot], which includes it, divide and
    round floating-point numbers; they are left out.  The step objects of
    the [steps] array are taken to be distinct objects. *)

Module CommandStatus.
Inductive t := PENDING | IN_PROGRESS | COMPLETED | FAILED | TIMEOUT.

Definition eqb (a b : t) : bool :=
  match a, b with
  | PENDING, PENDING | IN_PROGRESS, IN_PROGRESS | COMPLETED, COMPLETED
  | FAILED, FAILED | TIMEOUT, TIMEOUT => true
  | _, _ => false
  end.
End CommandStatus.

Module WorkflowStatus.
Inductive t := CREATED | RUNNING | PAUSED | COMPLETED | FAILED | CANCELLED.

Definition eqb (a b : t) : bool :=
  match a, b with
  | CREATED, CREATED | RUNNING, RUNNING | PAUSED, PAUSED
  | COMPLETED, COMPLETED | FAILED, FAILED | CANCELLED, CANCELLED => true
  | _, _ => false
  end.
End WorkflowStatus.

Module Workflow.

Record Step := {
  stepId : string;
  stepName : string;
  serviceId : string;
  command : string;
  params : option JsValue;
  dependsOn : option (list string);
  stepStatus : CommandStatus.t;
  result : option JsValue
}.

Record Props := {
  p_id : string;
  p_name : string;
  p_steps : list Step;
  p_metadata : option (list (string * JsValue))
}.

Record t := {
  id : string;
  name : string;
  steps : list Step;
  metadata : list (string * JsValue);
  createdAt : Date;
  _status : WorkflowStatus.t;
  _currentStepIndex : nat;
  _startedAt : option Date;
  _completedAt : option Date;
  _error : option string
}.

(** [Guard.arrayNotEmpty] *)
Definition arrayNotEmpty {A : Type} (value : list A) (paramName : string)
  : Outcome (list A) :=
  match value with
  | [] =>
      Throw (DomainError VALIDATION_ERROR
               (paramName ++ " must contain at least one element") 400)
  | _ => Ok value
  end.

(** [new Workflow(props)]; [now] is the reading of the clock. *)
Definition new (props : Props) (now : Date) : Outcome t :=
  match Guard.stringNotEmpty (p_id props) "id" with
  | Throw e => Throw e
  | Ok _ =>
      match Guard.stringNotEmpty (p_name props) "name" with
      | Throw e => Throw e
      | Ok _ =>
          match arrayNotEmpty (p_steps props) "steps" with
          | Throw e => Throw e
          | Ok _ =>
              Ok {| id := p_id props;
                    name := p_name props;
                    steps := p_steps props;
                    metadata := Js.orElse (p_metadata props) [];
                    createdAt := now;
                    _status := WorkflowStatus.CREATED;
                    _currentStepIndex := 0;
                    _startedAt := None;
                    _completedAt := None;
                    _error := None |}
          end
      end
  end.

Definition status (w : t) : WorkflowStatus.t := _status w.
Definition currentStepIndex (w : t) : nat := _currentStepIndex w.

(** [this.steps[this._currentStepIndex]] *)
Definition currentStep (w : t) : option Step :=
  nth_error (steps w) (_currentStepIndex w).

Definition with_state (status : WorkflowStatus.t) (index : nat)
  (startedAt completedAt : option Date) (error : option string)
  (stepList : list Step) (w : t) : t :=
  {| id := id w; name := name w; steps := stepList; metadata := metadata w;
     createdAt := createdAt w;
     _status := status;
     _currentStepIndex := index;
     _startedAt := startedAt;
     _completedAt := completedAt;
     _error := error |}.

(** The assignments [step.status = s] and, when [r] is given,
    [step.result = r]. *)
Definition markStep (s : CommandStatus.t) (r : option (option JsValue))
  (step : Step) : Step :=
  {| stepId := stepId step; stepName := stepName step;
     serviceId := serviceId step; command := command step;
     params := params step; dependsOn := dependsOn step;
     stepStatus := s;
     result := match r with Some v => v | None => result step end |}.

(** The step at [index] replaced by its image under [f]. *)
Fixpoint updateAt (index : nat) (f : Step -> Step) (l : list Step)
  : list Step :=
  match l, index with
  | [], _ => []
  | x :: r, O => f x :: r
  | x :: r, S n => x :: updateAt n f r
  end.

Definition start (now : Date) (w : t) : Outcome t :=
  if WorkflowStatus.eqb (_status w) WorkflowStatus.CREATED then
    Ok (with_state WorkflowStatus.RUNNING (_currentStepIndex w) (Some now)
          (_completedAt w) (_error w) (steps w) w)
  else
    Throw (JsError "Error" "Workflow can only be started from CREATED status").

(** The private [complete] and [fail]. *)
Definition complete (now : Date) (w : t) : t :=
  with_state WorkflowStatus.COMPLETED (_currentStepIndex w) (_startedAt w)
    (Some now) (_error w) (steps w) w.

Definition fail (error : string) (now : Date) (w : t) : t :=
  with_state WorkflowStatus.FAILED (_currentStepIndex w) (_startedAt w)
    (Some now) (Some error) (steps w) w.

Definition completeCurrentStep (result : option JsValue) (now : Date)
  (w : t) : t :=
  match currentStep w with
  | None => w
  | Some _ =>
      let w1 :=
        with_state (_status w) (_currentStepIndex w) (_startedAt w)
          (_completedAt w) (_error w)
          (updateAt (_currentStepIndex w)
             (markStep CommandStatus.COMPLETED (Some result)) (steps w)) w in
      if Nat.ltb (_currentStepIndex w1) (List.length (steps w1) - 1) then
        with_state (_status w1) (S (_currentStepIndex w1)) (_startedAt w1)
          (_completedAt w1) (_error w1) (steps w1) w1
      else complete now w1
  end.

Definition failCurrentStep (error : string) (now : Date) (w : t) : t :=
  match currentStep w with
  | None => w
  | Some _ =>
      fail error now
        (with_state (_status w) (_currentStepIndex w) (_startedAt w)
           (_completedAt w) (_error w)
           (updateAt (_currentStepIndex w)
              (markStep CommandStatus.FAILED None) (steps w)) w)
  end.

Definition pause (w : t) : t :=
  if WorkflowStatus.eqb (_status w) WorkflowStatus.RUNNING then
    with_state WorkflowStatus.PAUSED (_currentStepIndex w) (_startedAt w)
      (_completedAt w) (_error w) (steps w) w
  else w.

Definition resume (w : t) : t :=
  if WorkflowStatus.eqb (_status w) WorkflowStatus.PAUSED then
    with_state WorkflowStatus.RUNNING (_currentStepIndex w) (_startedAt w)
      (_completedAt w) (_error w) (steps w) w
  else w.

Definition cancel (now : Date) (w : t) : t :=
  with_state WorkflowStatus.CANCELLED (_currentStepIndex w) (_startedAt w)
    (Some now) (_error w) (steps w) w.

(** [depStep?.status === CommandStatus.COMPLETED] for the first step whose
    [stepId] is [depId]. *)
Definition dependencyMet (w : t) (depId : string) : bool :=
  match find (fun s => String.eqb (stepId s) depId) (steps w) with
  | Some depStep => CommandStatus.eqb (stepStatus depStep)
                      CommandStatus.COMPLETED
  | None => false
  end.

Definition executable (w : t) (step : Step) : bool :=
  if negb (CommandStatus.eqb (stepStatus step) CommandStatus.PENDING)
  then false
  else
    match dependsOn step with
    | Some ((_ :: _) as deps) => forallb (dependencyMet w) deps
    | _ => true
    end.

Definition getNextExecutableSteps (w : t) : list Step :=
  filter (executable w) (steps w).

End Workflow.

(** * Vocabulary of the properties *)

(** Neighbouring runs are of different kinds: each run is maximal. *)
Fixpoint alternating (rs : list (bool * string)) : Prop :=
  match rs with
  | r :: ((r' :: _) as rest) => fst r <> fst r' /\ alternating rest
  | _ => True
  end.

(** ** The directory invariant

    The map of the repository is keyed by the identifier of the entity it
    stores, and no key occurs twice. *)

Definition wellKeyed (w : World) : Prop :=
  Forall (fun kv => Service.id (snd kv) = fst kv) (services w)
  /\ NoDup (JsMap.keys (services w)).

(** The history after [unshift] and the conditional [pop]. *)
Definition pushed (event : DomainEvent) (history : list DomainEvent)
  : list DomainEvent :=
  if EventService.maxRecentEvents <? Z.of_nat (List.length (event :: history))
  then removelast (event :: history)
  else event :: history.

Definition with_history (history : list DomainEvent)
  (calls : list (nat * DomainEvent)) (w : World) : World :=
  {| services := services w; handlers := handlers w;
     allHandlers := allHandlers w; recentEvents := history;
     clockReads := clockReads w; requests := requests w;
     invocations := calls |}.

(** Emitting a sequence of events, the first of the list first. *)
Definition emitAll (events : list DomainEvent) : M unit :=
  forOf events EventService.emit.

(** ** Health checks *)

(** The request of an active check of [service]. *)
Definition healthRequest (service : Service.t) : FetchRequest :=
  {| fr_url := (Service.baseUrl service ++ Service.healthEndpoint service)%string;
     fr_method := "GET";
     fr_headers := [("Accept", "application/json")];
     fr_body := None;
     fr_timeoutMs := 5000 |}.

(** The classification in the words of the specification: "2xx ->
    healthy", ">= 500 -> unhealthy", "other non-2xx -> degraded", "timeout
    or network failure -> unhealthy". *)
Definition spec_classify (outcome : FetchOutcome) : ServiceStatus :=
  match outcome with
  | Responded r =>
      if (200 <=? resp_status r) && (resp_status r <? 300) then HEALTHY
      else if 500 <=? resp_status r then UNHEALTHY
      else DEGRADED
  | Rejected _ _ => UNHEALTHY
  end.

(** The diagnostic payload kept with the result. *)
Definition spec_details (outcome : FetchOutcome) : JsValue :=
  match outcome with
  | Responded r =>
      if (200 <=? resp_status r) && (resp_status r <? 300) then
        match resp_json r with Read parsed => parsed | Unread _ _ => JObj [] end
      else JObj [("httpStatus", JNum (resp_status r))]
  | Rejected _ message => JObj [("error", JStr message)]
  end.

(** The result of an active check of [service] started in [w]. *)
Definition checkResult {P : Platform} (service : Service.t) (w : World)
  : HealthCheckResult :=
  let n := clockReads w in
  let outcome := fetch (List.length (requests w)) (healthRequest service) in
  {| hc_status := spec_classify outcome;
     hc_timestamp := clock (S (S n));
     hc_responseTimeMs := clock (S n) - clock n;
     hc_details := Some (spec_details outcome) |}.

(** The world after an active check of [service] started in [w]: one
    request more, four readings of the clock, and the entry of the service
    rewritten. *)
Definition checkedWorld {P : Platform} (service : Service.t) (w : World)
  : World :=
  {| services :=
       JsMap.set String.eqb (Service.id service)
         (Service.updateHealthStatus (checkResult service w)
            (clock (S (S (S (clockReads w))))) service)
         (services w);
     handlers := handlers w;
     allHandlers := allHandlers w;
     recentEvents := recentEvents w;
     clockReads := S (S (S (S (clockReads w))));
     requests := healthRequest service :: requests w;
     invocations := invocations w |}.

(** The overall status in the words of the specification, from the counts
    [h], [d], [u] over [n] services. *)
Definition spec_overallStatus (n h d u : Z) : ServiceStatus :=
  if (u =? n) && (0 <? n) then UNHEALTHY
  else if (0 <? u) || (0 <? d) then DEGRADED
  else if 0 <? h then HEALTHY
  else UNKNOWN.

(** How many of the statuses [l] are counted under [status]; everything
    that is not healthy, unhealthy or degraded counts as unknown. *)
Definition bucket (status : ServiceStatus) : ServiceStatus :=
  match status with
  | HEALTHY => HEALTHY
  | UNHEALTHY => UNHEALTHY
  | DEGRADED => DEGRADED
  | _ => UNKNOWN
  end.

Definition countOf (status : ServiceStatus) (l : list ServiceStatus) : Z :=
  Z.of_nat
    (List.length (filter (fun s => ServiceStatus_eqb (bucket s) status) l)).

(** ** Scenario values *)

(** The entry of "Billing" in [Scenario.billingWorld]. *)
Definition billing : Service.t :=
  {| Service.id := "billing";
     Service.name := "Billing";
     Service.type := AGENT;
     Service.baseUrl := "http://svc.local:3000/api";
     Service.healthEndpoint := "/health";
     Service.capabilities := [];
     Service.metadata := [];
     Service.version := "1.0.0";
     Service.registeredAt := 1000;
     Service._status := HEALTHY;
     Service._lastHealthCheck :=
       Some {| hc_status := HEALTHY;
               hc_timestamp := 1004;
               hc_responseTimeMs := 1;
               hc_details := Some (JObj [("status", JStr "ok")]) |};
     Service._lastSeenAt := 1005 |}.

(** A network that answers every call with the status [code]. *)
Definition answering (code : Z) : Platform :=
  {| clock := fun n => 1000 + Z.of_nat n;
     fetch := fun _ _ =>
       Responded {| resp_status := code;
                    resp_headers := [];
                    resp_text := Read "";
                    resp_json :=
                   Unread "SyntaxError" "Unexpected end of JSON input" |};
     arrival := fun _ => [];
     URL := Whatwg.t;
     URL_new := Whatwg.URL_new;
     URL_append := Whatwg.append;
     URL_toString := Whatwg.toString |}.

(** The detail that the cached-only summary lists for [service]. *)
Definition cachedDetail (service : Service.t) : ServiceHealthDetail :=
  {| d_serviceId := Service.id service;
     d_serviceName := Service.name service;
     d_status := Service.status service;
     d_lastCheck := option_map hc_timestamp (Service.lastHealthCheck service);
     d_responseTimeMs :=
       option_map hc_responseTimeMs (Service.lastHealthCheck service);
     d_error := JUndefined |}.

Definition countCached (t : HealthService.Tally) (service : Service.t)
  : HealthService.Tally :=
  HealthService.count (Service.status service) (cachedDetail service) t.

(** ** The gateway *)

(** The address that [proxy] builds for [request] from the base address
    [base]: the URL resolved by the platform, then the query parameters
    appended one by one. *)
Definition destination {P : Platform} (request : ProxyRequest)
  (base : string)
  : option string :=
  match URL_new (pr_path request) (Some base) with
  | Some url =>
      Some (URL_toString
              (match pr_query request with
               | Some query =>
                   fold_left
                     (fun u kv => URL_append (fst kv) (snd kv) u)
                     query url
               | None => url
               end))
  | None => None
  end.

(** The entry that a broadcast leg leaves for the outcome of its call:
    the body of the response, or an error object. *)
Definition legEntry (outcome : Outcome ProxyResponse) : JsValue :=
  match outcome with
  | Ok response => prx_body response
  | Throw e => JObj [("error", JStr (Errors.messageOrUnknown e))]
  end.

(** The services that a broadcast over [serviceType] selects. *)
Definition selected (serviceType : string) (s : Service.t) : Prop :=
  ServiceType_value (Service.type s) = serviceType
  /\ (Service.status s = HEALTHY \/ Service.status s = DEGRADED).

(** The same selection as a list, in the order of the directory. *)
Definition targetsOf (serviceType : string) (w : World) : list Service.t :=
  filter
    (fun s =>
       String.eqb (ServiceType_value (Service.type s)) serviceType
       && (ServiceStatus_eqb (Service.status s) HEALTHY
           || ServiceStatus_eqb (Service.status s) DEGRADED))
    (JsMap.values (services w)).

(** A network on which the agent "Beta" cannot be reached. *)
Definition betaDown : Platform :=
  {| clock := fun n => 1000 + Z.of_nat n;
     fetch := fun _ request =>
       if String.prefix "http://beta.local" (fr_url request)
       then Rejected "TypeError" "fetch failed"
       else Responded Scenario.okResponse;
     arrival := fun _ => [];
     URL := Whatwg.t;
     URL_new := Whatwg.URL_new;
     URL_append := Whatwg.append;
     URL_toString := Whatwg.toString |}.

(** The network of [betaDown] when the answers come back out of order:
    first the failure of the second request, then the headers of the third
    answer, those of the first, the body of the third and the body of the
    first. *)
Definition outOfOrder : Platform :=
  {| clock := fun n => 1000 + Z.of_nat n;
     fetch := fun _ request =>
       if String.prefix "http://beta.local" (fr_url request)
       then Rejected "TypeError" "fetch failed"
       else Responded Scenario.okResponse;
     arrival := fun _ => [1; 2; 0; 2; 0]%nat;
     URL := Whatwg.t;
     URL_new := Whatwg.URL_new;
     URL_append := Whatwg.append;
     URL_toString := Whatwg.toString |}.

(** ** The registry *)

(** The properties that [registerService] hands to the constructor. *)
Definition propsOf (request : RegisterServiceRequest) : Service.Props :=
  {| Service.p_id := RegistryService.generateServiceId (r_name request);
     Service.p_name := r_name request;
     Service.p_type := r_type request;
     Service.p_baseUrl := r_baseUrl request;
     Service.p_healthEndpoint := r_healthEndpoint request;
     Service.p_capabilities := r_capabilities request;
     Service.p_metadata := r_metadata request;
     Service.p_version := r_version request |}.

(** The event that announces the registration. *)
Definition registeredEvent (request : RegisterServiceRequest)
  (timestamp : Date) : DomainEvent :=
  {| ev_type := SERVICE_REGISTERED;
     ev_serviceId := Some (RegistryService.generateServiceId (r_name request));
     ev_timestamp := timestamp;
     ev_data :=
       Some (JObj [("name", JStr (r_name request));
                   ("type", JStr (ServiceType_value (r_type request)))]) |}.

(** The entity that the constructor builds in [w], and the world once it
    is saved. *)
Definition builtService {P : Platform} (request : RegisterServiceRequest)
  (w : World) : Service.t :=
  Service.init (propsOf request) (clock (clockReads w))
    (clock (S (clockReads w))).

Definition savedWorld {P : Platform} (request : RegisterServiceRequest)
  (w : World) : World :=
  set_services
    (JsMap.set String.eqb
       (RegistryService.generateServiceId (r_name request))
       (builtService request w))
    (tick (tick w)).

(** [existing] with its last-seen time set to [seen], field by field. *)
Definition refreshed (existing : Service.t) (seen : Date) : Service.t :=
  {| Service.id := Service.id existing;
     Service.name := Service.name existing;
     Service.type := Service.type existing;
     Service.baseUrl := Service.baseUrl existing;
     Service.healthEndpoint := Service.healthEndpoint existing;
     Service.capabilities := Service.capabilities existing;
     Service.metadata := Service.metadata existing;
     Service.version := Service.version existing;
     Service.registeredAt := Service.registeredAt existing;
     Service._status := Service._status existing;
     Service._lastHealthCheck := Service._lastHealthCheck existing;
     Service._lastSeenAt := seen |}.

(** ** The shape of an identifier *)

(** Characters of [a-z0-9-] only, and no dash right after a dash;
    [afterDash] says that the character before was a dash. *)
Fixpoint dashesApart (afterDash : bool) (s : string) : bool :=
  match s with
  | EmptyString => true
  | String c r =>
      if Slug.isSlugChar c then dashesApart false r
      else if Ascii.eqb c "-" then negb afterDash && dashesApart true r
      else false
  end.

(** The same, and the string does not end with a dash; started with
    [afterDash = true] it does not begin with one either and is not
    empty. *)
Fixpoint slugBody (afterDash : bool) (s : string) : bool :=
  match s with
  | EmptyString => negb afterDash
  | String c r =>
      if Slug.isSlugChar c then slugBody false r
      else if Ascii.eqb c "-" then negb afterDash && slugBody true r
      else false
  end.

(** An identifier: empty, or words of [a-z0-9] joined by single dashes. *)
Definition isSlug (s : string) : bool :=
  JsString.isEmpty s || slugBody true s.

(** ** Subscribers *)

(** The handlers that [emit] notifies of [event], in the order of the
    calls: those subscribed to its type, then those subscribed to all
    events. *)
Definition subscribersOf (event : DomainEvent) (w : World)
  : list EventHandler :=
  match JsMap.get EventType_eqb (ev_type event) (handlers w) with
  | Some hs => hs
  | None => []
  end ++ allHandlers w.

(** The record of the calls of [hs] with [event], the latest first. *)
Definition deliveries (event : DomainEvent) (hs : list EventHandler)
  : list (nat * DomainEvent) :=
  rev (map (fun h => (handler_ref h, event)) hs).

(** Whether a handler with the reference of [h] is among [hs]. *)
Definition subscribed (h : EventHandler) (hs : list EventHandler) : bool :=
  existsb (JsSet.sameRef h) hs.

(** Two handlers for the scenarios: the first one rejects every event. *)
Definition failingHandler : EventHandler :=
  {| handler_ref := 1;
     handler_run := fun _ => Some (JsError "Error" "handler failed") |}.

Definition quietHandler : EventHandler :=
  {| handler_ref := 2; handler_run := fun _ => None |}.

(** The event that announces a deregistration. *)
Definition deregisteredEvent (service : Service.t) (timestamp : Date)
  : DomainEvent :=
  {| ev_type := SERVICE_DEREGISTERED;
     ev_serviceId := Some (Service.id service);
     ev_timestamp := timestamp;
     ev_data := Some (JObj [("name", JStr (Service.name service))]) |}.

(** A hundred and fifty events, numbered from 1. *)
Definition manyEvents : list DomainEvent :=
  map (fun n => Scenario.event (Z.of_nat n)) (seq 1 150).

(** ** Forwarding *)

(** The request that [proxy] hands to [fetch] for the address
    [address]. *)
Definition outbound (request : ProxyRequest) (address : string)
  : FetchRequest :=
  {| fr_url := address;
     fr_method := pr_method request;
     fr_headers :=
       GatewayService.assign (Js.orElse (pr_headers request) [])
         [("Content-Type", "application/json");
          ("X-Forwarded-By", "overlord-api")];
     fr_body :=
       match pr_body request with
       | Some b =>
           if Js.truthy b
              && JsArray.includes (pr_method request) ["POST"; "PUT"; "PATCH"]
           then Some b else None
       | None => None
       end;
     fr_timeoutMs :=
       match pr_timeout request with
       | Some t => if t =? 0 then COMMAND_TIMEOUT_MS else t
       | None => COMMAND_TIMEOUT_MS
       end |}.

(** The text of a response as a value. *)
Definition textBody (r : Response) : Outcome JsValue :=
  match resp_text r with
  | Read text => Ok (JStr text)
  | Unread name message => Throw (JsError name message)
  end.

(** The body that [proxy] reads from a response: the parsed document when
    the content type names JSON, the text otherwise; or the error that
    reading it throws. *)
Definition relayedBody (r : Response) : Outcome JsValue :=
  match Js.lookup "content-type" (resp_headers r) with
  | Some contentType =>
      if GatewayService.includes "application/json" contentType
      then reading (resp_json r)
      else textBody r
  | None => textBody r
  end.

(** The world after a call that went out from [w] and after [reads]
    further readings of the clock, with the directory [directory]. *)
Definition afterCall (sent : FetchRequest) (reads : nat)
  (directory : JsMap.t string Service.t) (w : World) : World :=
  {| services := directory;
     handlers := handlers w;
     allHandlers := allHandlers w;
     recentEvents := recentEvents w;
     clockReads := (reads + clockReads w)%nat;
     requests := sent :: requests w;
     invocations := invocations w |}.

(** A network on which every call is aborted by its timeout. *)
Definition hanging : Platform :=
  {| clock := fun n => 1000 + Z.of_nat n;
     fetch := fun _ _ => Rejected "AbortError" "This operation was aborted";
     arrival := fun _ => [];
     URL := Whatwg.t;
     URL_new := Whatwg.URL_new;
     URL_append := Whatwg.append;
     URL_toString := Whatwg.toString |}.

(** A proxy request for [path] of the service "billing". *)
Definition billingRequest (method path : string) (body : option JsValue)
  : ProxyRequest :=
  {| pr_serviceId := "billing";
     pr_method := method;
     pr_path := path;
     pr_headers := None;
     pr_body := body;
     pr_query := None;
     pr_timeout := None |}.

(** The request of [dispatchCommand]. *)
Definition commandRequest (serviceId command : string)
  (params : option JsValue) : ProxyRequest :=
  {| pr_serviceId := serviceId;
     pr_method := "POST";
     pr_path := ("/commands/" ++ command)%string;
     pr_headers := None;
     pr_body := params;
     pr_query := None;
     pr_timeout := None |}.

(** ** Broadcast *)

(** The error that [proxy] throws for an error caught in its [try]. *)
Definition rethrown (serviceId : string) (error : Thrown) : Thrown :=
  if Errors.isAbortError error then Errors.gatewayTimeout serviceId
  else error.

(** The address and the request of the leg of [service]. *)
Definition legAddress {P : Platform} (message : JsValue)
  (service : Service.t) : option string :=
  destination (GatewayService.broadcastRequest service message)
    (Service.baseUrl service).

Definition legRequest (message : JsValue) (service : Service.t)
  (address : string) : FetchRequest :=
  outbound (GatewayService.broadcastRequest service message) address.

(** What becomes of the call of a leg whose request, if it sends one, is
    the [sent]-th call of [fetch]: [None] when no address can be built,
    and otherwise what the network answers. *)
Definition fateOf {P : Platform} (message : JsValue) (service : Service.t)
  (sent : nat) : option FetchOutcome :=
  match legAddress message service with
  | Some address => Some (fetch sent (legRequest message service address))
  | None => None
  end.

(** The requests of the legs of [targets], in the order of the targets. *)
Fixpoint legRequests {P : Platform} (message : JsValue)
  (targets : list Service.t) : list FetchRequest :=
  match targets with
  | [] => []
  | service :: rest =>
      match legAddress message service with
      | Some address =>
          legRequest message service address :: legRequests message rest
      | None => legRequests message rest
      end
  end.

(** What becomes of the calls of the legs of [targets], started in order
    when [sent] calls of [fetch] have been made. *)
Fixpoint fates {P : Platform} (message : JsValue) (targets : list Service.t)
  (sent : nat) : list (option FetchOutcome) :=
  match targets with
  | [] => []
  | service :: rest =>
      fateOf message service sent
      :: fates message rest
           (match legAddress message service with
            | Some _ => S sent
            | None => sent
            end)
  end.

(** The entry that a leg leaves under the identifier of its target: the
    body of the answer, or an error object with the message of what its
    call threw. *)
Definition entryOf (serviceId : string) (fate : option FetchOutcome)
  : JsValue :=
  match fate with
  | None => GatewayService.errorObject (JsError "TypeError" "Invalid URL")
  | Some (Rejected name message) =>
      GatewayService.errorObject
        (rethrown serviceId (JsError name message))
  | Some (Responded r) =>
      match relayedBody r with
      | Ok body => body
      | Throw e => GatewayService.errorObject (rethrown serviceId e)
      end
  end.

(** Whether the call of a leg returns. *)
Definition succeeded (fate : option FetchOutcome) : bool :=
  match fate with
  | Some (Responded r) =>
      match relayedBody r with Ok _ => true | Throw _ => false end
  | _ => false
  end.

(** What [legStart] and [legResume] come to. *)
Definition started {P : Platform} (message : JsValue) (service : Service.t)
  (results : JsMap.t string JsValue) (w : World)
  : (GatewayService.Leg * JsMap.t string JsValue) * World :=
  match GatewayService.proxySend
          (GatewayService.broadcastRequest service message) w with
  | (Ok sent, w') => ((GatewayService.AwaitsAnswer sent, results), w')
  | (Throw e, w') =>
      ((GatewayService.Settled,
        JsMap.set String.eqb (Service.id service)
          (GatewayService.errorObject e) results), w')
  end.

Definition resumed {P : Platform} (service : Service.t)
  (leg : GatewayService.Leg) (results : JsMap.t string JsValue) (w : World)
  : (GatewayService.Leg * JsMap.t string JsValue) * World :=
  match leg with
  | GatewayService.AwaitsAnswer sent =>
      match GatewayService.sent_outcome sent with
      | Responded r =>
          ((GatewayService.AwaitsBody
              {| GatewayService.ans_service :=
                   GatewayService.sent_service sent;
                 GatewayService.ans_response := r;
                 GatewayService.ans_responseTimeMs :=
                   clock (clockReads w)
                   - GatewayService.sent_startTime sent |},
            results), tick w)
      | Rejected name message =>
          ((GatewayService.Settled,
            JsMap.set String.eqb (Service.id service)
              (GatewayService.errorObject
                 (rethrown (Service.id service) (JsError name message)))
              results), w)
      end
  | GatewayService.AwaitsBody answered =>
      match relayedBody (GatewayService.ans_response answered) with
      | Ok body =>
          ((GatewayService.Settled,
            JsMap.set String.eqb (Service.id service) body results),
           set_services
             (JsMap.set String.eqb
                (Service.id (GatewayService.ans_service answered))
                (Service.touch (clock (clockReads w))
                   (GatewayService.ans_service answered)))
             (tick w))
      | Throw e =>
          ((GatewayService.Settled,
            JsMap.set String.eqb (Service.id service)
              (GatewayService.errorObject (rethrown (Service.id service) e))
              results), w)
      end
  | GatewayService.Settled => ((GatewayService.Settled, results), w)
  end.

(** Every leg has settled. *)
Definition allSettled (legs : list (Service.t * GatewayService.Leg))
  : Prop :=
  Forall (fun l => snd l = GatewayService.Settled) legs.

(** The keys of [results] are the identifiers of the targets whose legs
    have settled. *)
Definition settledKeys (legs : list (Service.t * GatewayService.Leg))
  (results : JsMap.t string JsValue) : Prop :=
  forall k,
    In k (JsMap.keys results)
    <-> exists service,
          In (service, GatewayService.Settled) legs
          /\ Service.id service = k.

(** The service that a waiting leg holds. *)
Definition heldBy (leg : GatewayService.Leg) : option Service.t :=
  match leg with
  | GatewayService.AwaitsAnswer sent =>
      Some (GatewayService.sent_service sent)
  | GatewayService.AwaitsBody answered =>
      Some (GatewayService.ans_service answered)
  | GatewayService.Settled => None
  end.

(** While the legs run from [w0], the directory keeps its identifiers and
    the event bus its state. *)
Definition quietRun (w0 : World)
  (legs : list (Service.t * GatewayService.Leg))
  (results : JsMap.t string JsValue) (w : World) : Prop :=
  wellKeyed w
  /\ JsMap.keys (services w) = JsMap.keys (services w0)
  /\ recentEvents w = recentEvents w0
  /\ handlers w = handlers w0
  /\ allHandlers w = allHandlers w0
  /\ invocations w = invocations w0
  /\ forall service leg held,
       In (service, leg) legs -> heldBy leg = Some held ->
       In (Service.id held) (JsMap.keys (services w)).

(** The service of a leg whose call returned was seen at a reading of
    the clock made since [reads]; the other services are as they were. *)
Definition seenSince {P : Platform} (reads : nat) (w : World)
  (fate : option FetchOutcome) (service : Service.t) : Prop :=
  if succeeded fate then
    exists n,
      (reads <= n < clockReads w)%nat
      /\ JsMap.get String.eqb (Service.id service) (services w)
         = Some (Service.touch (clock n) service)
  else
    JsMap.get String.eqb (Service.id service) (services w) = Some service.

(** A leg stands where its fate has it. *)
Definition legKept {P : Platform} (reads : nat) (w : World)
  (results : JsMap.t string JsValue) (fate : option FetchOutcome)
  (l : Service.t * GatewayService.Leg) : Prop :=
  match snd l with
  | GatewayService.AwaitsAnswer sent =>
      fate = Some (GatewayService.sent_outcome sent)
      /\ GatewayService.sent_service sent = fst l
      /\ JsMap.get String.eqb (Service.id (fst l)) results = None
      /\ JsMap.get String.eqb (Service.id (fst l)) (services w)
         = Some (fst l)
  | GatewayService.AwaitsBody answered =>
      fate = Some (Responded (GatewayService.ans_response answered))
      /\ GatewayService.ans_service answered = fst l
      /\ JsMap.get String.eqb (Service.id (fst l)) results = None
      /\ JsMap.get String.eqb (Service.id (fst l)) (services w)
         = Some (fst l)
  | GatewayService.Settled =>
      JsMap.get String.eqb (Service.id (fst l)) results
      = Some (entryOf (Service.id (fst l)) fate)
      /\ seenSince reads w fate (fst l)
  end.

(** The legs of the targets [all], started one after the other from a
    world with the requests [sent0] and [reads] readings of the clock. *)
Definition tracedRun {P : Platform} (message : JsValue)
  (all : list Service.t) (sent0 : list FetchRequest) (reads : nat)
  (legs : list (Service.t * GatewayService.Leg))
  (results : JsMap.t string JsValue) (w : World) : Prop :=
  (exists rest,
      (map fst legs ++ rest)%list = all
      /\ forall s, In s rest ->
           JsMap.get String.eqb (Service.id s) (services w) = Some s
           /\ JsMap.get String.eqb (Service.id s) results = None)
  /\ Forall2 (legKept reads w results)
       (fates message (map fst legs) (List.length sent0)) legs
  /\ NoDup (JsMap.keys results)
  /\ (forall k, In k (JsMap.keys results) ->
       In k (map Service.id (map fst legs)))
  /\ requests w = (rev (legRequests message (map fst legs)) ++ sent0)%list
  /\ (reads <= clockReads w)%nat.

(** While the legs run from [w0], the event bus keeps its state and no
    leg has sent more than one request; before the first leg nothing has
    happened. *)
Definition sparingRun (w0 : World)
  (legs : list (Service.t * GatewayService.Leg))
  (results : JsMap.t string JsValue) (w : World) : Prop :=
  recentEvents w = recentEvents w0
  /\ handlers w = handlers w0
  /\ allHandlers w = allHandlers w0
  /\ invocations w = invocations w0
  /\ (List.length (requests w)
      <= List.length (requests w0) + List.length legs)%nat
  /\ (legs = [] -> results = [] /\ w = w0).

(** ** Sweeps *)

(** The detail that check-all lists for [service] and the result of its
    check. *)
Definition freshDetail (service : Service.t) (result : HealthCheckResult)
  : ServiceHealthDetail :=
  {| d_serviceId := Service.id service;
     d_serviceName := Service.name service;
     d_status := hc_status result;
     d_lastCheck := Some (hc_timestamp result);
     d_responseTimeMs := Some (hc_responseTimeMs result);
     d_error :=
       match hc_details result with
       | Some details => Js.prop "error" details
       | None => JUndefined
       end |}.

(** The counts of a summary over [n] services with the statuses [l]. *)
Definition countsOf (n : Z) (l : list ServiceStatus) : ServiceCounts :=
  {| total := n;
     healthy := countOf HEALTHY l;
     unhealthy := countOf UNHEALTHY l;
     degraded := countOf DEGRADED l;
     unknown := countOf UNKNOWN l |}.

(** The statuses that a sweep over [items] finds when [sent] requests
    have been made before it: for every service the classification of
    the answer to its health request, the requests going out one after
    the other. *)
Fixpoint sweptStatuses {P : Platform} (items : list Service.t) (sent : nat)
  : list ServiceStatus :=
  match items with
  | [] => []
  | service :: rest =>
      spec_classify (fetch sent (healthRequest service))
      :: sweptStatuses rest (S sent)
  end.

(** An entry of the directory is keyed by the identifier of its entity. *)
Definition keyed (kv : string * Service.t) : Prop :=
  Service.id (snd kv) = fst kv.

(** ** Runs

    One call of a method of the registry, the health monitor, the gateway
    or the event bus, and the state that a sequence of calls leaves. *)
Inductive Operation :=
| Register (request : RegisterServiceRequest)
| Deregister (serviceId : string)
| Heartbeat (serviceId : string)
| CheckOne (serviceId : string)
| CheckAll
| Summary
| Forward (request : ProxyRequest)
| Dispatch (serviceId command : string) (params : option JsValue)
| Broadcast (serviceType : string) (message : JsValue)
| Emit (event : DomainEvent)
| Subscribe (eventType : EventType) (handler : EventHandler)
| Unsubscribe (eventType : EventType) (handler : EventHandler)
| SubscribeAll (handler : EventHandler).

Definition perform {P : Platform} (op : Operation) (w : World) : World :=
  match op with
  | Register request => snd (RegistryService.registerService request w)
  | Deregister serviceId => snd (RegistryService.deregisterService serviceId w)
  | Heartbeat serviceId => snd (RegistryService.heartbeat serviceId w)
  | CheckOne serviceId => snd (HealthService.checkServiceHealth serviceId w)
  | CheckAll => snd (HealthService.checkAllServices w)
  | Summary => snd (HealthService.getAggregatedHealth w)
  | Forward request => snd (GatewayService.proxy request w)
  | Dispatch serviceId command params =>
      snd (GatewayService.dispatchCommand serviceId command params w)
  | Broadcast serviceType message =>
      snd (GatewayService.broadcast serviceType message w)
  | Emit event => snd (EventService.emit event w)
  | Subscribe eventType handler =>
      snd (EventService.subscribe eventType handler w)
  | Unsubscribe eventType handler =>
      snd (EventService.unsubscribe eventType handler w)
  | SubscribeAll handler => snd (EventService.subscribeAll handler w)
  end.

Definition performAll {P : Platform} (ops : list Operation) (w : World)
  : World :=
  fold_left (fun w op => perform op w) ops w.

(** The calls that may add or remove an entry. *)
Definition writesDirectory (op : Operation) : bool :=
  match op with
  | Register _ | Deregister _ => true
  | _ => false
  end.

(** The calls that may add or remove an entry, or write to the history. *)
Definition changesRegistry (op : Operation) : bool :=
  match op with
  | Register _ | Deregister _ | Emit _ => true
  | _ => false
  end.

(** Every identifier of the directory is a slug and is not empty. *)
Definition slugKeyed (w : World) : Prop :=
  Forall (fun k => isSlug k = true /\ k <> ""%string)
    (JsMap.keys (services w)).

(** The history holds at most [maxRecentEvents] events. *)
Definition historyBounded (w : World) : Prop :=
  (List.length (recentEvents w) <= 100)%nat.

(** ** Workflows *)

(** The steps [todo] once the results [rs] are recorded for its first
    steps, one result per step and in order. *)
Fixpoint completedWith (rs : list (option JsValue))
  (todo : list Workflow.Step) : list Workflow.Step :=
  match rs, todo with
  | r :: rs', s :: todo' =>
      Workflow.markStep CommandStatus.COMPLETED (Some r) s
      :: completedWith rs' todo'
  | _, _ => todo
  end.

(** One call of [completeCurrentStep] per entry: the result that is handed
    over and the reading of the clock during the call. *)
Definition completeAll (calls : list (option JsValue * Date))
  (w : Workflow.t) : Workflow.t :=
  fold_left (fun w c => Workflow.completeCurrentStep (fst c) (snd c) w)
    calls w.

(** One call of a public method of a workflow; a call of [start] that
    throws leaves the workflow as it was. *)
Inductive WorkflowCall :=
| CallStart (now : Date)
| CallCompleteStep (result : option JsValue) (now : Date)
| CallFailStep (error : string) (now : Date)
| CallPause
| CallResume
| CallCancel (now : Date).

Definition call (c : WorkflowCall) (w : Workflow.t) : Workflow.t :=
  match c with
  | CallStart now =>
      match Workflow.start now w with
      | Ok w' => w'
      | Throw _ => w
      end
  | CallCompleteStep result now => Workflow.completeCurrentStep result now w
  | CallFailStep error now => Workflow.failCurrentStep error now w
  | CallPause => Workflow.pause w
  | CallResume => Workflow.resume w
  | CallCancel now => Workflow.cancel now w
  end.

Definition callAll (cs : list WorkflowCall) (w : Workflow.t) : Workflow.t :=
  fold_left (fun w c => call c w) cs w.

(** What a step asks for: all of it but its status and its result. *)
Definition plan (step : Workflow.Step)
  : string * string * string * string * option JsValue
    * option (list string) :=
  (Workflow.stepId step, Workflow.stepName step, Workflow.serviceId step,
   Workflow.command step, Workflow.params step, Workflow.dependsOn step).

(** The identifiers that [step] depends on. *)
Definition depsOf (step : Workflow.Step) : list string :=
  match Workflow.dependsOn step with
  | Some deps => deps
  | None => []
  end.

(** A pending step named [stepId] that waits for the steps [deps]. *)
Definition pendingStep (stepId : string) (deps : list string)
  : Workflow.Step :=
  {| Workflow.stepId := stepId; Workflow.stepName := stepId;
     Workflow.serviceId := "billing"; Workflow.command := "run";
     Workflow.params := None; Workflow.dependsOn := Some deps;
     Workflow.stepStatus := CommandStatus.PENDING;
     Workflow.result := None |}.

(** A workflow of three steps: [build], then [test], then [ship]. *)
Definition pipelineProps : Workflow.Props :=
  {| Workflow.p_id := "wf-1"; Workflow.p_name := "pipeline";
     Workflow.p_steps :=
       [pendingStep "build" []; pendingStep "test" ["build"];
        pendingStep "ship" ["build"; "test"]];
     Workflow.p_metadata := None |}.

Definition pipeline : Workflow.t :=
  {| Workflow.id := "wf-1"; Workflow.name := "pipeline";
     Workflow.steps := Workflow.p_steps pipelineProps;
     Workflow.metadata := [];
     Workflow.createdAt := 1000;
     Workflow._status := WorkflowStatus.CREATED;
     Workflow._currentStepIndex := 0;
     Workflow._startedAt := None;
     Workflow._completedAt := None;
     Workflow._error := None |}.

(** The index of the current step is an index of [steps]. *)
Definition inRange (w : Workflow.t) : Prop :=
  (Workflow._currentStepIndex w < List.length (Workflow.steps w))%nat.

(** * Properties *)

(** ** Slug derivation *)

Lemma replaceEdgeDashes_inner (s : string) :
  Slug.replaceEdgeDashes false s = Slug.spec_dropTrailingDash s.
Proof.
  induction s as [|c r IH]; [reflexivity|].
  cbn [Slug.replaceEdgeDashes Slug.spec_dropTrailingDash].
  destruct r as [|c' r'].
  - cbn. destruct (Ascii.eqb c "-"); reflexivity.
  - rewrite IH. cbn [orb JsString.isEmpty]. rewrite andb_false_r.
    reflexivity.
Qed.

Lemma replaceEdgeDashes_spec (s : string) :
  Slug.replaceEdgeDashes true s
  = Slug.spec_dropTrailingDash (Slug.spec_dropLeadingDash s).
Proof.
  destruct s as [|c r]; [reflexivity|].
  cbn [Slug.replaceEdgeDashes Slug.spec_dropLeadingDash orb].
  rewrite andb_true_r, replaceEdgeDashes_inner.
  destruct (Ascii.eqb c "-") eqn:E; [reflexivity|].
  cbn [Slug.spec_dropTrailingDash]. rewrite E.
  destruct r; reflexivity.
Qed.

Lemma replaceNonSlugRuns_runs (s : string) :
  Slug.replaceNonSlugRuns false s = Slug.renderRuns (Slug.runs s)
  /\ Slug.replaceNonSlugRuns true s
     = match Slug.runs s with
       | (false, _) :: rest => Slug.renderRuns rest
       | rs => Slug.renderRuns rs
       end.
Proof.
  induction s as [|c r [IHf IHt]]; [split; reflexivity|].
  cbn [Slug.replaceNonSlugRuns Slug.runs].
  destruct (Slug.isSlugChar c) eqn:Ec.
  - assert (H : String c (Slug.replaceNonSlugRuns false r)
                = Slug.renderRuns
                    (match Slug.runs r with
                     | [] => [(true, String c EmptyString)]
                     | (k', w) :: rest =>
                         if Bool.eqb true k' then (true, String c w) :: rest
                         else (true, String c EmptyString) :: (k', w) :: rest
                     end)).
    { rewrite IHf. destruct (Slug.runs r) as [|[[|] w] rest]; reflexivity. }
    split; [exact H|].
    rewrite H. destruct (Slug.runs r) as [|[[|] w] rest]; reflexivity.
  - split.
    + rewrite IHt. destruct (Slug.runs r) as [|[[|] w] rest]; reflexivity.
    + rewrite IHt. destruct (Slug.runs r) as [|[[|] w] rest]; reflexivity.
Qed.

(** The runs are a partition of the string: gluing them gives it back. *)
Lemma runs_concat (s : string) :
  fold_right (fun r acc => (snd r ++ acc)%string) EmptyString (Slug.runs s)
  = s.
Proof.
  induction s as [|c r IH]; [reflexivity|].
  cbn [Slug.runs].
  destruct (Slug.runs r) as [|[k w] rest].
  - cbn in *. now rewrite <- IH.
  - destruct (Bool.eqb (Slug.isSlugChar c) k); cbn in *; now rewrite IH.
Qed.

(** Every run is non-empty and of one kind. *)
Lemma runs_homogeneous (s : string) :
  Forall (fun r => snd r <> EmptyString
                   /\ forall c, In c (list_ascii_of_string (snd r)) ->
                                Slug.isSlugChar c = fst r)
    (Slug.runs s).
Proof.
  induction s as [|c r IH]; [constructor|].
  cbn [Slug.runs].
  destruct (Slug.runs r) as [|[k w] rest].
  - constructor; [|constructor]. split; [discriminate|].
    cbn. intros c' [<-|[]]. reflexivity.
  - inversion IH as [|? ? [Hne Hk] Hrest]; subst.
    destruct (Bool.eqb (Slug.isSlugChar c) k) eqn:E.
    + apply Bool.eqb_prop in E. constructor; [|exact Hrest].
      split; [discriminate|]. cbn. intros c' [<-|Hin]; [reflexivity|].
      rewrite E. now apply Hk.
    + constructor; [|exact IH].
      split; [discriminate|]. cbn. intros c' [<-|[]]. reflexivity.
Qed.

Lemma runs_maximal (s : string) : alternating (Slug.runs s).
Proof.
  induction s as [|c r IH]; [exact I|].
  cbn [Slug.runs].
  destruct (Slug.runs r) as [|[k w] rest] eqn:E; [exact I|].
  destruct (Bool.eqb (Slug.isSlugChar c) k) eqn:Ek.
  - apply Bool.eqb_prop in Ek. destruct rest as [|r' rest']; [exact I|].
    cbn in *. rewrite Ek. exact IH.
  - cbn [alternating]. split; [|exact IH].
    cbn. intro Heq. rewrite Heq, Bool.eqb_reflx in Ek. discriminate.
Qed.

Lemma generateServiceId_spec (name : string) :
  Slug.generateServiceId name = Slug.spec_slug name.
Proof.
  unfold Slug.generateServiceId, Slug.spec_slug, Slug.spec_collapse.
  rewrite replaceEdgeDashes_spec.
  now rewrite (proj1 (replaceNonSlugRuns_runs _)).
Qed.

(** ** Maps keyed by strings *)

Section MapFacts.
Context {V : Type}.
Implicit Types (m : JsMap.t string V) (k : string) (v : V).

Lemma get_set_same k v m :
  JsMap.get String.eqb k (JsMap.set String.eqb k v m) = Some v.
Proof.
  induction m as [|[k' v'] r IH]; cbn.
  - now rewrite String.eqb_refl.
  - destruct (String.eqb k' k) eqn:E; cbn; rewrite E; auto.
Qed.

Lemma get_set_other k k' v m :
  k' <> k ->
  JsMap.get String.eqb k' (JsMap.set String.eqb k v m)
  = JsMap.get String.eqb k' m.
Proof.
  intros Hne. induction m as [|[k0 v0] r IH]; cbn.
  - destruct (String.eqb k k') eqn:E; [|reflexivity].
    apply String.eqb_eq in E. congruence.
  - destruct (String.eqb k0 k) eqn:E; cbn.
    + apply String.eqb_eq in E. subst k0.
      destruct (String.eqb k k') eqn:E'; [|reflexivity].
      apply String.eqb_eq in E'. congruence.
    + now rewrite IH.
Qed.

Lemma get_none_keys k m :
  JsMap.get String.eqb k m = None <-> ~ In k (JsMap.keys m).
Proof.
  induction m as [|[k' v'] r IH]; cbn; [tauto|].
  destruct (String.eqb k' k) eqn:E.
  - apply String.eqb_eq in E. split; [discriminate|]. tauto.
  - apply String.eqb_neq in E. rewrite IH. tauto.
Qed.

Lemma set_absent k v m :
  ~ In k (JsMap.keys m) -> JsMap.set String.eqb k v m = m ++ [(k, v)].
Proof.
  induction m as [|[k' v'] r IH]; cbn; [reflexivity|].
  intros Hn. destruct (String.eqb k' k) eqn:E.
  - apply String.eqb_eq in E. tauto.
  - rewrite IH; tauto.
Qed.

Lemma keys_set k v m k0 :
  In k0 (JsMap.keys (JsMap.set String.eqb k v m))
  <-> k0 = k \/ In k0 (JsMap.keys m).
Proof.
  induction m as [|[k' v'] r IH]; cbn.
  - intuition congruence.
  - destruct (String.eqb k' k) eqn:E; cbn.
    + apply String.eqb_eq in E. subst. intuition congruence.
    + rewrite IH. intuition congruence.
Qed.

Lemma keys_set_present k v m :
  In k (JsMap.keys m) ->
  JsMap.keys (JsMap.set String.eqb k v m) = JsMap.keys m.
Proof.
  induction m as [|[k' v'] r IH]; cbn; [tauto|].
  intros Hin. destruct (String.eqb k' k) eqn:E; cbn; [reflexivity|].
  apply String.eqb_neq in E. f_equal. apply IH. tauto.
Qed.

Lemma get_in k v m :
  JsMap.get String.eqb k m = Some v -> In (k, v) m.
Proof.
  induction m as [|[k' v'] r IH]; cbn; [discriminate|].
  destruct (String.eqb k' k) eqn:E.
  - apply String.eqb_eq in E. intros [= ->]. subst. now left.
  - auto.
Qed.

Lemma in_set k v m kv :
  In kv (JsMap.set String.eqb k v m) -> kv = (k, v) \/ In kv m.
Proof.
  induction m as [|[k' v'] r IH]; cbn.
  - intuition.
  - destruct (String.eqb k' k) eqn:E; cbn.
    + apply String.eqb_eq in E. subst. intuition.
    + intuition.
Qed.

(** Writing entries with fresh, distinct keys appends them in order. *)
Lemma set_all_fresh (entries : list (string * V)) m :
  NoDup (JsMap.keys m ++ map fst entries) ->
  fold_left (fun acc kv => JsMap.set String.eqb (fst kv) (snd kv) acc)
    entries m
  = m ++ entries.
Proof.
  revert m. induction entries as [|[k v] rest IH]; intros m Hnd; cbn.
  - now rewrite app_nil_r.
  - rewrite set_absent.
    + rewrite IH.
      * now rewrite <- app_assoc.
      * unfold JsMap.keys in *. rewrite map_app. cbn.
        rewrite <- app_assoc. exact Hnd.
    + cbn in Hnd. apply NoDup_remove_2 in Hnd.
      intro Hin. apply Hnd. apply in_or_app. now left.
Qed.

Lemma keys_set_all (entries : list (string * V)) m k :
  In k (JsMap.keys
          (fold_left
             (fun acc kv => JsMap.set String.eqb (fst kv) (snd kv) acc)
             entries m))
  <-> In k (JsMap.keys m) \/ In k (map fst entries).
Proof.
  revert m. induction entries as [|[k' v] rest IH]; intros m.
  - cbn. tauto.
  - cbn [fold_left]. rewrite IH. cbn [fst snd map].
    rewrite keys_set. cbn. intuition.
Qed.
End MapFacts.

Lemma wellKeyed_get (w : World) (k : string) (s : Service.t) :
  wellKeyed w ->
  JsMap.get String.eqb k (services w) = Some s -> Service.id s = k.
Proof.
  intros [Hk _] Hget. apply get_in in Hget.
  rewrite Forall_forall in Hk. exact (Hk _ Hget).
Qed.

Lemma wellKeyed_empty : wellKeyed emptyWorld.
Proof. split; constructor. Qed.

Lemma wellKeyed_save (w : World) (s : Service.t) :
  wellKeyed w ->
  wellKeyed
    (set_services (JsMap.set String.eqb (Service.id s) s) w).
Proof.
  intros [Hk Hnd]. split; unfold set_services; cbn [services].
  - rewrite Forall_forall in *. intros kv Hin.
    apply in_set in Hin. destruct Hin as [->|Hin]; auto.
  - destruct (in_dec string_dec (Service.id s) (JsMap.keys (services w)))
      as [Hin|Hnin].
    + now rewrite keys_set_present.
    + rewrite set_absent by exact Hnin.
      unfold JsMap.keys in *. rewrite map_app. cbn.
      apply NoDup_app; [exact Hnd|repeat constructor; tauto|].
      intros a Ha [<-|[]]. contradiction.
Qed.

Lemma wellKeyed_frame (w w' : World) :
  services w' = services w -> wellKeyed w -> wellKeyed w'.
Proof. unfold wellKeyed. now intros ->. Qed.

Lemma wellKeyed_write (w w' : World) (s : Service.t) :
  services w' = JsMap.set String.eqb (Service.id s) s (services w) ->
  wellKeyed w -> wellKeyed w'.
Proof.
  intros Hs Hwf. apply (wellKeyed_save w s) in Hwf.
  unfold wellKeyed in *. now rewrite Hs.
Qed.

Lemma wellKeyed_ids (w : World) :
  wellKeyed w ->
  map Service.id (JsMap.values (services w)) = JsMap.keys (services w).
Proof.
  intros [Hk _]. unfold JsMap.values, JsMap.keys.
  induction (services w) as [|[k s] r IH]; [reflexivity|].
  inversion Hk; subst. cbn in *. f_equal; auto.
Qed.

(** Filtering the entities of a directory keeps their identifiers
    distinct. *)
Lemma filter_ids_distinct (keep : Service.t -> bool)
  (entities : list Service.t) :
  NoDup (map Service.id entities) ->
  NoDup (map Service.id (filter keep entities)).
Proof.
  induction entities as [|s rest IH]; cbn; [auto|].
  intros Hnd. inversion Hnd as [|? ? Hfresh Hrest]; subst.
  destruct (keep s); cbn; auto.
  constructor; auto.
  intro Hin. apply Hfresh. apply in_map_iff in Hin.
  destruct Hin as (x & Hx & Hin). apply filter_In in Hin.
  apply in_map_iff. exists x. tauto.
Qed.

(** ** The event bus *)

Lemma with_history_same (w : World) :
  with_history (recentEvents w) (invocations w) w = w.
Proof. now destruct w. Qed.

(** Notifying handlers only adds to the record of invocations, whether
    they reject or not. *)
Lemma forOf_notify (event : DomainEvent) (hs : list EventHandler) (w : World) :
  exists calls,
    forOf hs (EventService.notify event) w
    = (Ok tt, with_history (recentEvents w) calls w).
Proof.
  revert w. induction hs as [|h r IH]; intros w.
  - exists (invocations w). cbn. now rewrite with_history_same.
  - cbn [forOf]. unfold bind at 1.
    assert (Hn : EventService.notify event h w
                 = (Ok tt, log_invocation (handler_ref h) event w)).
    { unfold EventService.notify, tryCatch, EventService.call, ret.
      destruct (handler_run h event); reflexivity. }
    rewrite Hn. destruct (IH (log_invocation (handler_ref h) event w))
      as [calls Hc].
    exists calls. rewrite Hc. reflexivity.
Qed.

Lemma emit_run (event : DomainEvent) (w : World) :
  exists calls,
    EventService.emit event w
    = (Ok tt, with_history (pushed event (recentEvents w)) calls w).
Proof.
  unfold EventService.emit.
  unfold bind at 1. unfold modify at 1.
  unfold bind at 1. unfold gets at 1.
  unfold bind at 1.
  set (w1 := set_recentEvents (JsArray.unshift event) w).
  set (w2 := with_history (pushed event (recentEvents w)) (invocations w) w).
  assert (H2 : (if EventService.maxRecentEvents
                     <? Z.of_nat (List.length (recentEvents w1))
                then modify (set_recentEvents JsArray.pop)
                else ret tt) w1 = (Ok tt, w2)).
  { unfold w2, pushed. cbn [recentEvents w1 set_recentEvents].
    unfold JsArray.unshift.
    destruct (EventService.maxRecentEvents
              <? Z.of_nat (List.length (event :: recentEvents w)));
      reflexivity. }
  rewrite H2.
  unfold bind at 1. unfold gets at 1.
  unfold bind at 1.
  assert (H3 : exists calls,
             match JsMap.get EventType_eqb (ev_type event) (handlers w2) with
             | Some hs => forOf hs (EventService.notify event)
             | None => ret tt
             end w2
             = (Ok tt, with_history (pushed event (recentEvents w)) calls w)).
  { destruct (JsMap.get EventType_eqb (ev_type event) (handlers w2)) as [hs|].
    - destruct (forOf_notify event hs w2) as [calls Hc].
      exists calls. rewrite Hc. reflexivity.
    - exists (invocations w). reflexivity. }
  destruct H3 as [calls1 H3]. rewrite H3.
  unfold bind at 1. unfold gets at 1.
  destruct (forOf_notify event
              (allHandlers
                 (with_history (pushed event (recentEvents w)) calls1 w))
              (with_history (pushed event (recentEvents w)) calls1 w))
    as [calls2 Hc].
  exists calls2. rewrite Hc. reflexivity.
Qed.

Lemma pushed_firstn (event : DomainEvent) (history : list DomainEvent) :
  (List.length history <= 100)%nat ->
  pushed event history = firstn 100 (event :: history).
Proof.
  intros Hlen. unfold pushed, EventService.maxRecentEvents.
  destruct (100 <? Z.of_nat (List.length (event :: history))) eqn:E.
  - apply Z.ltb_lt in E. rewrite removelast_firstn_len.
    cbn [List.length] in *.
    replace (Nat.pred (S (List.length history))) with 100%nat by lia.
    reflexivity.
  - apply Z.ltb_ge in E. symmetry. apply firstn_all2. lia.
Qed.

Lemma firstn_app_firstn {A : Type} (n : nat) (a b : list A) :
  firstn n (a ++ firstn n b) = firstn n (a ++ b).
Proof.
  rewrite !firstn_app. f_equal.
  rewrite firstn_firstn. f_equal. lia.
Qed.

Lemma emitAll_history (events : list DomainEvent) (w : World) :
  (List.length (recentEvents w) <= 100)%nat ->
  exists calls,
    emitAll events w
    = (Ok tt,
       with_history (firstn 100 (rev events ++ recentEvents w)) calls w).
Proof.
  revert w. induction events as [|e rest IH]; intros w Hlen.
  - exists (invocations w). unfold emitAll, ret. cbn [forOf rev app].
    rewrite firstn_all2 by exact Hlen.
    now rewrite with_history_same.
  - unfold emitAll in *. cbn [forOf]. unfold bind at 1.
    destruct (emit_run e w) as [calls1 He]. rewrite He.
    rewrite pushed_firstn by exact Hlen.
    destruct (IH (with_history (firstn 100 (e :: recentEvents w)) calls1 w))
      as [calls2 Hr].
    { unfold with_history; cbn [recentEvents]. rewrite length_firstn. lia. }
    exists calls2. rewrite Hr. unfold with_history.
    cbn [recentEvents services handlers allHandlers clockReads requests rev].
    rewrite firstn_app_firstn, <- app_assoc. reflexivity.
Qed.

(** The history never holds more than 100 events. *)
Lemma emit_history_bound (event : DomainEvent) (w : World) :
  (List.length (recentEvents w) <= 100)%nat ->
  (List.length (recentEvents (snd (EventService.emit event w))) <= 100)%nat.
Proof.
  intros Hlen. destruct (emit_run event w) as [calls He]. rewrite He.
  unfold with_history; cbn [snd recentEvents].
  rewrite pushed_firstn by exact Hlen.
  rewrite length_firstn. lia.
Qed.

(** After [k] events emitted on a fresh bus, the history is the
    [min k 100] latest of them, the newest first. *)
Lemma emitAll_fresh (events : list DomainEvent) (w : World) :
  recentEvents w = [] ->
  recentEvents (snd (emitAll events w)) = firstn 100 (rev events)
  /\ List.length (recentEvents (snd (emitAll events w)))
     = Nat.min (List.length events) 100.
Proof.
  intros Hfresh. destruct (emitAll_history events w) as [calls He].
  { rewrite Hfresh. cbn. lia. }
  rewrite He, Hfresh, app_nil_r. unfold with_history; cbn [snd recentEvents].
  split; [reflexivity|]. rewrite length_firstn, length_rev. lia.
Qed.

(** With a limit that is not negative, [getRecentEvents] returns the
    [min limit n] newest events and leaves the bus as it is. *)
Lemma getRecentEvents_nonnegative (limit : Z) (w : World) :
  0 <= limit ->
  EventService.getRecentEvents (Some limit) w
  = (Ok (firstn (Z.to_nat limit) (recentEvents w)), w).
Proof.
  intros Hl. unfold EventService.getRecentEvents, gets, JsArray.slice0.
  destruct (limit <? 0) eqn:E; [apply Z.ltb_lt in E; lia|].
  do 2 f_equal.
  destruct (Z.le_gt_cases limit (Z.of_nat (List.length (recentEvents w)))).
  - now rewrite Z.min_l.
  - rewrite Z.min_r by lia. rewrite Nat2Z.id.
    rewrite firstn_all. symmetry. apply firstn_all2. lia.
Qed.

Lemma getRecentEvents_default (w : World) :
  EventService.getRecentEvents None w
  = (Ok (firstn 50 (recentEvents w)), w).
Proof.
  unfold EventService.getRecentEvents.
  exact (getRecentEvents_nonnegative 50 w ltac:(lia)).
Qed.

(** ** The health monitor *)

Section HealthFacts.
Context {P : Platform}.

Lemma checkServiceHealth_found (id : string) (service : Service.t)
  (w : World) :
  JsMap.get String.eqb id (services w) = Some service ->
  HealthService.checkServiceHealth id w
  = (Ok (checkResult service w), checkedWorld service w).
Proof.
  intros Hget.
  unfold HealthService.checkServiceHealth, checkedWorld, checkResult,
    healthRequest, spec_classify, spec_details, Service.getFullHealthUrl,
    HEALTH_CHECK_TIMEOUT_MS, HealthService.ok.
  unfold bind at 1. unfold Repo.findById at 1, gets. rewrite Hget.
  unfold bind at 1. unfold now at 1.
  unfold tryCatch, bind, doFetch, now, Repo.save, modify, ret.
  cbn [requests tick clockReads].
  destruct (fetch _ _) as [r|name message]; cbn.
  - replace (resp_status r <=? 299) with (resp_status r <? 300)
      by (destruct (Z.ltb_spec (resp_status r) 300),
                   (Z.leb_spec (resp_status r) 299); lia).
    destruct ((200 <=? resp_status r) && (resp_status r <? 300));
      [reflexivity|].
    destruct (500 <=? resp_status r); reflexivity.
  - reflexivity.
Qed.

Lemma checkServiceHealth_absent (id : string) (w : World) :
  JsMap.get String.eqb id (services w) = None ->
  exists result,
    HealthService.checkServiceHealth id w = (Ok result, tick w)
    /\ hc_status result = UNKNOWN.
Proof.
  intros Hget. unfold HealthService.checkServiceHealth.
  unfold bind at 1. unfold Repo.findById at 1, gets. rewrite Hget.
  eexists. split; reflexivity.
Qed.

(** An active check always returns a result: failures are data. *)
Lemma checkServiceHealth_total (id : string) (w : World) :
  exists result w', HealthService.checkServiceHealth id w = (Ok result, w').
Proof.
  destruct (JsMap.get String.eqb id (services w)) as [service|] eqn:Hget.
  - exists (checkResult service w), (checkedWorld service w).
    now apply checkServiceHealth_found.
  - destruct (checkServiceHealth_absent id w Hget) as (result & Hr & _).
    now exists result, (tick w).
Qed.

End HealthFacts.

Lemma wellKeyed_threeAgents : wellKeyed Scenario.threeAgents.
Proof.
  split; vm_compute.
  - repeat constructor.
  - repeat constructor; cbn; intuition discriminate.
Qed.

Lemma wellKeyed_billingWorld : wellKeyed Scenario.billingWorld.
Proof.
  split; vm_compute.
  - repeat constructor.
  - constructor; [intros []|constructor].
Qed.

(** C6. Active-check classification and persistence: an active health
    check of a registered service issues one GET to its health address and
    always returns a result; a 2xx response gives [HEALTHY], a response
    with status at least 500 gives [UNHEALTHY], any other response gives
    [DEGRADED], a rejected call (timeout, network failure) gives
    [UNHEALTHY]; the result is then written onto the service: the status,
    the cached result and the last-seen time are all three replaced, every
    other field and every other entry is as before. *)
Theorem active_check_classification (P : Platform) (id : string)
  (service : Service.t) (w : World) :
  wellKeyed w ->
  JsMap.get String.eqb id (services w) = Some service ->
  let outcome := fetch (List.length (requests w)) (healthRequest service) in
  exists result w',
    HealthService.checkServiceHealth id w = (Ok result, w')
    /\ requests w' = healthRequest service :: requests w
    /\ (forall r, outcome = Responded r ->
          200 <= resp_status r <= 299 -> hc_status result = HEALTHY)
    /\ (forall r, outcome = Responded r ->
          500 <= resp_status r -> hc_status result = UNHEALTHY)
    /\ (forall r, outcome = Responded r ->
          resp_status r < 200 \/ 300 <= resp_status r < 500 ->
          hc_status result = DEGRADED)
    /\ (forall name message, outcome = Rejected name message ->
          hc_status result = UNHEALTHY)
    /\ hc_timestamp result = clock (2 + clockReads w)%nat
    /\ JsMap.get String.eqb id (services w')
       = Some {| Service.id := Service.id service;
                 Service.name := Service.name service;
                 Service.type := Service.type service;
                 Service.baseUrl := Service.baseUrl service;
                 Service.healthEndpoint := Service.healthEndpoint service;
                 Service.capabilities := Service.capabilities service;
                 Service.metadata := Service.metadata service;
                 Service.version := Service.version service;
                 Service.registeredAt := Service.registeredAt service;
                 Service._status := hc_status result;
                 Service._lastHealthCheck := Some result;
                 Service._lastSeenAt := clock (3 + clockReads w)%nat |}
    /\ (forall id', id' <> id ->
          JsMap.get String.eqb id' (services w')
          = JsMap.get String.eqb id' (services w)).
Proof.
  intros Hwf Hget outcome.
  pose proof (wellKeyed_get w id service Hwf Hget) as Hid.
  exists (checkResult service w), (checkedWorld service w).
  split; [now apply checkServiceHealth_found|].
  split; [reflexivity|].
  assert (Hs : hc_status (checkResult service w) = spec_classify outcome)
    by reflexivity.
  repeat split.
  - intros r Hr Hrange. rewrite Hs, Hr. cbn.
    destruct (Z.leb_spec 200 (resp_status r)); [|lia].
    destruct (Z.ltb_spec (resp_status r) 300); [reflexivity|lia].
  - intros r Hr Hrange. rewrite Hs, Hr. cbn.
    destruct (Z.ltb_spec (resp_status r) 300); [lia|].
    rewrite andb_false_r.
    destruct (Z.leb_spec 500 (resp_status r)); [reflexivity|lia].
  - intros r Hr Hrange. rewrite Hs, Hr. cbn.
    destruct (Z.leb_spec 200 (resp_status r)),
      (Z.ltb_spec (resp_status r) 300),
      (Z.leb_spec 500 (resp_status r)); cbn; try reflexivity; lia.
  - intros name message Hr. rewrite Hs, Hr. reflexivity.
  - subst id. cbn [checkedWorld services]. apply get_set_same.
  - intros id' Hne. subst id. cbn [checkedWorld services].
    now apply get_set_other.
Qed.

Lemma active_check_classification_witness :
  exists result w',
    HealthService.checkServiceHealth (P := answering 404) "billing"
      Scenario.billingWorld = (Ok result, w')
    /\ hc_status result = DEGRADED
    /\ option_map Service.status
         (JsMap.get String.eqb "billing" (services w')) = Some DEGRADED.
Proof.
  destruct (active_check_classification (answering 404) "billing" billing
              Scenario.billingWorld wellKeyed_billingWorld eq_refl)
    as (result & w' & Hrun & _ & _ & _ & Hdeg & _ & _ & Hentry & _).
  exists result, w'. split; [exact Hrun|].
  assert (Hs : hc_status result = DEGRADED).
  { apply (Hdeg _ eq_refl). cbn. lia. }
  split; [exact Hs|]. rewrite Hentry. cbn. now rewrite Hs.
Defined.

(** ** Aggregation *)

Lemma countOf_app (status : ServiceStatus) (l l' : list ServiceStatus) :
  countOf status (l ++ l') = countOf status l + countOf status l'.
Proof.
  unfold countOf. rewrite filter_app, length_app. lia.
Qed.

Lemma count_fields (status : ServiceStatus) (detail : ServiceHealthDetail)
  (t : HealthService.Tally) :
  let t' := HealthService.count status detail t in
  HealthService.t_details t' = HealthService.t_details t ++ [detail]
  /\ HealthService.t_healthy t'
     = HealthService.t_healthy t + countOf HEALTHY [status]
  /\ HealthService.t_unhealthy t'
     = HealthService.t_unhealthy t + countOf UNHEALTHY [status]
  /\ HealthService.t_degraded t'
     = HealthService.t_degraded t + countOf DEGRADED [status]
  /\ HealthService.t_unknown t'
     = HealthService.t_unknown t + countOf UNKNOWN [status].
Proof.
  destruct status; cbn; repeat split; lia.
Qed.

(** A loop whose every turn counts one detail under its own status. *)
Lemma forOfAcc_count {A : Type} (items : list A)
  (body : A -> HealthService.Tally -> M HealthService.Tally) :
  (forall x t w, exists detail w',
      body x t w
      = (Ok (HealthService.count (d_status detail) detail t), w')) ->
  forall t w, exists t' w' details,
    forOfAcc items body t w = (Ok t', w')
    /\ List.length details = List.length items
    /\ HealthService.t_details t' = HealthService.t_details t ++ details
    /\ HealthService.t_healthy t'
       = HealthService.t_healthy t + countOf HEALTHY (map d_status details)
    /\ HealthService.t_unhealthy t'
       = HealthService.t_unhealthy t
         + countOf UNHEALTHY (map d_status details)
    /\ HealthService.t_degraded t'
       = HealthService.t_degraded t
         + countOf DEGRADED (map d_status details)
    /\ HealthService.t_unknown t'
       = HealthService.t_unknown t + countOf UNKNOWN (map d_status details).
Proof.
  intros Hbody. induction items as [|x rest IH]; intros t w.
  - exists t, w, []. cbn. rewrite app_nil_r.
    repeat split; unfold countOf; cbn; try reflexivity; lia.
  - destruct (Hbody x t w) as (detail & w1 & Hx).
    destruct (IH (HealthService.count (d_status detail) detail t) w1)
      as (t' & w' & details & Hrun & Hlen & Hd & Hh & Hu & Hg & Hk).
    destruct (count_fields (d_status detail) detail t)
      as (Cd & Ch & Cu & Cg & Ck).
    exists t', w', (detail :: details).
    cbn [forOfAcc]. unfold bind at 1. rewrite Hx, Hrun.
    change (map d_status (detail :: details))
      with ([d_status detail] ++ map d_status details).
    rewrite !countOf_app.
    repeat split.
    + cbn. now rewrite Hlen.
    + rewrite Hd, Cd, <- app_assoc. reflexivity.
    + lia.
    + lia.
    + lia.
    + lia.
Qed.

Lemma countOf_total (l : list ServiceStatus) :
  countOf HEALTHY l + countOf UNHEALTHY l + countOf DEGRADED l
  + countOf UNKNOWN l = Z.of_nat (List.length l)
  /\ 0 <= countOf HEALTHY l /\ 0 <= countOf UNHEALTHY l
  /\ 0 <= countOf DEGRADED l /\ 0 <= countOf UNKNOWN l.
Proof.
  split; [|unfold countOf; lia].
  induction l as [|s r IH]; [reflexivity|].
  change (s :: r) with ([s] ++ r).
  rewrite !countOf_app, length_app, Nat2Z.inj_add.
  assert (H1 : countOf HEALTHY [s] + countOf UNHEALTHY [s]
               + countOf DEGRADED [s] + countOf UNKNOWN [s]
               = Z.of_nat (List.length [s]))
    by (destruct s; reflexivity).
  lia.
Qed.

(** The derivation written in the two entry points is the one of the
    specification, whatever the counts. *)
Lemma overallStatus_spec (n h d u : Z) :
  (if 0 <? u then if n =? u then UNHEALTHY else DEGRADED
   else if 0 <? d then DEGRADED
   else if 0 <? h then HEALTHY
   else UNKNOWN)
  = spec_overallStatus n h d u.
Proof.
  unfold spec_overallStatus.
  destruct (Z.ltb_spec 0 u), (Z.eqb_spec n u), (Z.eqb_spec u n),
    (Z.ltb_spec 0 n), (Z.ltb_spec 0 d), (Z.ltb_spec 0 h);
    cbn; try reflexivity; lia.
Qed.

Lemma cached_loop (items : list Service.t) (t : HealthService.Tally)
  (w : World) :
  forOfAcc items (fun service t => ret (countCached t service)) t w
  = (Ok (fold_left countCached items t), w).
Proof.
  revert t. induction items as [|x rest IH]; intros t; [reflexivity|].
  cbn [forOfAcc fold_left]. unfold bind at 1, ret at 1. apply IH.
Qed.

Lemma fold_countCached (items : list Service.t) (t : HealthService.Tally) :
  let t' := fold_left countCached items t in
  let statuses := map Service.status items in
  map d_status (HealthService.t_details t')
  = map d_status (HealthService.t_details t) ++ statuses
  /\ HealthService.t_healthy t'
     = HealthService.t_healthy t + countOf HEALTHY statuses
  /\ HealthService.t_unhealthy t'
     = HealthService.t_unhealthy t + countOf UNHEALTHY statuses
  /\ HealthService.t_degraded t'
     = HealthService.t_degraded t + countOf DEGRADED statuses
  /\ HealthService.t_unknown t'
     = HealthService.t_unknown t + countOf UNKNOWN statuses.
Proof.
  revert t. induction items as [|x rest IH]; intros t.
  - cbn. rewrite app_nil_r. repeat split; unfold countOf; cbn; lia.
  - cbn [fold_left]. cbn zeta in *.
    destruct (IH (countCached t x)) as (Hd & Hh & Hu & Hg & Hk).
    destruct (count_fields (Service.status x) (cachedDetail x) t)
      as (Cd & Ch & Cu & Cg & Ck).
    cbn zeta in Cd, Ch, Cu, Cg, Ck. fold (countCached t x) in Cd, Ch, Cu, Cg, Ck.
    change (map Service.status (x :: rest))
      with ([Service.status x] ++ map Service.status rest).
    rewrite !countOf_app, Hd, Hh, Hu, Hg, Hk, Cd, Ch, Cu, Cg, Ck.
    rewrite map_app, <- app_assoc. repeat split; lia.
Qed.

Lemma get_app_fresh {V : Type} (k : string) (v : V)
  (pre rest : JsMap.t string V) :
  ~ In k (JsMap.keys pre) ->
  JsMap.get String.eqb k (pre ++ (k, v) :: rest) = Some v.
Proof.
  induction pre as [|[k0 v0] r IH]; cbn; intros Hn.
  - now rewrite String.eqb_refl.
  - destruct (String.eqb_spec k0 k) as [->|]; [tauto|]. apply IH. tauto.
Qed.

Lemma set_app_fresh {V : Type} (k : string) (v v' : V)
  (pre rest : JsMap.t string V) :
  ~ In k (JsMap.keys pre) ->
  JsMap.set String.eqb k v' (pre ++ (k, v) :: rest)
  = pre ++ (k, v') :: rest.
Proof.
  induction pre as [|[k0 v0] r IH]; cbn; intros Hn.
  - now rewrite String.eqb_refl.
  - destruct (String.eqb_spec k0 k) as [->|]; [tauto|].
    rewrite IH; tauto.
Qed.

Section SweepFacts.
Context {P : Platform}.

(** The loop of check-all over the entries [rest] that follow the entries
    [pre] in the directory. *)
Lemma sweep_loop (rest : JsMap.t string Service.t) :
  forall (pre : JsMap.t string Service.t) (t : HealthService.Tally)
         (w : World),
    services w = pre ++ rest ->
    NoDup (JsMap.keys (pre ++ rest)) ->
    Forall keyed rest ->
    exists rest' t' w',
      forOfAcc (JsMap.values rest)
        (fun service t =>
           healthResult <-
             HealthService.checkServiceHealth (Service.id service) ;;
           ret (HealthService.count (hc_status healthResult)
                  (freshDetail service healthResult) t))
        t w = (Ok t', w')
      /\ services w' = pre ++ rest'
      /\ JsMap.keys rest' = JsMap.keys rest
      /\ Forall keyed rest'
      /\ requests w'
         = rev (map healthRequest (JsMap.values rest)) ++ requests w
      /\ recentEvents w' = recentEvents w
      /\ map d_status (HealthService.t_details t')
         = map d_status (HealthService.t_details t)
           ++ map Service.status (JsMap.values rest')
      /\ map d_serviceId (HealthService.t_details t')
         = map d_serviceId (HealthService.t_details t) ++ JsMap.keys rest
      /\ HealthService.t_healthy t'
         = HealthService.t_healthy t
           + countOf HEALTHY (map Service.status (JsMap.values rest'))
      /\ HealthService.t_unhealthy t'
         = HealthService.t_unhealthy t
           + countOf UNHEALTHY (map Service.status (JsMap.values rest'))
      /\ HealthService.t_degraded t'
         = HealthService.t_degraded t
           + countOf DEGRADED (map Service.status (JsMap.values rest'))
      /\ HealthService.t_unknown t'
         = HealthService.t_unknown t
           + countOf UNKNOWN (map Service.status (JsMap.values rest'))
      /\ map Service.status (JsMap.values rest')
         = sweptStatuses (JsMap.values rest) (List.length (requests w)).
Proof.
  induction rest as [|[k s] rest0 IH]; intros pre t w Hs Hnd Hkeyed.
  - exists [], t, w. cbn [JsMap.values JsMap.keys map forOfAcc rev app].
    rewrite !app_nil_r.
    split; [reflexivity|]. split; [now rewrite app_nil_r in Hs|].
    split; [reflexivity|]. split; [constructor|].
    split; [reflexivity|]. split; [reflexivity|].
    split; [reflexivity|]. split; [reflexivity|].
    unfold countOf; cbn. repeat split; lia.
  - inversion Hkeyed as [|? ? Hk Hkeyed0]; subst.
    unfold keyed in Hk. cbn in Hk. subst k.
    assert (Hfresh : ~ In (Service.id s) (JsMap.keys pre)).
    { unfold JsMap.keys in *. rewrite map_app in Hnd. cbn in Hnd.
      apply NoDup_remove_2 in Hnd. intro Hin. apply Hnd.
      apply in_or_app. now left. }
    assert (Hget : JsMap.get String.eqb (Service.id s) (services w) = Some s)
      by (rewrite Hs; now apply get_app_fresh).
    set (result := checkResult s w).
    set (s' := Service.updateHealthStatus result
                 (clock (S (S (S (clockReads w))))) s).
    destruct (IH (pre ++ [(Service.id s, s')])
                (HealthService.count (hc_status result)
                   (freshDetail s result) t)
                (checkedWorld s w))
      as (rest0' & t' & w' & Hrun & Hs' & Hk' & Hkeyed' & Hreq & Hev & Hd
          & Hi & Hh & Hu & Hg & Hn & Hsw).
    { cbn [services checkedWorld]. fold result. fold s'. rewrite Hs.
      rewrite set_app_fresh by exact Hfresh. now rewrite <- app_assoc. }
    { rewrite <- app_assoc. unfold JsMap.keys in *.
      rewrite !map_app in *. exact Hnd. }
    { exact Hkeyed0. }
    destruct (count_fields (hc_status result) (freshDetail s result) t)
      as (Cd & Ch & Cu & Cg & Cn).
    cbn zeta in Cd, Ch, Cu, Cg, Cn.
    exists ((Service.id s, s') :: rest0'), t', w'.
    split.
    { cbn [JsMap.values map forOfAcc]. unfold bind at 1. unfold bind at 1.
      rewrite (checkServiceHealth_found _ s w Hget). fold result.
      unfold ret at 1. exact Hrun. }
    split; [rewrite Hs', <- app_assoc; reflexivity|].
    split.
    { change (JsMap.keys ((Service.id s, s') :: rest0'))
        with (Service.id s :: JsMap.keys rest0').
      now rewrite Hk'. }
    split; [constructor; [reflexivity|exact Hkeyed']|].
    split.
    { rewrite Hreq. cbn [requests checkedWorld JsMap.values map rev].
      now rewrite <- app_assoc. }
    split; [rewrite Hev; reflexivity|].
    assert (Hst : Service.status s' = hc_status result) by reflexivity.
    change (map Service.status (JsMap.values ((Service.id s, s') :: rest0')))
      with ([Service.status s'] ++ map Service.status (JsMap.values rest0')).
    change (JsMap.keys ((Service.id s, s) :: rest0))
      with ([Service.id s] ++ JsMap.keys rest0).
    rewrite !countOf_app, Hst.
    split; [rewrite Hd, Cd, map_app, <- app_assoc; reflexivity|].
    split; [rewrite Hi, Cd, map_app, <- app_assoc; reflexivity|].
    split; [lia|]. split; [lia|]. split; [lia|]. split; [lia|].
    cbn [app JsMap.values map sweptStatuses]. f_equal. exact Hsw.
Qed.

(** Check-all on a directory with distinct keys. *)
Lemma sweep_run (w : World) :
  wellKeyed w ->
  exists a w',
    HealthService.checkAllServices w = (Ok a, w')
    /\ JsMap.keys (services w') = JsMap.keys (services w)
    /\ wellKeyed w'
    /\ requests w'
       = rev (map healthRequest (JsMap.values (services w))) ++ requests w
    /\ recentEvents w' = recentEvents w
    /\ map d_status (agg_details a)
       = map Service.status (JsMap.values (services w'))
    /\ map d_serviceId (agg_details a) = JsMap.keys (services w)
    /\ agg_services a
       = countsOf (Z.of_nat (List.length (services w)))
           (map d_status (agg_details a))
    /\ agg_status a
       = spec_overallStatus (Z.of_nat (List.length (services w)))
           (countOf HEALTHY (map d_status (agg_details a)))
           (countOf DEGRADED (map d_status (agg_details a)))
           (countOf UNHEALTHY (map d_status (agg_details a)))
    /\ map d_status (agg_details a)
       = sweptStatuses (JsMap.values (services w))
           (List.length (requests w)).
Proof.
  intros [Hk Hnd].
  destruct (sweep_loop (services w) [] HealthService.tally0 w eq_refl Hnd Hk)
    as (rest' & t' & w' & Hrun & Hs' & Hk' & Hkeyed' & Hreq & Hev & Hd & Hi
        & Hh & Hu & Hg & Hn & Hsw).
  cbn [app] in Hs'.
  unfold HealthService.checkAllServices.
  unfold bind at 1. unfold Repo.findAll at 1, gets.
  unfold bind at 1.
  match goal with
  | |- context [forOfAcc ?items ?body ?t0] =>
      change (forOfAcc items body t0)
        with (forOfAcc items
                (fun service acc =>
                   healthResult <-
                     HealthService.checkServiceHealth (Service.id service) ;;
                   ret (HealthService.count (hc_status healthResult)
                          (freshDetail service healthResult) acc)) t0)
  end.
  rewrite Hrun. unfold bind, now, ret.
  eexists _, _. split; [reflexivity|].
  unfold wellKeyed.
  cbn [services tick requests recentEvents agg_details agg_services
         agg_status].
  cbn in Hd, Hi, Hh, Hu, Hg, Hn.
  rewrite Hs'.
  split; [exact Hk'|].
  split; [split; [exact Hkeyed'|rewrite Hk'; exact Hnd]|].
  split; [exact Hreq|]. split; [exact Hev|].
  split; [exact Hd|]. split; [exact Hi|].
  unfold JsMap.values at 1 2. rewrite length_map.
  split.
  { unfold HealthService.counts, countsOf. now rewrite Hd, Hh, Hu, Hg, Hn. }
  split.
  { rewrite overallStatus_spec. now rewrite Hd, Hh, Hu, Hg. }
  rewrite Hd. exact Hsw.
Qed.

(** The cached-only summary, from the stored statuses. *)
Lemma fold_countCached_ids (items : list Service.t)
  (t : HealthService.Tally) :
  map d_serviceId (HealthService.t_details (fold_left countCached items t))
  = map d_serviceId (HealthService.t_details t) ++ map Service.id items.
Proof.
  revert t. induction items as [|x rest IH]; intros t; cbn [fold_left map].
  - now rewrite app_nil_r.
  - rewrite IH.
    destruct (count_fields (Service.status x) (cachedDetail x) t)
      as (Cd & _).
    cbn zeta in Cd. unfold countCached at 1. rewrite Cd.
    rewrite map_app, <- app_assoc. reflexivity.
Qed.

Lemma cached_run (w : World) :
  exists a,
    HealthService.getAggregatedHealth w = (Ok a, tick w)
    /\ map d_serviceId (agg_details a)
       = map Service.id (JsMap.values (services w))
    /\ map d_status (agg_details a)
       = map Service.status (JsMap.values (services w))
    /\ agg_services a
       = countsOf (Z.of_nat (List.length (services w)))
           (map Service.status (JsMap.values (services w)))
    /\ agg_status a
       = spec_overallStatus (Z.of_nat (List.length (services w)))
           (countOf HEALTHY (map Service.status (JsMap.values (services w))))
           (countOf DEGRADED (map Service.status (JsMap.values (services w))))
           (countOf UNHEALTHY
              (map Service.status (JsMap.values (services w)))).
Proof.
  unfold HealthService.getAggregatedHealth.
  unfold bind at 1. unfold Repo.findAll at 1, gets.
  unfold bind at 1.
  match goal with
  | |- context [forOfAcc ?items ?body ?t0] =>
      change (forOfAcc items body t0)
        with (forOfAcc items
                (fun service acc => ret (countCached acc service)) t0)
  end.
  rewrite (cached_loop (JsMap.values (services w)) HealthService.tally0 w).
  destruct (fold_countCached (JsMap.values (services w))
              HealthService.tally0) as (Hd & Hh & Hu & Hg & Hk).
  pose proof (fold_countCached_ids (JsMap.values (services w))
                HealthService.tally0) as Hi.
  unfold bind, now, ret.
  eexists. split; [reflexivity|].
  cbn [agg_details agg_services agg_status].
  cbn in Hh, Hu, Hg, Hk, Hd, Hi.
  split; [exact Hi|].
  replace (Z.of_nat (List.length (JsMap.values (services w))))
    with (Z.of_nat (List.length (services w)))
    by (unfold JsMap.values; now rewrite length_map).
  split; [exact Hd|]. split.
  - unfold HealthService.counts, countsOf. now rewrite Hh, Hu, Hg, Hk.
  - rewrite overallStatus_spec. now rewrite Hh, Hu, Hg.
Qed.

End SweepFacts.

(** C2. Overall-status aggregation: both the fresh check-all summary and
    the cached-only summary report, over the [N] services of the directory,
    how many count as healthy, unhealthy, degraded and unknown, and both
    derive the overall status from these counts in the same way: unhealthy
    iff [u = N] and [N > 0]; else degraded iff [u > 0] or [d > 0]; else
    healthy iff [h > 0]; else unknown.  In a well-keyed directory the
    statuses that check-all counts are, entry by entry and in the order of
    the directory, the classifications of the answers to the health
    requests that it sends, one to every entry, and they are the statuses
    stored when it returns.  The cached-only summary counts the stored
    statuses, entry by entry, and issues no request. *)
Theorem overall_status_aggregation (P : Platform) (w : World) :
  let N := Z.of_nat (List.length (services w)) in
  (exists a w',
      HealthService.checkAllServices w = (Ok a, w')
      /\ let statuses := map d_status (agg_details a) in
         agg_services a
         = {| total := N;
              healthy := countOf HEALTHY statuses;
              unhealthy := countOf UNHEALTHY statuses;
              degraded := countOf DEGRADED statuses;
              unknown := countOf UNKNOWN statuses |}
         /\ Z.of_nat (List.length statuses) = N
         /\ agg_status a
            = spec_overallStatus N (countOf HEALTHY statuses)
                (countOf DEGRADED statuses) (countOf UNHEALTHY statuses)
         /\ (wellKeyed w ->
             statuses
             = sweptStatuses (JsMap.values (services w))
                 (List.length (requests w))
             /\ statuses = map Service.status (JsMap.values (services w'))
             /\ map d_serviceId (agg_details a) = JsMap.keys (services w)
             /\ requests w'
                = (rev (map healthRequest (JsMap.values (services w)))
                     ++ requests w)%list))
  /\ (exists a,
        HealthService.getAggregatedHealth w = (Ok a, tick w)
        /\ let statuses :=
             map Service.status (JsMap.values (services w)) in
           agg_services a
           = {| total := N;
                healthy := countOf HEALTHY statuses;
                unhealthy := countOf UNHEALTHY statuses;
                degraded := countOf DEGRADED statuses;
                unknown := countOf UNKNOWN statuses |}
           /\ map d_status (agg_details a) = statuses
           /\ map d_serviceId (agg_details a)
              = map Service.id (JsMap.values (services w))
           /\ agg_status a
              = spec_overallStatus N (countOf HEALTHY statuses)
                  (countOf DEGRADED statuses) (countOf UNHEALTHY statuses)).
Proof.
  intros N. split.
  - assert (Hfree :
              exists a w',
                HealthService.checkAllServices w = (Ok a, w')
                /\ agg_services a
                   = countsOf N (map d_status (agg_details a))
                /\ Z.of_nat (List.length (map d_status (agg_details a))) = N
                /\ agg_status a
                   = spec_overallStatus N
                       (countOf HEALTHY (map d_status (agg_details a)))
                       (countOf DEGRADED (map d_status (agg_details a)))
                       (countOf UNHEALTHY (map d_status (agg_details a)))).
    { unfold HealthService.checkAllServices.
      unfold bind at 1. unfold Repo.findAll at 1, gets.
      set (body := fun (service : Service.t) (t : HealthService.Tally) => _).
      destruct (forOfAcc_count (JsMap.values (services w)) body) with
        (t := HealthService.tally0) (w := w)
        as (t' & w' & details & Hrun & Hlen & Hd & Hh & Hu & Hg & Hk).
      { intros x t w0. unfold body.
        destruct (checkServiceHealth_total (Service.id x) w0)
          as (result & w1 & Hr).
        eexists
          {| d_serviceId := _; d_serviceName := _;
             d_status := hc_status result;
             d_lastCheck := _; d_responseTimeMs := _; d_error := _ |}, w1.
        unfold bind. rewrite Hr. reflexivity. }
      unfold bind at 1. rewrite Hrun. unfold bind, now, ret.
      eexists _, _. split; [reflexivity|].
      cbn [agg_details agg_services agg_status HealthService.tally0
             HealthService.t_details HealthService.t_healthy] in *.
      cbn [app] in Hd. rewrite Hd.
      unfold N, JsMap.values in *. rewrite length_map in *.
      split.
      { unfold HealthService.counts, countsOf. cbn in Hh, Hu, Hg, Hk.
        now rewrite Hh, Hu, Hg, Hk. }
      split.
      { rewrite length_map, Hlen. reflexivity. }
      rewrite overallStatus_spec. cbn in Hh, Hu, Hg, Hk.
      now rewrite Hh, Hu, Hg. }
    destruct Hfree as (a & w' & Hrun & Hc & Hlen & Hs).
    exists a, w'. split; [exact Hrun|]. cbn zeta.
    split; [exact Hc|]. split; [exact Hlen|]. split; [exact Hs|].
    intros Hwf.
    destruct (sweep_run w Hwf)
      as (a0 & w0 & Hrun0 & _ & _ & Hreq & _ & Hst & Hids & _ & _ & Hsw).
    rewrite Hrun in Hrun0. injection Hrun0 as <- <-.
    split; [exact Hsw|]. split; [exact Hst|]. split; [exact Hids|exact Hreq].
  - destruct (cached_run w) as (a & Hrun & Hids & Hd & Hc & Hs).
    exists a. split; [exact Hrun|].
    cbn zeta. split; [exact Hc|]. split; [exact Hd|].
    split; [exact Hids|exact Hs].
Qed.

Lemma overall_status_aggregation_witness :
  exists a w',
    HealthService.checkAllServices (P := betaDown) Scenario.threeAgents
    = (Ok a, w')
    /\ map d_status (agg_details a) = [HEALTHY; UNHEALTHY; HEALTHY]
    /\ agg_services a
       = {| total := 3; healthy := 2; unhealthy := 1; degraded := 0;
            unknown := 0 |}
    /\ agg_status a = DEGRADED
    /\ map Service.status (JsMap.values (services w'))
       = [HEALTHY; UNHEALTHY; HEALTHY].
Proof.
  destruct (overall_status_aggregation betaDown Scenario.threeAgents)
    as [(a & w' & Hrun & Hc & _ & Hs & Htie) _].
  destruct (Htie wellKeyed_threeAgents) as (Hsw & Hst & _).
  exists a, w'. split; [exact Hrun|].
  rewrite <- Hst, Hc, Hs, Hsw.
  split; [reflexivity|]. split; [reflexivity|]. split; reflexivity.
Defined.

(** ** The gateway *)

Section GatewayFacts.
Context {P : Platform}.

Lemma isAvailable_status (s : Service.t) :
  Service.isAvailable s = true
  <-> Service.status s = HEALTHY \/ Service.status s = DEGRADED.
Proof.
  unfold Service.isAvailable, Service.status.
  destruct (Service._status s); cbn; intuition discriminate.
Qed.

Lemma isAvailable_false_status (s : Service.t) :
  Service.isAvailable s = false
  <-> In (Service.status s) [UNHEALTHY; STARTING; STOPPING; UNKNOWN].
Proof.
  unfold Service.isAvailable, Service.status.
  destruct (Service._status s); cbn; intuition discriminate.
Qed.

Lemma proxy_absent (request : ProxyRequest) (w : World) :
  JsMap.get String.eqb (pr_serviceId request) (services w) = None ->
  exists message,
    GatewayService.proxy request w
    = (Throw (DomainError NOT_FOUND message 404), w).
Proof.
  intros Hget. unfold GatewayService.proxy.
  unfold bind at 1. unfold Repo.findById at 1, gets. rewrite Hget.
  eexists. reflexivity.
Qed.

Lemma proxy_unavailable (request : ProxyRequest) (s : Service.t)
  (w : World) :
  JsMap.get String.eqb (pr_serviceId request) (services w) = Some s ->
  Service.isAvailable s = false ->
  exists message,
    GatewayService.proxy request w
    = (Throw (DomainError SERVICE_UNAVAILABLE message 503), w).
Proof.
  intros Hget Hav. unfold GatewayService.proxy.
  unfold bind at 1. unfold Repo.findById at 1, gets. rewrite Hget.
  unfold bind at 1. unfold lift at 1. cbn [Guard.throwIfNull].
  rewrite Hav. eexists. reflexivity.
Qed.

(** Past the gate, [proxy] fails neither with [NOT_FOUND] nor with
    [SERVICE_UNAVAILABLE]; and once the address is built the request goes
    out to it, with the method of the caller. *)
Lemma proxy_available (request : ProxyRequest) (s : Service.t) (w : World) :
  JsMap.get String.eqb (pr_serviceId request) (services w) = Some s ->
  Service.isAvailable s = true ->
  match fst (GatewayService.proxy request w) with
  | Ok _ => True
  | Throw e =>
      Errors.codeOf e <> Some NOT_FOUND
      /\ Errors.codeOf e <> Some SERVICE_UNAVAILABLE
  end
  /\ match destination request (Service.baseUrl s) with
     | Some address =>
         exists sent,
           requests (snd (GatewayService.proxy request w))
           = sent :: requests w
           /\ fr_url sent = address
           /\ fr_method sent = pr_method request
     | None =>
         GatewayService.proxy request w
         = (Throw (JsError "TypeError" "Invalid URL"), w)
     end.
Proof.
  intros Hget Hav. unfold destination.
  remember (GatewayService.proxy request w) as res eqn:Hres.
  unfold GatewayService.proxy in Hres.
  unfold bind at 1 in Hres. unfold Repo.findById at 1, gets in Hres.
  rewrite Hget in Hres.
  unfold bind at 1 in Hres. unfold lift at 1 in Hres.
  cbn [Guard.throwIfNull] in Hres.
  rewrite Hav in Hres. cbn [negb] in Hres.
  unfold bind at 1 in Hres. unfold newURL in Hres.
  destruct (URL_new (pr_path request) (Some (Service.baseUrl s))) as [url|].
  2: { cbn in Hres. subst res. split; [split; discriminate|reflexivity]. }
  unfold ret at 1 in Hres.
  unfold bind at 1 in Hres. unfold now at 1 in Hres.
  unfold tryCatch in Hres. unfold bind at 1 in Hres. unfold doFetch in Hres.
  destruct (fetch _ _) as [r|name message].
  - unfold bind at 1 in Hres. unfold now at 1 in Hres.
    unfold bind at 1 in Hres.
    destruct (Js.lookup "content-type" (resp_headers r)) as [ct|];
      [destruct (GatewayService.includes "application/json" ct);
       [destruct (resp_json r) as [?|bn ?]|destruct (resp_text r) as [?|bn ?]]
      |destruct (resp_text r) as [?|bn ?]];
      cbn in Hres; try destruct (String.eqb bn "AbortError");
      cbn in Hres; subst res; cbn [fst snd];
      (split; [try exact I; split; discriminate|]);
      eexists; repeat split; reflexivity.
  - cbn in Hres. destruct (String.eqb name "AbortError");
      cbn in Hres; subst res; cbn [fst snd];
      (split; [split; discriminate|]); eexists; repeat split; reflexivity.
Qed.

End GatewayFacts.

(** ** Broadcast *)

Lemma lookup_get {V : Type} (k : string) (m : list (string * V)) :
  Js.lookup k m = JsMap.get String.eqb k m.
Proof.
  induction m as [|[k' v] r IH]; [reflexivity|].
  cbn. now rewrite IH.
Qed.

Section ForwardFacts.
Context {P : Platform}.

(** What [proxy] does past the gate, once the address is built. *)
Lemma proxy_forward (request : ProxyRequest) (s : Service.t)
  (address : string) (w : World) :
  JsMap.get String.eqb (pr_serviceId request) (services w) = Some s ->
  Service.isAvailable s = true ->
  destination request (Service.baseUrl s) = Some address ->
  let sent := outbound request address in
  let n := clockReads w in
  GatewayService.proxy request w
  = match fetch (List.length (requests w)) sent with
    | Rejected name message =>
        (Throw (if String.eqb name "AbortError"
                then Errors.gatewayTimeout (pr_serviceId request)
                else JsError name message),
         afterCall sent 1 (services w) w)
    | Responded r =>
        match relayedBody r with
        | Ok body =>
            (Ok {| prx_status := resp_status r;
                   prx_headers := GatewayService.assign (resp_headers r) [];
                   prx_body := body;
                   prx_responseTimeMs := clock (S n) - clock n |},
             afterCall sent 3
               (JsMap.set String.eqb (Service.id s)
                  (Service.touch (clock (S (S n))) s) (services w)) w)
        | Throw e =>
            (Throw (if Errors.isAbortError e
                    then Errors.gatewayTimeout (pr_serviceId request)
                    else e),
             afterCall sent 2 (services w) w)
        end
    end.
Proof.
  intros Hget Hav Hdest sent n. unfold destination in Hdest.
  unfold GatewayService.proxy.
  unfold bind at 1. unfold Repo.findById at 1, gets. rewrite Hget.
  unfold bind at 1. unfold lift at 1. cbn [Guard.throwIfNull].
  rewrite Hav. cbn [negb].
  unfold bind at 1. unfold newURL.
  destruct (URL_new (pr_path request) (Some (Service.baseUrl s))) as [url|];
    [|discriminate].
  injection Hdest as Hdest.
  unfold ret at 1.
  unfold bind at 1. unfold now at 1.
  unfold tryCatch. unfold bind at 1. unfold doFetch.
  rewrite Hdest. fold (outbound request address). fold sent.
  cbn [requests tick].
  destruct (fetch (List.length (requests w)) sent) as [r|name message].
  - unfold bind at 1. unfold now at 1.
    unfold bind at 1. unfold relayedBody, textBody.
    destruct (Js.lookup "content-type" (resp_headers r)) as [ct|];
      [destruct (GatewayService.includes "application/json" ct);
       [destruct (resp_json r) as [?|bn ?]|destruct (resp_text r) as [?|bn ?]]
      |destruct (resp_text r) as [?|bn ?]];
      cbn [reading];
      try (unfold lift, bind, Errors.isAbortError;
           destruct (String.eqb bn "AbortError"));
      reflexivity.
  - cbn. destruct (String.eqb name "AbortError"); reflexivity.
Qed.

End ForwardFacts.

Section StageFacts.
Context {P : Platform}.

(** [proxy] up to the call of [fetch]. *)
Lemma proxySend_found (request : ProxyRequest) (s : Service.t) (w : World) :
  JsMap.get String.eqb (pr_serviceId request) (services w) = Some s ->
  Service.isAvailable s = true ->
  GatewayService.proxySend request w
  = match destination request (Service.baseUrl s) with
    | Some address =>
        (Ok {| GatewayService.sent_service := s;
               GatewayService.sent_startTime := clock (clockReads w);
               GatewayService.sent_outcome :=
                 fetch (List.length (requests w))
                   (outbound request address) |},
         log_request (outbound request address) (tick w))
    | None => (Throw (JsError "TypeError" "Invalid URL"), w)
    end.
Proof.
  intros Hget Hav. unfold destination, GatewayService.proxySend.
  unfold bind at 1. unfold Repo.findById at 1, gets. rewrite Hget.
  unfold bind at 1. unfold lift at 1. cbn [Guard.throwIfNull].
  rewrite Hav. cbn [negb].
  unfold bind at 1. unfold newURL.
  destruct (URL_new (pr_path request) (Some (Service.baseUrl s))) as [url|];
    [|reflexivity].
  reflexivity.
Qed.

Lemma proxySend_cases (request : ProxyRequest) (w : World) :
  match GatewayService.proxySend request w with
  | (Throw e, w') => w' = w
  | (Ok sent, w') =>
      exists address,
        JsMap.get String.eqb (pr_serviceId request) (services w)
        = Some (GatewayService.sent_service sent)
        /\ Service.isAvailable (GatewayService.sent_service sent) = true
        /\ destination request
             (Service.baseUrl (GatewayService.sent_service sent))
           = Some address
        /\ w' = log_request (outbound request address) (tick w)
  end.
Proof.
  destruct (JsMap.get String.eqb (pr_serviceId request) (services w))
    as [s|] eqn:Hget.
  - destruct (Service.isAvailable s) eqn:Hav.
    + rewrite (proxySend_found request s w Hget Hav).
      destruct (destination request (Service.baseUrl s)) as [address|] eqn:Hd;
        [|reflexivity].
      exists address. cbn [GatewayService.sent_service]. now rewrite Hd.
    + unfold GatewayService.proxySend.
      unfold bind at 1. unfold Repo.findById at 1, gets. rewrite Hget.
      unfold bind at 1. unfold lift at 1. cbn [Guard.throwIfNull].
      rewrite Hav. reflexivity.
  - unfold GatewayService.proxySend.
    unfold bind at 1. unfold Repo.findById at 1, gets. rewrite Hget.
    reflexivity.
Qed.

(** [proxy] from the answer of [fetch] to the reading of the body. *)
Lemma proxyAnswered_run (request : ProxyRequest)
  (sent : GatewayService.Sent) (w : World) :
  GatewayService.proxyAnswered request sent w
  = match GatewayService.sent_outcome sent with
    | Responded r =>
        (Ok {| GatewayService.ans_service :=
                 GatewayService.sent_service sent;
               GatewayService.ans_response := r;
               GatewayService.ans_responseTimeMs :=
                 clock (clockReads w)
                 - GatewayService.sent_startTime sent |}, tick w)
    | Rejected name message =>
        (Throw (rethrown (pr_serviceId request) (JsError name message)), w)
    end.
Proof.
  unfold GatewayService.proxyAnswered, tryCatch, bind, settled, rethrown,
    GatewayService.rethrow.
  destruct (GatewayService.sent_outcome sent) as [r|name message];
    [reflexivity|].
  cbn. destruct (String.eqb name "AbortError"); reflexivity.
Qed.

(** [proxy] from the body to its end. *)
Lemma proxyReturn_run (request : ProxyRequest)
  (answered : GatewayService.Answered) (w : World) :
  GatewayService.proxyReturn request answered w
  = match relayedBody (GatewayService.ans_response answered) with
    | Ok body =>
        (Ok {| prx_status :=
                 resp_status (GatewayService.ans_response answered);
               prx_headers :=
                 GatewayService.assign
                   (resp_headers (GatewayService.ans_response answered)) [];
               prx_body := body;
               prx_responseTimeMs :=
                 GatewayService.ans_responseTimeMs answered |},
         set_services
           (JsMap.set String.eqb
              (Service.id (GatewayService.ans_service answered))
              (Service.touch (clock (clockReads w))
                 (GatewayService.ans_service answered)))
           (tick w))
    | Throw e => (Throw (rethrown (pr_serviceId request) e), w)
    end.
Proof.
  unfold GatewayService.proxyReturn, relayedBody, textBody, rethrown,
    GatewayService.rethrow.
  cbn zeta. unfold tryCatch. unfold bind at 1.
  destruct (Js.lookup "content-type"
              (resp_headers (GatewayService.ans_response answered)))
    as [ct|];
    [destruct (GatewayService.includes "application/json" ct)|];
    [destruct (resp_json (GatewayService.ans_response answered))
       as [v|bn bm]
    |destruct (resp_text (GatewayService.ans_response answered))
       as [v|bn bm]
    |destruct (resp_text (GatewayService.ans_response answered))
       as [v|bn bm]];
    cbn [reading];
    try (unfold lift, bind, Errors.isAbortError;
         destruct (String.eqb bn "AbortError"));
    reflexivity.
Qed.

(** A call of [proxy] that runs alone is its three parts, one after the
    other. *)
Lemma proxy_stages (request : ProxyRequest) (w : World) :
  GatewayService.proxy request w
  = (sent <- GatewayService.proxySend request ;;
     answered <- GatewayService.proxyAnswered request sent ;;
     GatewayService.proxyReturn request answered) w.
Proof.
  destruct (JsMap.get String.eqb (pr_serviceId request) (services w))
    as [s|] eqn:Hget.
  - destruct (Service.isAvailable s) eqn:Hav.
    + unfold bind at 1. rewrite (proxySend_found request s w Hget Hav).
      destruct (destination request (Service.baseUrl s)) as [address|] eqn:Hd.
      * rewrite (proxy_forward request s address w Hget Hav Hd).
        cbn zeta. unfold bind at 1. rewrite proxyAnswered_run.
        cbn [GatewayService.sent_outcome GatewayService.sent_service
             GatewayService.sent_startTime].
        destruct (fetch (List.length (requests w))
                    (outbound request address)) as [r|name message];
          [|reflexivity].
        rewrite proxyReturn_run.
        cbn [GatewayService.ans_response GatewayService.ans_service
             GatewayService.ans_responseTimeMs].
        destruct (relayedBody r) as [body|e]; reflexivity.
      * destruct (proxy_available request s w Hget Hav) as [_ Hn].
        rewrite Hd in Hn. exact Hn.
    + transitivity
        (@Throw ProxyResponse
           (Errors.serviceUnavailable (pr_serviceId request)), w);
        [|symmetry];
        [ unfold GatewayService.proxy
        | unfold bind at 1; unfold GatewayService.proxySend ];
        (unfold bind at 1; unfold Repo.findById at 1, gets; rewrite Hget;
         unfold bind at 1; unfold lift at 1; cbn [Guard.throwIfNull];
         rewrite Hav; reflexivity).
  - transitivity
      ((service <- lift (Guard.throwIfNull (@None Service.t)
                           (pr_serviceId request)) ;;
        @throw ProxyResponse (Errors.serviceUnavailable (Service.id service)))
         w);
      [|symmetry];
      [ unfold GatewayService.proxy
      | unfold bind at 1; unfold GatewayService.proxySend ];
      (unfold bind at 1; unfold Repo.findById at 1, gets; rewrite Hget;
       reflexivity).
Qed.

End StageFacts.

Section TargetFacts.
Context {P : Platform}.

Lemma findByType_targets (serviceType : string) (w : World) :
  filter Service.isAvailable
    (filter
       (fun s => String.eqb (ServiceType_value (Service.type s)) serviceType)
       (JsMap.values (services w)))
  = targetsOf serviceType w.
Proof.
  unfold targetsOf. induction (JsMap.values (services w)) as [|s r IH];
    [reflexivity|].
  cbn [filter].
  destruct (String.eqb (ServiceType_value (Service.type s)) serviceType);
    cbn [filter andb]; [|exact IH].
  unfold Service.isAvailable at 1. unfold Service.status.
  destruct (_ || _); now rewrite IH.
Qed.

Lemma targetsOf_selected (serviceType : string) (w : World) (s : Service.t) :
  In s (targetsOf serviceType w)
  <-> In s (JsMap.values (services w)) /\ selected serviceType s.
Proof.
  unfold targetsOf, selected. rewrite filter_In, andb_true_iff.
  rewrite String.eqb_eq.
  change (ServiceStatus_eqb (Service.status s) HEALTHY
          || ServiceStatus_eqb (Service.status s) DEGRADED)
    with (Service.isAvailable s).
  rewrite isAvailable_status. tauto.
Qed.

End TargetFacts.


(** ** Broadcast: the legs *)

Section LegFacts.
Context {P : Platform}.
Variable message : JsValue.

Lemma legStart_run (service : Service.t)
  (results : JsMap.t string JsValue) (w : World) :
  GatewayService.legStart message service results w
  = (Ok (fst (started message service results w)),
     snd (started message service results w)).
Proof.
  unfold GatewayService.legStart, started, tryCatch, bind,
    GatewayService.legFailed, ret.
  destruct (GatewayService.proxySend _ w) as [[sent|e] w']; reflexivity.
Qed.

Lemma legResume_run (service : Service.t) (leg : GatewayService.Leg)
  (results : JsMap.t string JsValue) (w : World) :
  GatewayService.legResume message service leg results w
  = (Ok (fst (resumed service leg results w)),
     snd (resumed service leg results w)).
Proof.
  destruct leg as [sent|answered|]; cbn [GatewayService.legResume resumed];
    [| |reflexivity].
  - unfold tryCatch, bind. rewrite proxyAnswered_run.
    cbn [GatewayService.broadcastRequest pr_serviceId].
    destruct (GatewayService.sent_outcome sent); reflexivity.
  - unfold tryCatch, bind. rewrite proxyReturn_run.
    cbn [GatewayService.broadcastRequest pr_serviceId].
    destruct (relayedBody (GatewayService.ans_response answered));
      reflexivity.
Qed.

(** Two waits are all that a leg has. *)
Lemma resumed_twice (service : Service.t) (leg : GatewayService.Leg)
  (results : JsMap.t string JsValue) (w : World) :
  fst (fst (resumed service
              (fst (fst (resumed service leg results w)))
              (snd (fst (resumed service leg results w)))
              (snd (resumed service leg results w))))
  = GatewayService.Settled.
Proof.
  destruct leg as [sent|answered|]; cbn [resumed]; [| |reflexivity].
  - destruct (GatewayService.sent_outcome sent) as [r|name text];
      cbn [fst snd resumed GatewayService.ans_response]; [|reflexivity].
    destruct (relayedBody r); reflexivity.
  - destruct (relayedBody (GatewayService.ans_response answered));
      reflexivity.
Qed.

(** *** What holds of the legs all along

    [kept] stands for a property of the legs, of [results] and of the
    world that every step of a leg keeps. *)

Section Kept.
Variable kept :
  list (Service.t * GatewayService.Leg) -> JsMap.t string JsValue
  -> World -> Prop.

Hypothesis resumed_kept :
  forall pre service leg post results w,
    kept (pre ++ (service, leg) :: post) results w ->
    kept (pre ++ (service, fst (fst (resumed service leg results w))) :: post)
      (snd (fst (resumed service leg results w)))
      (snd (resumed service leg results w)).

Lemma resumeLeg_kept (legs : list (Service.t * GatewayService.Leg)) :
  forall position pre results w,
    kept (pre ++ legs) results w ->
    exists legs' results' w',
      GatewayService.resumeLeg message position legs results w
      = (Ok (legs', results'), w')
      /\ map fst legs' = map fst legs
      /\ kept (pre ++ legs') results' w'.
Proof.
  induction legs as [|[service leg] rest IH]; intros position pre results w Hk.
  - exists [], results, w. now repeat split.
  - destruct position as [|position]; cbn [GatewayService.resumeLeg].
    + unfold bind. rewrite legResume_run. unfold ret. cbn [fst snd].
      eexists _, _, _. split; [reflexivity|]. split; [reflexivity|].
      now apply resumed_kept.
    + destruct (IH position (pre ++ [(service, leg)]) results w)
        as (legs' & results' & w' & Hrun & Hfst & Hk').
      { now rewrite <- app_assoc. }
      unfold bind. rewrite Hrun. unfold ret. cbn [fst snd].
      eexists _, _, _. split; [reflexivity|].
      split; [cbn [map fst]; now rewrite Hfst|].
      now rewrite <- app_assoc in Hk'.
Qed.

Lemma arrivals_kept (order : list nat) :
  forall legs results w,
    kept legs results w ->
    exists legs' results' w',
      forOfAcc order
        (fun position (pool : GatewayService.Pool) =>
           GatewayService.resumeLeg message position (fst pool) (snd pool))
        (legs, results) w
      = (Ok (legs', results'), w')
      /\ map fst legs' = map fst legs
      /\ kept legs' results' w'.
Proof.
  induction order as [|position rest IH]; intros legs results w Hk.
  - exists legs, results, w. now repeat split.
  - cbn [forOfAcc]. unfold bind at 1. cbn [fst snd].
    destruct (resumeLeg_kept legs position [] results w Hk)
      as (legs1 & results1 & w1 & Hrun & Hfst & Hk1).
    rewrite Hrun. cbn [app] in Hk1.
    destruct (IH legs1 results1 w1 Hk1)
      as (legs' & results' & w' & Hrun' & Hfst' & Hk').
    exists legs', results', w'. split; [exact Hrun'|].
    split; [congruence|exact Hk'].
Qed.

Lemma finishLegs_kept (legs : list (Service.t * GatewayService.Leg)) :
  forall pre results w,
    kept (pre ++ legs) results w ->
    exists legs' results' w',
      GatewayService.finishLegs message legs results w
      = (Ok (legs', results'), w')
      /\ map fst legs' = map fst legs
      /\ allSettled legs'
      /\ kept (pre ++ legs') results' w'.
Proof.
  induction legs as [|[service leg] rest IH]; intros pre results w Hk.
  - exists [], results, w. repeat split; [constructor|exact Hk].
  - cbn [GatewayService.finishLegs].
    unfold bind at 1. rewrite legResume_run. cbn [fst snd].
    unfold bind at 1. rewrite legResume_run. cbn [fst snd].
    pose proof (resumed_twice service leg results w) as Hend.
    apply resumed_kept in Hk. apply resumed_kept in Hk.
    rewrite Hend in Hk.
    set (r1 := resumed service leg results w) in *.
    set (r2 := resumed service (fst (fst r1)) (snd (fst r1)) (snd r1)) in *.
    destruct (IH (pre ++ [(service, GatewayService.Settled)])
                (snd (fst r2)) (snd r2))
      as (legs' & results' & w' & Hrun & Hfst & Hall & Hk').
    { now rewrite <- app_assoc. }
    unfold bind. rewrite Hrun. unfold ret. cbn [fst snd].
    rewrite Hend.
    eexists _, _, _. split; [reflexivity|].
    split; [cbn [map fst]; now rewrite Hfst|].
    split; [constructor; [reflexivity|exact Hall]|].
    now rewrite <- app_assoc in Hk'.
Qed.

(** No leg rejects, so [Promise.all] resolves, and it does when every
    leg has settled. *)
Lemma promiseAll_kept (order : list nat)
  (legs : list (Service.t * GatewayService.Leg))
  (results : JsMap.t string JsValue) (w : World) :
  kept legs results w ->
  exists legs' results' w',
    GatewayService.promiseAll message order (legs, results) w
    = (Ok (legs', results'), w')
    /\ map fst legs' = map fst legs
    /\ allSettled legs'
    /\ kept legs' results' w'.
Proof.
  intros Hk. unfold GatewayService.promiseAll. unfold bind.
  destruct (arrivals_kept order legs results w Hk)
    as (legs1 & results1 & w1 & Hrun & Hfst & Hk1).
  unfold GatewayService.Pool in *. rewrite Hrun. cbn [fst snd].
  destruct (finishLegs_kept legs1 [] results1 w1 Hk1)
    as (legs' & results' & w' & Hrun' & Hfst' & Hall & Hk').
  exists legs', results', w'. split; [exact Hrun'|].
  split; [congruence|]. split; [exact Hall|exact Hk'].
Qed.

(** The start of the legs of [all], one after the other. *)
Variable all : list Service.t.

Hypothesis started_kept :
  forall done service rest results w,
    map fst done ++ service :: rest = all ->
    kept done results w ->
    kept (done ++ [(service, fst (fst (started message service results w)))])
      (snd (fst (started message service results w)))
      (snd (started message service results w)).

Lemma startLegs_kept (targets : list Service.t) :
  forall done results w,
    map fst done ++ targets = all ->
    kept done results w ->
    exists legs results' w',
      GatewayService.startLegs message targets results w
      = (Ok (legs, results'), w')
      /\ map fst legs = targets
      /\ kept (done ++ legs) results' w'.
Proof.
  induction targets as [|service rest IH]; intros done results w Hall Hk.
  - exists [], results, w. rewrite app_nil_r. now repeat split.
  - cbn [GatewayService.startLegs].
    unfold bind at 1. rewrite legStart_run. cbn [fst snd].
    pose proof (started_kept done service rest results w Hall Hk) as Hk1.
    set (r := started message service results w) in *.
    destruct (IH (done ++ [(service, fst (fst r))]) (snd (fst r)) (snd r))
      as (legs & results' & w' & Hrun & Hfst & Hk').
    { rewrite map_app, <- app_assoc. exact Hall. }
    { exact Hk1. }
    unfold bind. rewrite Hrun. unfold ret. cbn [fst snd].
    eexists _, _, _. split; [reflexivity|].
    split; [cbn [map fst]; now rewrite Hfst|].
    now rewrite <- app_assoc in Hk'.
Qed.

(** [broadcast], from the selection of the targets to its return. *)
Lemma broadcastLegs_kept (serviceType : string) (w : World) :
  all = targetsOf serviceType w ->
  kept [] [] w ->
  exists legs results w',
    GatewayService.broadcastLegs serviceType message w
    = (Ok (legs, results), w')
    /\ GatewayService.broadcast serviceType message w = (Ok results, w')
    /\ map fst legs = all
    /\ allSettled legs
    /\ kept legs results w'.
Proof.
  intros Hall Hk.
  destruct (startLegs_kept all [] [] w eq_refl Hk)
    as (legs0 & results0 & w0 & Hstart & Hfst0 & Hk0).
  cbn [app] in Hk0.
  destruct (promiseAll_kept (arrival (List.length (requests w)))
              legs0 results0 w0 Hk0)
    as (legs & results & w' & Hrun & Hfst & Hsettled & Hk').
  assert (Hlegs : GatewayService.broadcastLegs serviceType message w
                  = (Ok (legs, results), w')).
  { unfold GatewayService.broadcastLegs.
    unfold bind at 1. unfold Repo.findByType at 1, gets.
    unfold bind at 1. rewrite findByType_targets, <- Hall.
    unfold bind at 1. rewrite Hstart. exact Hrun. }
  exists legs, results, w'. split; [exact Hlegs|].
  split.
  { unfold GatewayService.broadcast, bind. now rewrite Hlegs. }
  split; [congruence|]. split; assumption.
Qed.

End Kept.

End LegFacts.


(** ** Broadcast: the identifiers in the result *)

Section ResultFacts.
Context {P : Platform}.
Variable message : JsValue.

(** A step of a leg either leaves [results] alone, or settles the leg and
    sets the entry of its target. *)
Lemma resumed_shape (service : Service.t) (leg : GatewayService.Leg)
  (results : JsMap.t string JsValue) (w : World) :
  (fst (fst (resumed service leg results w)) = leg
   /\ leg = GatewayService.Settled
   /\ snd (fst (resumed service leg results w)) = results)
  \/ (leg <> GatewayService.Settled
      /\ fst (fst (resumed service leg results w)) <> GatewayService.Settled
      /\ snd (fst (resumed service leg results w)) = results)
  \/ (leg <> GatewayService.Settled
      /\ fst (fst (resumed service leg results w)) = GatewayService.Settled
      /\ exists v,
           snd (fst (resumed service leg results w))
           = JsMap.set String.eqb (Service.id service) v results).
Proof.
  destruct leg as [sent|answered|]; cbn [resumed].
  - destruct (GatewayService.sent_outcome sent) as [r|name text];
      cbn [fst snd]; right; [left|right]; repeat split; try discriminate.
    eexists; reflexivity.
  - destruct (relayedBody (GatewayService.ans_response answered));
      cbn [fst snd]; right; right; repeat split; try discriminate;
      eexists; reflexivity.
  - left. now repeat split.
Qed.

Lemma started_shape (service : Service.t)
  (results : JsMap.t string JsValue) (w : World) :
  (fst (fst (started message service results w)) <> GatewayService.Settled
   /\ snd (fst (started message service results w)) = results)
  \/ (fst (fst (started message service results w)) = GatewayService.Settled
      /\ exists v,
           snd (fst (started message service results w))
           = JsMap.set String.eqb (Service.id service) v results).
Proof.
  unfold started.
  destruct (GatewayService.proxySend _ w) as [[sent|e] w']; cbn [fst snd].
  - left. split; [discriminate|reflexivity].
  - right. split; [reflexivity|]. eexists; reflexivity.
Qed.

Lemma in_legs (x y : Service.t * GatewayService.Leg)
  (pre post : list (Service.t * GatewayService.Leg)) :
  In x (pre ++ y :: post) <-> In x pre \/ x = y \/ In x post.
Proof.
  rewrite in_app_iff. cbn [In]. intuition congruence.
Qed.

Lemma settledKeys_on (pre post : list (Service.t * GatewayService.Leg))
  (service : Service.t) (leg leg' : GatewayService.Leg)
  (results : JsMap.t string JsValue) :
  leg <> GatewayService.Settled -> leg' <> GatewayService.Settled ->
  settledKeys (pre ++ (service, leg) :: post) results ->
  settledKeys (pre ++ (service, leg') :: post) results.
Proof.
  intros Hl Hl' Hk k. rewrite (Hk k).
  split; intros (s & Hin & Hid); exists s; (split; [|exact Hid]);
    apply in_legs in Hin; apply in_legs;
    destruct Hin as [Hin|[[= -> Heq]|Hin]]; auto; congruence.
Qed.

Lemma settledKeys_end (pre post : list (Service.t * GatewayService.Leg))
  (service : Service.t) (leg : GatewayService.Leg) (v : JsValue)
  (results : JsMap.t string JsValue) :
  leg <> GatewayService.Settled ->
  settledKeys (pre ++ (service, leg) :: post) results ->
  settledKeys (pre ++ (service, GatewayService.Settled) :: post)
    (JsMap.set String.eqb (Service.id service) v results).
Proof.
  intros Hl Hk k. rewrite keys_set, (Hk k). split.
  - intros [->|(s & Hin & Hid)].
    + exists service. split; [|reflexivity]. apply in_legs. auto.
    + exists s. split; [|exact Hid]. apply in_legs in Hin. apply in_legs.
      destruct Hin as [Hin|[[= -> Heq]|Hin]]; auto; congruence.
  - intros (s & Hin & Hid). apply in_legs in Hin.
    destruct Hin as [Hin|[[= ->]|Hin]]; [right|now left|right];
      exists s; (split; [|exact Hid]); apply in_legs; auto.
Qed.

Lemma settledKeys_resumed :
  forall pre service leg post results (w : World),
    settledKeys (pre ++ (service, leg) :: post) results ->
    settledKeys
      (pre ++ (service, fst (fst (resumed service leg results w))) :: post)
      (snd (fst (resumed service leg results w))).
Proof.
  intros pre service leg post results w Hk.
  destruct (resumed_shape service leg results w)
    as [(-> & _ & ->)|[(Hl & Hl' & ->)|(Hl & -> & v & ->)]].
  - exact Hk.
  - exact (settledKeys_on pre post service leg _ results Hl Hl' Hk).
  - exact (settledKeys_end pre post service leg v results Hl Hk).
Qed.

Lemma settledKeys_started :
  forall done service results (w : World),
    settledKeys done results ->
    settledKeys
      (done ++ [(service, fst (fst (started message service results w)))])
      (snd (fst (started message service results w))).
Proof.
  intros done service results w Hk.
  destruct (started_shape service results w) as [(Hl & ->)|(-> & v & ->)].
  - intros k. rewrite (Hk k).
    split; intros (s & Hin & Hid); exists s; (split; [|exact Hid]).
    + apply in_or_app. now left.
    + apply in_app_or in Hin. destruct Hin as [Hin|[[= -> Heq]|[]]]; auto.
      congruence.
  - intros k. rewrite keys_set, (Hk k). split.
    + intros [->|(s & Hin & Hid)].
      * exists service. split; [|reflexivity]. apply in_or_app. right.
        now left.
      * exists s. split; [|exact Hid]. apply in_or_app. now left.
    + intros (s & Hin & Hid). apply in_app_or in Hin.
      destruct Hin as [Hin|[[= ->]|[]]]; [right|now left].
      now exists s.
Qed.

(** The identifiers in the result of a broadcast are those of its
    targets, whatever the order in which the legs settle. *)
Lemma broadcast_keys (serviceType : string) (w : World) :
  exists results w',
    GatewayService.broadcast serviceType message w = (Ok results, w')
    /\ forall k,
         In k (JsMap.keys results)
         <-> In k (map Service.id (targetsOf serviceType w)).
Proof.
  destruct (broadcastLegs_kept message
              (fun legs results _ => settledKeys legs results)
              (fun pre service leg post results w =>
                 settledKeys_resumed pre service leg post results w)
              (targetsOf serviceType w)
              (fun done service rest results w _ =>
                 settledKeys_started done service results w)
              serviceType w eq_refl)
    as (legs & results & w' & _ & Hrun & Hfst & Hall & Hk).
  { intros k. cbn. split; [tauto|]. intros (s & [] & _). }
  exists results, w'. split; [exact Hrun|].
  intros k. rewrite (Hk k), <- Hfst, in_map_iff.
  unfold allSettled in Hall. rewrite Forall_forall in Hall.
  split.
  - intros (s & Hin & Hid). exists s. split; [exact Hid|].
    apply in_map_iff. now exists (s, GatewayService.Settled).
  - intros (s & Hid & Hin). exists s. split; [|exact Hid].
    apply in_map_iff in Hin. destruct Hin as ([s' leg] & Heq & Hin).
    cbn in Heq. subst s'. pose proof (Hall _ Hin) as Hl. cbn in Hl.
    now subst leg.
Qed.

End ResultFacts.


(** ** Broadcast: what it leaves alone *)

Section QuietFacts.
Context {P : Platform}.
Variable message : JsValue.

Lemma key_of_stored (w : World) (k : string) (s : Service.t) :
  wellKeyed w ->
  JsMap.get String.eqb k (services w) = Some s ->
  In (Service.id s) (JsMap.keys (services w)).
Proof.
  intros Hwf Hget. rewrite (wellKeyed_get w k s Hwf Hget).
  apply get_in in Hget. now apply (in_map fst) in Hget.
Qed.

Lemma quietRun_resumed (w0 : World) :
  forall pre service leg post results w,
    quietRun w0 (pre ++ (service, leg) :: post) results w ->
    quietRun w0
      (pre ++ (service, fst (fst (resumed service leg results w))) :: post)
      (snd (fst (resumed service leg results w)))
      (snd (resumed service leg results w)).
Proof.
  intros pre service leg post results w
    (Hwf & Hkeys & Hev & Hh & Ha & Hi & Hheld).
  assert (Hothers :
            forall leg' w',
              JsMap.keys (services w') = JsMap.keys (services w) ->
              (forall held, heldBy leg' = Some held ->
                            heldBy leg = Some held) ->
              forall s l held,
                In (s, l) (pre ++ (service, leg') :: post) ->
                heldBy l = Some held ->
                In (Service.id held) (JsMap.keys (services w'))).
  { intros leg' w' Hk Hsame s l held Hin Hl. rewrite Hk.
    apply in_legs in Hin. destruct Hin as [Hin|[[= -> ->]|Hin]].
    - apply (Hheld s l held); [apply in_legs; auto|exact Hl].
    - apply (Hheld service leg held); [apply in_legs; auto|auto].
    - apply (Hheld s l held); [apply in_legs; auto|exact Hl]. }
  destruct leg as [sent|answered|]; cbn [resumed].
  - destruct (GatewayService.sent_outcome sent) as [r|name text];
      cbn [fst snd].
    + split; [now apply (wellKeyed_frame w)|].
      split; [exact Hkeys|]. split; [exact Hev|]. split; [exact Hh|].
      split; [exact Ha|]. split; [exact Hi|].
      apply Hothers; [reflexivity|]. cbn. now intros held [= <-].
    + split; [exact Hwf|].
      split; [exact Hkeys|]. split; [exact Hev|]. split; [exact Hh|].
      split; [exact Ha|]. split; [exact Hi|].
      apply Hothers; [reflexivity|discriminate].
  - destruct (relayedBody (GatewayService.ans_response answered));
      cbn [fst snd].
    + assert (Hin : In (Service.id (GatewayService.ans_service answered))
                      (JsMap.keys (services w))).
      { apply (Hheld service (GatewayService.AwaitsBody answered));
          [apply in_legs; auto|reflexivity]. }
      assert (Hk : JsMap.keys
                     (JsMap.set String.eqb
                        (Service.id (GatewayService.ans_service answered))
                        (Service.touch (clock (clockReads w))
                           (GatewayService.ans_service answered))
                        (services w))
                   = JsMap.keys (services w))
        by now apply keys_set_present.
      split.
      { eapply (wellKeyed_write w _
                  (Service.touch (clock (clockReads w))
                     (GatewayService.ans_service answered)));
          [reflexivity|exact Hwf]. }
      split; [cbn [services set_services tick]; now rewrite Hk|].
      split; [exact Hev|]. split; [exact Hh|].
      split; [exact Ha|]. split; [exact Hi|].
      apply Hothers; [exact Hk|discriminate].
    + split; [exact Hwf|].
      split; [exact Hkeys|]. split; [exact Hev|]. split; [exact Hh|].
      split; [exact Ha|]. split; [exact Hi|].
      apply Hothers; [reflexivity|discriminate].
  - split; [exact Hwf|].
    split; [exact Hkeys|]. split; [exact Hev|]. split; [exact Hh|].
    split; [exact Ha|]. split; [exact Hi|]. exact Hheld.
Qed.

Lemma quietRun_started (w0 : World) :
  forall done service results w,
    quietRun w0 done results w ->
    quietRun w0
      (done ++ [(service, fst (fst (started message service results w)))])
      (snd (fst (started message service results w)))
      (snd (started message service results w)).
Proof.
  intros done service results w (Hwf & Hkeys & Hev & Hh & Ha & Hi & Hheld).
  unfold started.
  pose proof (proxySend_cases
                (GatewayService.broadcastRequest service message) w) as Hc.
  destruct (GatewayService.proxySend _ w) as [[sent|e] w']; cbn [fst snd].
  - destruct Hc as (address & Hget & _ & _ & ->).
    split; [now apply (wellKeyed_frame w)|].
    split; [exact Hkeys|]. split; [exact Hev|]. split; [exact Hh|].
    split; [exact Ha|]. split; [exact Hi|].
    intros s l held Hin Hl. apply in_app_or in Hin.
    destruct Hin as [Hin|[[= -> <-]|[]]].
    + exact (Hheld s l held Hin Hl).
    + cbn in Hl. injection Hl as <-.
      exact (key_of_stored w _ _ Hwf Hget).
  - subst w'. split; [exact Hwf|].
    split; [exact Hkeys|]. split; [exact Hev|]. split; [exact Hh|].
    split; [exact Ha|]. split; [exact Hi|].
    intros s l held Hin Hl. apply in_app_or in Hin.
    destruct Hin as [Hin|[[= -> <-]|[]]]; [|discriminate Hl].
    exact (Hheld s l held Hin Hl).
Qed.

(** A broadcast keeps the directory well keyed and its identifiers, and
    does not touch the event bus. *)
Lemma broadcast_quiet (serviceType : string) (w : World) :
  wellKeyed w ->
  let w' := snd (GatewayService.broadcast serviceType message w) in
  wellKeyed w'
  /\ JsMap.keys (services w') = JsMap.keys (services w)
  /\ recentEvents w' = recentEvents w
  /\ handlers w' = handlers w
  /\ allHandlers w' = allHandlers w
  /\ invocations w' = invocations w.
Proof.
  intros Hwf.
  destruct (broadcastLegs_kept message (quietRun w)
              (quietRun_resumed w)
              (targetsOf serviceType w)
              (fun done service rest results w1 _ =>
                 quietRun_started w done service results w1)
              serviceType w eq_refl)
    as (legs & results & w' & _ & Hrun & _ & _ & Hq).
  { split; [exact Hwf|]. repeat split. intros s l held []. }
  cbn zeta. rewrite Hrun. cbn [snd].
  destruct Hq as (Hwf' & Hkeys & Hev & Hh & Ha & Hi & _).
  split; [exact Hwf'|]. now repeat split.
Qed.

End QuietFacts.


(** ** Broadcast: every leg by itself *)

Lemma Forall2_middle {A B : Type} (R : A -> B -> Prop) (l : list A)
  (pre post : list B) (x : B) :
  Forall2 R l (pre ++ x :: post) ->
  exists lpre a lpost,
    l = lpre ++ a :: lpost
    /\ Forall2 R lpre pre /\ R a x /\ Forall2 R lpost post.
Proof.
  intros H. apply Forall2_app_inv_r in H.
  destruct H as (lpre & l2 & Hpre & H2 & ->).
  inversion H2 as [|a b lpost ? Hx Hpost]; subst.
  now exists lpre, a, lpost.
Qed.

Lemma Forall2_among {A B : Type} (R R' : A -> B -> Prop) (l : list A)
  (l' : list B) :
  (forall a b, In b l' -> R a b -> R' a b) ->
  Forall2 R l l' -> Forall2 R' l l'.
Proof.
  intros Himp H. induction H as [|a b l l' Hab _ IH]; constructor.
  - apply Himp; [now left|exact Hab].
  - apply IH. intros a0 b0 Hin. apply Himp. now right.
Qed.

Lemma apart_in_middle {A : Type} (f : A -> string) (pre post : list A)
  (x y : A) :
  NoDup (map f (pre ++ x :: post)) -> In y pre \/ In y post -> f y <> f x.
Proof.
  rewrite map_app. cbn [map]. intros Hnd Hin Heq.
  apply NoDup_remove_2 in Hnd. apply Hnd. rewrite <- Heq.
  apply in_or_app. destruct Hin as [Hin|Hin]; [left|right];
    now apply in_map.
Qed.

Lemma apart_in_app {A : Type} (f : A -> string) (front back : list A)
  (x y : A) :
  NoDup (map f (front ++ back)) -> In x front -> In y back -> f y <> f x.
Proof.
  induction front as [|a r IH]; intros Hnd Hx Hy; [destruct Hx|].
  cbn in Hnd. inversion Hnd as [|? ? Hfresh Hnd']; subst.
  destruct Hx as [->|Hx]; [|now apply IH].
  intros Heq. apply Hfresh. rewrite <- Heq. apply in_map, in_or_app.
  now right.
Qed.

Lemma in_get {V : Type} (k : string) (v : V) (m : JsMap.t string V) :
  NoDup (JsMap.keys m) -> In (k, v) m ->
  JsMap.get String.eqb k m = Some v.
Proof.
  induction m as [|[k0 v0] r IH]; intros Hnd Hin; [destruct Hin|].
  cbn in Hnd. inversion Hnd as [|? ? Hfresh Hnd']; subst.
  cbn [JsMap.get]. destruct Hin as [[= -> ->]|Hin].
  - now rewrite String.eqb_refl.
  - destruct (String.eqb_spec k0 k) as [->|_]; [|now apply IH].
    exfalso. apply Hfresh. now apply (in_map fst) in Hin.
Qed.

Lemma keys_of_get {V : Type} (k : string) (v : V) (m : JsMap.t string V) :
  JsMap.get String.eqb k m = Some v -> In k (JsMap.keys m).
Proof.
  intros Hget. apply get_in in Hget. now apply (in_map fst) in Hget.
Qed.

Lemma fresh_key_distinct {V : Type} (k : string) (v : V)
  (m : JsMap.t string V) :
  JsMap.get String.eqb k m = None ->
  NoDup (JsMap.keys m) ->
  NoDup (JsMap.keys (JsMap.set String.eqb k v m)).
Proof.
  intros Hget Hnd. apply get_none_keys in Hget.
  rewrite set_absent by exact Hget.
  unfold JsMap.keys in *. rewrite map_app. cbn.
  apply NoDup_app; [exact Hnd|repeat constructor; tauto|].
  intros a Ha [<-|[]]. contradiction.
Qed.

Section TraceFacts.
Context {P : Platform}.
Variable message : JsValue.

Lemma legRequests_app (l : list Service.t) (s : Service.t) :
  legRequests message (l ++ [s])
  = legRequests message l
    ++ match legAddress message s with
       | Some address => [legRequest message s address]
       | None => []
       end.
Proof.
  induction l as [|x r IH]; cbn [app legRequests].
  - destruct (legAddress message s); [reflexivity|reflexivity].
  - rewrite IH. now destruct (legAddress message x).
Qed.

Lemma fates_app (l : list Service.t) (s : Service.t) :
  forall n,
    fates message (l ++ [s]) n
    = fates message l n
      ++ [fateOf message s (n + List.length (legRequests message l))].
Proof.
  induction l as [|x r IH]; intros n; cbn [app fates legRequests].
  - cbn. now rewrite Nat.add_0_r.
  - rewrite IH. destruct (legAddress message x); cbn [List.length].
    + now rewrite Nat.add_succ_comm.
    + reflexivity.
Qed.

Lemma map_fst_middle (pre post : list (Service.t * GatewayService.Leg))
  (service : Service.t) (leg leg' : GatewayService.Leg) :
  map fst (pre ++ (service, leg') :: post)
  = map fst (pre ++ (service, leg) :: post).
Proof. now rewrite !map_app. Qed.

(** What does not concern the identifier [k] leaves the other legs where
    they are. *)
Lemma legKept_stable (reads : nat) (w w' : World)
  (results results' : JsMap.t string JsValue) (k : string)
  (fate : option FetchOutcome) (l : Service.t * GatewayService.Leg) :
  Service.id (fst l) <> k ->
  (forall k', k' <> k ->
     JsMap.get String.eqb k' results' = JsMap.get String.eqb k' results) ->
  (forall k', k' <> k ->
     JsMap.get String.eqb k' (services w')
     = JsMap.get String.eqb k' (services w)) ->
  (clockReads w <= clockReads w')%nat ->
  legKept reads w results fate l -> legKept reads w' results' fate l.
Proof.
  intros Hne Hr Hs Hc. destruct l as [s leg]. cbn [fst] in Hne.
  unfold legKept. cbn [fst snd].
  destruct leg as [sent|answered|].
  - rewrite (Hr _ Hne), (Hs _ Hne). tauto.
  - rewrite (Hr _ Hne), (Hs _ Hne). tauto.
  - rewrite (Hr _ Hne). unfold seenSince.
    destruct (succeeded fate); rewrite (Hs _ Hne); [|tauto].
    intros [He (n & Hn & Hg)]. split; [exact He|].
    exists n. split; [lia|exact Hg].
Qed.

Variable all : list Service.t.
Variable sent0 : list FetchRequest.
Variable reads : nat.
Hypothesis all_distinct : NoDup (map Service.id all).
Hypothesis all_available :
  forall s, In s all -> Service.isAvailable s = true.

Lemma tracedRun_resumed :
  forall pre service leg post results w,
    tracedRun message all sent0 reads
      (pre ++ (service, leg) :: post) results w ->
    tracedRun message all sent0 reads
      (pre ++ (service, fst (fst (resumed service leg results w))) :: post)
      (snd (fst (resumed service leg results w)))
      (snd (resumed service leg results w)).
Proof.
  intros pre service leg post results w
    ((rest & Hall & Hrest) & Hlegs & Hnd & Hkeys & Hreq & Hreads).
  assert (Hids : NoDup (map Service.id
                          (map fst (pre ++ (service, leg) :: post)))).
  { rewrite <- Hall, map_app in all_distinct.
    now apply NoDup_app_remove_r in all_distinct. }
  assert (Hapart : forall l, In l pre \/ In l post ->
                             Service.id (fst l) <> Service.id service).
  { intros l Hin. rewrite map_map in Hids.
    exact (apart_in_middle (fun l => Service.id (fst l)) pre post
             (service, leg) l Hids Hin). }
  assert (Hrest_apart : forall s, In s rest ->
                                  Service.id s <> Service.id service).
  { intros s Hin. rewrite <- Hall in all_distinct.
    apply (apart_in_app Service.id _ rest service s all_distinct);
      [|exact Hin].
    apply in_map_iff. exists (service, leg). split; [reflexivity|].
    apply in_legs. auto. }
  assert (Hself : In (Service.id service)
                    (map Service.id
                       (map fst (pre ++ (service, leg) :: post)))).
  { apply in_map, in_map_iff. exists (service, leg).
    split; [reflexivity|]. apply in_legs. auto. }
  destruct (Forall2_middle _ _ _ _ _ Hlegs)
    as (opre & fate & opost & Hfates & Hpre & Hleg & Hpost).
  (* the legs beside the one that goes on *)
  assert (Hbeside :
            forall leg' results' w',
              (forall k', k' <> Service.id service ->
                 JsMap.get String.eqb k' results'
                 = JsMap.get String.eqb k' results) ->
              (forall k', k' <> Service.id service ->
                 JsMap.get String.eqb k' (services w')
                 = JsMap.get String.eqb k' (services w)) ->
              (clockReads w <= clockReads w')%nat ->
              legKept reads w' results' fate (service, leg') ->
              Forall2 (legKept reads w' results')
                (fates message
                   (map fst (pre ++ (service, leg') :: post))
                   (List.length sent0))
                (pre ++ (service, leg') :: post)).
  { intros leg' results' w' Hr Hs Hc Hnew.
    rewrite (map_fst_middle pre post service leg leg'), Hfates.
    apply Forall2_app; [|constructor; [exact Hnew|]].
    - apply (Forall2_among (legKept reads w results)); [|exact Hpre].
      intros a b Hin. apply (legKept_stable reads w w' results results'
                               (Service.id service)); auto.
    - apply (Forall2_among (legKept reads w results)); [|exact Hpost].
      intros a b Hin. apply (legKept_stable reads w w' results results'
                               (Service.id service)); auto. }
  assert (Hrest' :
            forall leg' results' w',
              (forall k', k' <> Service.id service ->
                 JsMap.get String.eqb k' results'
                 = JsMap.get String.eqb k' results) ->
              (forall k', k' <> Service.id service ->
                 JsMap.get String.eqb k' (services w')
                 = JsMap.get String.eqb k' (services w)) ->
              exists rest0,
                map fst (pre ++ (service, leg') :: post) ++ rest0 = all
                /\ forall s, In s rest0 ->
                     JsMap.get String.eqb (Service.id s) (services w')
                     = Some s
                     /\ JsMap.get String.eqb (Service.id s) results' = None).
  { intros leg' results' w' Hr Hs. exists rest.
    rewrite (map_fst_middle pre post service leg leg').
    split; [exact Hall|]. intros s Hin.
    rewrite (Hr _ (Hrest_apart s Hin)), (Hs _ (Hrest_apart s Hin)).
    exact (Hrest s Hin). }
  assert (Hset :
            forall v k',
              k' <> Service.id service ->
              JsMap.get String.eqb k'
                (JsMap.set String.eqb (Service.id service) v results)
              = JsMap.get String.eqb k' results).
  { intros v k' Hne. apply get_set_other. congruence. }
  assert (Hkeys' :
            forall leg' v k,
              In k (JsMap.keys
                      (JsMap.set String.eqb (Service.id service) v results))
              -> In k (map Service.id
                         (map fst (pre ++ (service, leg') :: post)))).
  { intros leg' v k Hin.
    rewrite (map_fst_middle pre post service leg leg').
    apply keys_set in Hin. destruct Hin as [->|Hin]; auto. }
  unfold legKept in Hleg. cbn [fst snd] in Hleg.
  destruct leg as [sent|answered|]; cbn [resumed].
  - destruct Hleg as (Hf & Hs & Hr & Hg).
    destruct (GatewayService.sent_outcome sent) as [r|name text] eqn:Ho;
      cbn [fst snd].
    + split; [apply Hrest'; auto|].
      split.
      { apply Hbeside; auto; [cbn; lia|].
        unfold legKept. cbn [fst snd GatewayService.ans_response
                               GatewayService.ans_service].
        now repeat split. }
      split; [exact Hnd|].
      split.
      { intros k Hin.
        rewrite (map_fst_middle pre post service
                   (GatewayService.AwaitsAnswer sent)). auto. }
      split; [|cbn; lia].
      rewrite (map_fst_middle pre post service
                 (GatewayService.AwaitsAnswer sent)). exact Hreq.
    + split; [apply Hrest'; auto|].
      split.
      { apply Hbeside; auto.
        unfold legKept. cbn [fst snd]. rewrite get_set_same, Hf.
        split; [reflexivity|].
        unfold seenSince. cbn [succeeded]. exact Hg. }
      split; [now apply fresh_key_distinct|].
      split; [now apply Hkeys'|].
      split; [|exact Hreads].
      rewrite (map_fst_middle pre post service
                 (GatewayService.AwaitsAnswer sent)). exact Hreq.
  - destruct Hleg as (Hf & Hs & Hr & Hg). rewrite Hs.
    destruct (relayedBody (GatewayService.ans_response answered))
      as [body|e] eqn:Hb; cbn [fst snd].
    + assert (Hsv :
                forall k', k' <> Service.id service ->
                  JsMap.get String.eqb k'
                    (services
                       (set_services
                          (JsMap.set String.eqb (Service.id service)
                             (Service.touch (clock (clockReads w)) service))
                          (tick w)))
                  = JsMap.get String.eqb k' (services w)).
      { intros k' Hne. cbn [services set_services tick].
        apply get_set_other. congruence. }
      split; [apply Hrest'; auto|].
      split.
      { apply Hbeside; auto; [cbn; lia|].
        unfold legKept. cbn [fst snd]. rewrite get_set_same, Hf.
        cbn [entryOf]. rewrite Hb. split; [reflexivity|].
        unfold seenSince. cbn [succeeded]. rewrite Hb.
        exists (clockReads w). split; [cbn; lia|].
        cbn [services set_services tick]. apply get_set_same. }
      split; [now apply fresh_key_distinct|].
      split; [now apply Hkeys'|].
      split; [|cbn; lia].
      rewrite (map_fst_middle pre post service
                 (GatewayService.AwaitsBody answered)). exact Hreq.
    + split; [apply Hrest'; auto|].
      split.
      { apply Hbeside; auto.
        unfold legKept. cbn [fst snd]. rewrite get_set_same, Hf.
        cbn [entryOf]. rewrite Hb. split; [reflexivity|].
        unfold seenSince. cbn [succeeded]. rewrite Hb. exact Hg. }
      split; [now apply fresh_key_distinct|].
      split; [now apply Hkeys'|].
      split; [|exact Hreads].
      rewrite (map_fst_middle pre post service
                 (GatewayService.AwaitsBody answered)). exact Hreq.
  - cbn [fst snd].
    split; [now exists rest|].
    split; [exact Hlegs|]. now repeat split.
Qed.

Lemma tracedRun_started :
  forall done service rest results w,
    map fst done ++ service :: rest = all ->
    tracedRun message all sent0 reads done results w ->
    tracedRun message all sent0 reads
      (done ++ [(service, fst (fst (started message service results w)))])
      (snd (fst (started message service results w)))
      (snd (started message service results w)).
Proof.
  intros done service rest results w Hall
    ((rest0 & Hall0 & Hrest) & Hlegs & Hnd & Hkeys & Hreq & Hreads).
  assert (rest0 = service :: rest)
    by (apply (app_inv_head (map fst done)); congruence).
  subst rest0. clear Hall0.
  destruct (Hrest service (or_introl eq_refl)) as [Hget Hfresh].
  assert (Hav : Service.isAvailable service = true).
  { apply all_available. rewrite <- Hall. apply in_or_app. right. now left. }
  assert (Hapart : forall l, In l done ->
                             Service.id (fst l) <> Service.id service).
  { intros l Hin Heq. rewrite <- Hall, map_app in all_distinct.
    cbn [map] in all_distinct. apply NoDup_remove_2 in all_distinct.
    apply all_distinct. rewrite <- Heq. apply in_or_app. left.
    rewrite map_map. now apply (in_map (fun l => Service.id (fst l))). }
  assert (Hrest_apart : forall s, In s rest ->
                                  Service.id s <> Service.id service).
  { intros s Hin Heq. rewrite <- Hall, map_app in all_distinct.
    cbn [map] in all_distinct. apply NoDup_remove_2 in all_distinct.
    apply all_distinct. rewrite <- Heq. apply in_or_app. right.
    now apply in_map. }
  assert (Hprefix : map fst (done ++ [(service,
                                       fst (fst (started message service
                                                   results w)))])
                    = map fst done ++ [service])
    by now rewrite map_app.
  unfold started in *.
  rewrite (proxySend_found (GatewayService.broadcastRequest service message)
             service w Hget Hav) in *.
  fold (legAddress message service) in *.
  unfold tracedRun. rewrite Hprefix, fates_app, legRequests_app.
  unfold fateOf.
  destruct (legAddress message service) as [address|] eqn:Ha;
    cbn [fst snd].
  - split.
    { exists rest. split; [now rewrite <- app_assoc|].
      intros s Hin. exact (Hrest s (or_intror Hin)). }
    split.
    { apply Forall2_app.
      - apply (Forall2_among (legKept reads w results)); [|exact Hlegs].
        intros a b Hin.
        apply (legKept_stable reads w _ results results
                 (Service.id service)); auto; cbn; lia.
      - constructor; [|constructor].
        unfold legKept.
        cbn [fst snd GatewayService.sent_outcome
             GatewayService.sent_service].
        rewrite Hreq, length_app, length_rev, Nat.add_comm.
        now repeat split. }
    split; [exact Hnd|].
    split.
    { intros k Hin. rewrite map_app. apply in_or_app. left. auto. }
    split; [|cbn; lia].
    cbn [requests log_request tick]. rewrite Hreq, rev_app_distr.
    reflexivity.
  - assert (Hset :
              forall k', k' <> Service.id service ->
                JsMap.get String.eqb k'
                  (JsMap.set String.eqb (Service.id service)
                     (GatewayService.errorObject
                        (JsError "TypeError" "Invalid URL")) results)
                = JsMap.get String.eqb k' results).
    { intros k' Hne. apply get_set_other. congruence. }
    split.
    { exists rest. split; [now rewrite <- app_assoc|].
      intros s Hin. rewrite (Hset _ (Hrest_apart s Hin)).
      exact (Hrest s (or_intror Hin)). }
    split.
    { apply Forall2_app.
      - apply (Forall2_among (legKept reads w results)); [|exact Hlegs].
        intros a b Hin.
        apply (legKept_stable reads w w results _ (Service.id service));
          auto.
      - constructor; [|constructor].
        unfold legKept. cbn [fst snd]. rewrite get_set_same.
        split; [reflexivity|exact Hget]. }
    split; [now apply fresh_key_distinct|].
    split.
    { intros k Hin. rewrite map_app. apply keys_set in Hin.
      apply in_or_app. destruct Hin as [->|Hin]; [right; now left|left].
      auto. }
    split; [|exact Hreads].
    now rewrite app_nil_r.
Qed.

End TraceFacts.


(** ** Broadcast: the result *)

Section SettledFacts.
Context {P : Platform}.
Variable message : JsValue.

Lemma targets_distinct (serviceType : string) (w : World) :
  wellKeyed w -> NoDup (map Service.id (targetsOf serviceType w)).
Proof.
  intros Hwf. unfold targetsOf. apply filter_ids_distinct.
  rewrite wellKeyed_ids by exact Hwf. exact (proj2 Hwf).
Qed.

Lemma target_stored (serviceType : string) (w : World) (s : Service.t) :
  wellKeyed w -> In s (targetsOf serviceType w) ->
  JsMap.get String.eqb (Service.id s) (services w) = Some s
  /\ Service.isAvailable s = true.
Proof.
  intros [Hkeyed Hnd] Hin. apply targetsOf_selected in Hin.
  destruct Hin as [Hin [_ Hstatus]]. split.
  - unfold JsMap.values in Hin. apply in_map_iff in Hin.
    destruct Hin as ([k v] & <- & Hin). cbn [snd].
    rewrite Forall_forall in Hkeyed. specialize (Hkeyed _ Hin).
    cbn [fst snd] in Hkeyed. rewrite Hkeyed. now apply in_get.
  - now apply isAvailable_status.
Qed.

Lemma legRequests_post (targets : list Service.t) :
  Forall (fun q => fr_method q = "POST") (legRequests message targets).
Proof.
  induction targets as [|s rest IH]; [constructor|].
  cbn [legRequests]. destruct (legAddress message s); [|exact IH].
  constructor; [reflexivity|exact IH].
Qed.

(** The entry of a leg is the entry of the call of [proxy] for its
    target, run alone from a world that holds the target. *)
Lemma proxy_entry (s : Service.t) (w : World) :
  JsMap.get String.eqb (Service.id s) (services w) = Some s ->
  Service.isAvailable s = true ->
  legEntry
    (fst (GatewayService.proxy
            (GatewayService.broadcastRequest s message) w))
  = entryOf (Service.id s)
      (fateOf message s (List.length (requests w))).
Proof.
  intros Hget Hav. unfold fateOf, legAddress.
  destruct (destination (GatewayService.broadcastRequest s message)
              (Service.baseUrl s)) as [address|] eqn:Hd.
  - rewrite (proxy_forward (GatewayService.broadcastRequest s message)
               s address w Hget Hav Hd).
    cbn zeta. unfold legRequest, entryOf, rethrown.
    destruct (fetch (List.length (requests w))
                (outbound (GatewayService.broadcastRequest s message)
                   address)) as [r|name text].
    + destruct (relayedBody r) as [body|e]; reflexivity.
    + cbn [fst legEntry]. unfold GatewayService.errorObject,
        Errors.isAbortError.
      destruct (String.eqb name "AbortError"); reflexivity.
  - destruct (proxy_available (GatewayService.broadcastRequest s message)
                s w Hget Hav) as [_ Hn].
    rewrite Hd in Hn. rewrite Hn. reflexivity.
Qed.

Lemma settled_entries (reads : nat) (w : World)
  (results : JsMap.t string JsValue) :
  forall legs outcomes,
    allSettled legs ->
    Forall2 (legKept reads w results) outcomes legs ->
    Forall2
      (fun s fate =>
         JsMap.get String.eqb (Service.id s) results
         = Some (entryOf (Service.id s) fate)
         /\ seenSince reads w fate s)
      (map fst legs) outcomes.
Proof.
  intros legs outcomes Hall H.
  induction H as [|fate [s leg] outcomes legs Hk _ IH]; [constructor|].
  inversion Hall as [|? ? Hleg Hrest]; subst. cbn [snd] in Hleg. subst leg.
  cbn [map fst]. constructor; [exact Hk|now apply IH].
Qed.

(** What a broadcast comes to. *)
Lemma broadcast_traced (serviceType : string) (w : World) :
  wellKeyed w ->
  exists legs results w',
    GatewayService.broadcastLegs serviceType message w
    = (Ok (legs, results), w')
    /\ GatewayService.broadcast serviceType message w = (Ok results, w')
    /\ map fst legs = targetsOf serviceType w
    /\ allSettled legs
    /\ requests w'
       = (rev (legRequests message (targetsOf serviceType w))
            ++ requests w)%list
    /\ Permutation (JsMap.keys results)
         (map Service.id (targetsOf serviceType w))
    /\ Forall2
         (fun s fate =>
            JsMap.get String.eqb (Service.id s) results
            = Some (entryOf (Service.id s) fate)
            /\ seenSince (clockReads w) w' fate s)
         (targetsOf serviceType w)
         (fates message (targetsOf serviceType w)
            (List.length (requests w))).
Proof.
  intros Hwf.
  pose proof (targets_distinct serviceType w Hwf) as Hnd.
  assert (Hav : forall s, In s (targetsOf serviceType w) ->
                          Service.isAvailable s = true)
    by (intros s Hin; exact (proj2 (target_stored serviceType w s Hwf Hin))).
  destruct (broadcastLegs_kept message
              (tracedRun message (targetsOf serviceType w) (requests w)
                 (clockReads w))
              (tracedRun_resumed message (targetsOf serviceType w)
                 (requests w) (clockReads w) Hnd)
              (targetsOf serviceType w)
              (tracedRun_started message (targetsOf serviceType w)
                 (requests w) (clockReads w) Hnd Hav)
              serviceType w eq_refl)
    as (legs & results & w' & Hlegs & Hrun & Hfst & Hsettled & Ht).
  { split.
    - exists (targetsOf serviceType w). split; [reflexivity|].
      intros s Hin. split; [|reflexivity].
      exact (proj1 (target_stored serviceType w s Hwf Hin)).
    - split; [constructor|]. split; [constructor|].
      split; [intros k []|]. split; [reflexivity|apply Nat.le_refl]. }
  destruct Ht as (_ & Hkept & Hkeys & Hsub & Hreq & _).
  rewrite Hfst in Hkept, Hsub, Hreq.
  pose proof (settled_entries (clockReads w) w' results legs _ Hsettled Hkept)
    as Hentries.
  rewrite Hfst in Hentries.
  exists legs, results, w'.
  split; [exact Hlegs|]. split; [exact Hrun|]. split; [exact Hfst|].
  split; [exact Hsettled|]. split; [exact Hreq|].
  split; [|exact Hentries].
  apply NoDup_Permutation; [exact Hkeys|exact Hnd|].
  intros k. split; [apply Hsub|].
  intros Hin. apply in_map_iff in Hin. destruct Hin as (s & <- & Hin).
  clear - Hentries Hin.
  induction Hentries as [|s0 fate l l' [Hget _] _ IH]; [destruct Hin|].
  destruct Hin as [->|Hin]; [|now apply IH].
  now apply keys_of_get in Hget.
Qed.

End SettledFacts.

(** C1. Availability gate: a proxy request for an identifier that the
    directory does not hold fails with [NOT_FOUND]; for a service whose
    status is unhealthy, starting, stopping or unknown it fails with
    [SERVICE_UNAVAILABLE]; for a healthy or degraded service it passes the
    gate: it fails with neither of the two, and the request goes out as
    soon as its address is built.  A broadcast over a service type always
    returns, and the identifiers in its result are exactly those of the
    services of that type whose status is healthy or degraded. *)
Theorem availability_gate (P : Platform) (request : ProxyRequest)
  (w : World) :
  match JsMap.get String.eqb (pr_serviceId request) (services w) with
  | None =>
      exists message,
        GatewayService.proxy request w
        = (Throw (DomainError NOT_FOUND message 404), w)
  | Some s =>
      match Service.status s with
      | HEALTHY | DEGRADED =>
          match fst (GatewayService.proxy request w) with
          | Ok _ => True
          | Throw e =>
              Errors.codeOf e <> Some NOT_FOUND
              /\ Errors.codeOf e <> Some SERVICE_UNAVAILABLE
          end
          /\ match destination request (Service.baseUrl s) with
             | Some address =>
                 exists sent,
                   requests (snd (GatewayService.proxy request w))
                   = sent :: requests w
                   /\ fr_url sent = address
                   /\ fr_method sent = pr_method request
             | None =>
                 GatewayService.proxy request w
                 = (Throw (JsError "TypeError" "Invalid URL"), w)
             end
      | UNHEALTHY | STARTING | STOPPING | UNKNOWN =>
          exists message,
            GatewayService.proxy request w
            = (Throw (DomainError SERVICE_UNAVAILABLE message 503), w)
      end
  end
  /\ forall (serviceType : string) (message : JsValue),
     exists results w',
       GatewayService.broadcast serviceType message w = (Ok results, w')
       /\ forall id,
            In id (JsMap.keys results)
            <-> exists s, In s (JsMap.values (services w))
                          /\ Service.id s = id
                          /\ selected serviceType s.
Proof.
  split.
  - destruct (JsMap.get String.eqb (pr_serviceId request) (services w))
      as [s|] eqn:Hget; [|now apply proxy_absent].
    destruct (Service.status s) eqn:Hst;
      try (apply (proxy_unavailable request s w Hget);
           apply isAvailable_false_status; rewrite Hst; cbn; tauto);
      apply (proxy_available request s w Hget);
      apply isAvailable_status; rewrite Hst; tauto.
  - intros serviceType message.
    destruct (broadcast_keys message serviceType w)
      as (results & w' & Hrun & Hkeys).
    exists results, w'. split; [exact Hrun|].
    intros id. rewrite Hkeys, in_map_iff.
    split.
    + intros (s & Hid & Hin). exists s.
      apply targetsOf_selected in Hin. tauto.
    + intros (s & Hin & Hid & Hsel). exists s.
      split; [exact Hid|]. apply targetsOf_selected. tauto.
Qed.

(** C7. Broadcast isolation: a broadcast never fails.  Every selected
    target gets a leg of its own; the requests of the legs, each a POST to
    [/broadcast] of its target, go out in the order of the targets before
    any answer is looked at, and the answers are taken up in whatever
    order the network delivers them.  When the call returns every leg has
    settled, and the result holds one entry for every target and no other,
    under the identifier of the target, the entries standing in an order
    that the network decides: the body of the answer when the call of the
    leg returned, an error object with the message of what it threw
    otherwise, whatever became of the other legs.  The entry is the one
    that [proxy], called alone for that target, leaves for the same
    answer.  A target whose leg returned has had its last-seen time set
    at a reading of the clock made during the broadcast; the other
    targets are stored as they were. *)
Theorem broadcast_isolation (P : Platform) (serviceType : string)
  (message : JsValue) (w : World) :
  wellKeyed w ->
  exists legs results w',
    GatewayService.broadcastLegs serviceType message w
    = (Ok (legs, results), w')
    /\ GatewayService.broadcast serviceType message w = (Ok results, w')
    /\ map fst legs = targetsOf serviceType w
    /\ allSettled legs
    /\ requests w'
       = (rev (legRequests message (targetsOf serviceType w))
            ++ requests w)%list
    /\ Forall (fun q => fr_method q = "POST")
         (legRequests message (targetsOf serviceType w))
    /\ Permutation (JsMap.keys results)
         (map Service.id (targetsOf serviceType w))
    /\ Forall2
         (fun s fate =>
            JsMap.get String.eqb (Service.id s) results
            = Some (entryOf (Service.id s) fate)
            /\ seenSince (clockReads w) w' fate s)
         (targetsOf serviceType w)
         (fates message (targetsOf serviceType w)
            (List.length (requests w)))
    /\ forall s w1,
         JsMap.get String.eqb (Service.id s) (services w1) = Some s ->
         Service.isAvailable s = true ->
         legEntry
           (fst (GatewayService.proxy
                   (GatewayService.broadcastRequest s message) w1))
         = entryOf (Service.id s)
             (fateOf message s (List.length (requests w1))).
Proof.
  intros Hwf.
  destruct (broadcast_traced message serviceType w Hwf)
    as (legs & results & w' & Hlegs & Hrun & Hfst & Hsettled & Hreq
        & Hkeys & Hentries).
  exists legs, results, w'.
  split; [exact Hlegs|]. split; [exact Hrun|]. split; [exact Hfst|].
  split; [exact Hsettled|]. split; [exact Hreq|].
  split; [apply legRequests_post|].
  split; [exact Hkeys|]. split; [exact Hentries|].
  intros s w1. apply proxy_entry.
Qed.

Lemma broadcast_isolation_witness :
  exists legs results w',
    GatewayService.broadcastLegs (P := outOfOrder) "agent" (JObj [])
      Scenario.threeAgents = (Ok (legs, results), w')
    /\ GatewayService.broadcast (P := outOfOrder) "agent" (JObj [])
         Scenario.threeAgents = (Ok results, w')
    /\ map fst legs = targetsOf "agent" Scenario.threeAgents
    /\ allSettled legs
    /\ requests w'
       = (rev (legRequests (P := outOfOrder) (JObj [])
                 (targetsOf "agent" Scenario.threeAgents))
            ++ requests Scenario.threeAgents)%list
    /\ Forall (fun q => fr_method q = "POST")
         (legRequests (P := outOfOrder) (JObj [])
            (targetsOf "agent" Scenario.threeAgents))
    /\ Permutation (JsMap.keys results)
         (map Service.id (targetsOf "agent" Scenario.threeAgents))
    /\ Forall2
         (fun s fate =>
            JsMap.get String.eqb (Service.id s) results
            = Some (entryOf (Service.id s) fate)
            /\ seenSince (P := outOfOrder)
                 (clockReads Scenario.threeAgents) w' fate s)
         (targetsOf "agent" Scenario.threeAgents)
         (fates (P := outOfOrder) (JObj [])
            (targetsOf "agent" Scenario.threeAgents)
            (List.length (requests Scenario.threeAgents)))
    /\ forall s w1,
         JsMap.get String.eqb (Service.id s) (services w1) = Some s ->
         Service.isAvailable s = true ->
         legEntry
           (fst (GatewayService.proxy (P := outOfOrder)
                   (GatewayService.broadcastRequest s (JObj [])) w1))
         = entryOf (Service.id s)
             (fateOf (P := outOfOrder) (JObj []) s
                (List.length (requests w1))).
Proof.
  exact (broadcast_isolation outOfOrder "agent" (JObj [])
           Scenario.threeAgents wellKeyed_threeAgents).
Defined.

(** Three targets, the call to the second one throws: the two others get
    their bodies, the failing one an error object.  The entries stand in
    the order in which the legs settled: that of the targets when the
    answers arrive in order, another one when they do not. *)
Example broadcast_one_leg_throws :
  fst (GatewayService.broadcast (P := betaDown) "agent" (JObj [])
         Scenario.threeAgents)
  = Ok [("alpha", JObj [("status", JStr "ok")]);
        ("beta", JObj [("error", JStr "fetch failed")]);
        ("gamma", JObj [("status", JStr "ok")])]
  /\ fst (GatewayService.broadcast (P := outOfOrder) "agent" (JObj [])
            Scenario.threeAgents)
     = Ok [("beta", JObj [("error", JStr "fetch failed")]);
           ("gamma", JObj [("status", JStr "ok")]);
           ("alpha", JObj [("status", JStr "ok")])].
Proof. split; vm_compute; reflexivity. Qed.

(** ** The registry *)

Section RegistryFacts.
Context {P : Platform}.

Lemma registerService_existing (request : RegisterServiceRequest)
  (existing : Service.t) (w : World) :
  JsMap.get String.eqb
    (RegistryService.generateServiceId (r_name request)) (services w)
  = Some existing ->
  RegistryService.registerService request w
  = (Ok (Service.toSnapshot (refreshed existing (clock (clockReads w)))),
     set_services
       (JsMap.set String.eqb (Service.id existing)
          (refreshed existing (clock (clockReads w))))
       (tick w)).
Proof.
  intros Hget. unfold RegistryService.registerService.
  unfold bind at 1. unfold Repo.findById at 1, gets. rewrite Hget.
  reflexivity.
Qed.

Lemma registerService_invalid (request : RegisterServiceRequest)
  (e : Thrown) (w : World) :
  JsMap.get String.eqb
    (RegistryService.generateServiceId (r_name request)) (services w)
  = None ->
  Service.validate canParse (propsOf request) = Throw e ->
  RegistryService.registerService request w = (Throw e, w).
Proof.
  intros Hget Hv. unfold RegistryService.registerService.
  unfold bind at 1. unfold Repo.findById at 1, gets. rewrite Hget.
  unfold bind at 1. unfold newService. unfold bind at 1. unfold lift.
  fold (propsOf request). now rewrite Hv.
Qed.

Lemma registerService_new (request : RegisterServiceRequest) (w : World) :
  JsMap.get String.eqb
    (RegistryService.generateServiceId (r_name request)) (services w)
  = None ->
  Service.validate canParse (propsOf request) = Ok tt ->
  let service := builtService request w in
  let w2 := savedWorld request w in
  let checked :=
    Service.updateHealthStatus (checkResult service w2)
      (clock (5 + clockReads w)%nat) service in
  exists calls,
    RegistryService.registerService request w
    = (Ok (Service.toSnapshot checked),
       with_history
         (pushed (registeredEvent request (clock (6 + clockReads w)%nat))
            (recentEvents w))
         calls (tick (checkedWorld service w2))).
Proof.
  intros Hget Hv service w2 checked.
  unfold RegistryService.registerService.
  unfold bind at 1. unfold Repo.findById at 1, gets. rewrite Hget.
  unfold bind at 1. unfold newService. unfold bind at 1. unfold lift.
  fold (propsOf request). rewrite Hv.
  unfold bind at 1. unfold now at 1.
  unfold bind at 1. unfold now at 1.
  unfold ret at 1.
  unfold bind at 1. unfold Repo.save at 1, modify.
  change (Service.init (propsOf request) (clock (clockReads w))
            (clock (clockReads (tick w)))) with service.
  change (set_services
            (JsMap.set String.eqb (Service.id service) service)
            (tick (tick w))) with w2.
  assert (Hfound : JsMap.get String.eqb
                     (RegistryService.generateServiceId (r_name request))
                     (services w2) = Some service)
    by apply get_set_same.
  unfold bind at 1. unfold tryCatch at 1. unfold bind at 1.
  rewrite (checkServiceHealth_found _ service w2 Hfound).
  unfold ret at 1.
  unfold bind at 1. unfold now at 1.
  unfold bind at 1.
  destruct (emit_run
              (registeredEvent request (clock (6 + clockReads w)%nat))
              (tick (checkedWorld service w2))) as [calls Hemit].
  exists calls.
  change (clockReads (checkedWorld service w2))
    with (6 + clockReads w)%nat.
  fold (registeredEvent request (clock (6 + clockReads w)%nat)).
  rewrite Hemit.
  unfold bind, RegistryService.current, gets, ret.
  cbn [services with_history tick checkedWorld].
  change (Service.id service)
    with (RegistryService.generateServiceId (r_name request)).
  rewrite get_set_same. reflexivity.
Qed.

End RegistryFacts.

(** C4. Idempotent re-registration: when the identifier derived from the
    name of a registration request is already in the directory,
    [registerService] sets the last-seen time of that entry to the present
    time and returns its snapshot.  The registration time, the name, the
    type, the base address, the health path, the capabilities, the
    metadata, the version, the status and the cached health result of the
    entry are as before, whatever the request says; the other entries, the
    order of the directory, the event history and the network are left
    alone. *)
Theorem idempotent_reregistration (P : Platform)
  (request : RegisterServiceRequest) (existing : Service.t) (w : World) :
  wellKeyed w ->
  JsMap.get String.eqb
    (RegistryService.generateServiceId (r_name request)) (services w)
  = Some existing ->
  let id := RegistryService.generateServiceId (r_name request) in
  let seen := clock (clockReads w) in
  exists w',
    RegistryService.registerService request w
    = (Ok {| Service.snap_id := Service.id existing;
             Service.snap_name := Service.name existing;
             Service.snap_type := Service.type existing;
             Service.snap_baseUrl := Service.baseUrl existing;
             Service.snap_healthEndpoint := Service.healthEndpoint existing;
             Service.snap_capabilities := Service.capabilities existing;
             Service.snap_metadata := Service.metadata existing;
             Service.snap_version := Service.version existing;
             Service.snap_status := Service.status existing;
             Service.snap_registeredAt := Service.registeredAt existing;
             Service.snap_lastSeenAt := seen;
             Service.snap_lastHealthCheck :=
               Service.lastHealthCheck existing |}, w')
    /\ JsMap.get String.eqb id (services w')
       = Some (refreshed existing seen)
    /\ (forall id', id' <> id ->
          JsMap.get String.eqb id' (services w')
          = JsMap.get String.eqb id' (services w))
    /\ JsMap.keys (services w') = JsMap.keys (services w)
    /\ recentEvents w' = recentEvents w
    /\ requests w' = requests w
    /\ invocations w' = invocations w.
Proof.
  intros Hwf Hget id seen.
  pose proof (wellKeyed_get w _ existing Hwf Hget) as Hid.
  eexists. split; [now apply registerService_existing|].
  cbn [services set_services tick recentEvents requests invocations].
  rewrite Hid. fold id. repeat split.
  - apply get_set_same.
  - intros id' Hne. now apply get_set_other.
  - apply keys_set_present. apply get_in in Hget.
    apply (in_map fst) in Hget. exact Hget.
Qed.

Lemma idempotent_reregistration_witness :
  exists snapshot w',
    RegistryService.registerService (P := Scenario.scripted [])
      (Scenario.register " BILLING !!" "http://elsewhere.example/v2")
      Scenario.billingWorld = (Ok snapshot, w')
    /\ Service.snap_baseUrl snapshot = "http://svc.local:3000/api"
    /\ Service.snap_registeredAt snapshot = 1000
    /\ Service.snap_lastSeenAt snapshot = 1007
    /\ requests w' = requests Scenario.billingWorld.
Proof.
  destruct (idempotent_reregistration (Scenario.scripted [])
              (Scenario.register " BILLING !!" "http://elsewhere.example/v2")
              billing Scenario.billingWorld wellKeyed_billingWorld eq_refl)
    as (w' & Hrun & _ & _ & _ & _ & Hreq & _).
  eexists _, w'. split; [exact Hrun|].
  repeat split; [exact Hreq].
Defined.

(** C5. Slug derivation: the identifier under which a registration is
    stored is derived from the name by lower-casing it, replacing every
    maximal run of characters outside [a-z0-9] by one dash, and removing a
    leading and a trailing dash; "Payment Agent" gives "payment-agent" and
    "  Multiple   Spaces!! " gives "multiple-spaces". *)
Theorem slug_derivation (P : Platform) (request : RegisterServiceRequest)
  (w w' : World) (snapshot : Service.Snapshot) :
  wellKeyed w ->
  RegistryService.registerService request w = (Ok snapshot, w') ->
  RegistryService.generateServiceId (r_name request)
  = Slug.spec_slug (r_name request)
  /\ Service.snap_id snapshot = Slug.spec_slug (r_name request)
  /\ (exists s,
        JsMap.get String.eqb (Slug.spec_slug (r_name request)) (services w')
        = Some s
        /\ Service.id s = Slug.spec_slug (r_name request))
  /\ RegistryService.generateServiceId "Payment Agent" = "payment-agent"
  /\ RegistryService.generateServiceId "  Multiple   Spaces!! "
     = "multiple-spaces".
Proof.
  intros Hwf Hrun.
  pose proof (generateServiceId_spec (r_name request)) as Hslug.
  fold (RegistryService.generateServiceId (r_name request)) in Hslug.
  split; [exact Hslug|]. rewrite <- Hslug.
  split; [|split; [|split; reflexivity]].
  - destruct (JsMap.get String.eqb
                (RegistryService.generateServiceId (r_name request))
                (services w)) as [existing|] eqn:Hget.
    + rewrite (registerService_existing request existing w Hget) in Hrun.
      injection Hrun as <- _. exact (wellKeyed_get w _ existing Hwf Hget).
    + destruct (Service.validate canParse (propsOf request)) as [[]|e] eqn:Hv.
      * destruct (registerService_new request w Hget Hv) as [calls Hnew].
        rewrite Hnew in Hrun. injection Hrun as <- _. reflexivity.
      * rewrite (registerService_invalid request e w Hget Hv) in Hrun.
        discriminate.
  - destruct (JsMap.get String.eqb
                (RegistryService.generateServiceId (r_name request))
                (services w)) as [existing|] eqn:Hget.
    + rewrite (registerService_existing request existing w Hget) in Hrun.
      injection Hrun as _ <-.
      pose proof (wellKeyed_get w _ existing Hwf Hget) as Hid.
      eexists. cbn [services set_services tick]. rewrite Hid.
      split; [apply get_set_same|exact Hid].
    + destruct (Service.validate canParse (propsOf request)) as [[]|e] eqn:Hv.
      * destruct (registerService_new request w Hget Hv) as [calls Hnew].
        rewrite Hnew in Hrun. injection Hrun as _ <-.
        eexists. cbn [services with_history tick checkedWorld].
        split; [apply get_set_same|reflexivity].
      * rewrite (registerService_invalid request e w Hget Hv) in Hrun.
        discriminate.
Qed.

Lemma slug_derivation_witness :
  exists snapshot w',
    RegistryService.registerService (P := Scenario.scripted [])
      (Scenario.register "Payment Agent" "http://pay.local") emptyWorld
    = (Ok snapshot, w')
    /\ Service.snap_id snapshot = "payment-agent"
    /\ JsMap.keys (services w') = ["payment-agent"].
Proof.
  assert (Hrun : exists snapshot w',
             RegistryService.registerService (P := Scenario.scripted [])
               (Scenario.register "Payment Agent" "http://pay.local")
               emptyWorld = (Ok snapshot, w')
             /\ JsMap.keys (services w') = ["payment-agent"])
    by (vm_compute; eexists _, _; split; reflexivity).
  destruct Hrun as (snapshot & w' & Hrun & Hkeys).
  exists snapshot, w'. split; [exact Hrun|]. split; [|exact Hkeys].
  destruct (slug_derivation (Scenario.scripted [])
              (Scenario.register "Payment Agent" "http://pay.local")
              emptyWorld w' snapshot wellKeyed_empty Hrun)
    as (_ & Hid & _).
  rewrite Hid. vm_compute. reflexivity.
Defined.

(** C9. Initial health check: a registration whose derived identifier is
    new, and which the constructor of the entity accepts, stores the
    service and performs one active health check of it before it returns:
    exactly one request goes out, the GET to the health address of the new
    service.  Whatever the outcome of that check, the registration
    succeeds: the service is in the directory with the status and the
    result of the check, and its snapshot is returned; in particular a
    rejected call leaves the service registered as unhealthy. *)
Theorem initial_health_check (P : Platform)
  (request : RegisterServiceRequest) (w : World) :
  JsMap.get String.eqb
    (RegistryService.generateServiceId (r_name request)) (services w)
  = None ->
  Service.validate canParse (propsOf request) = Ok tt ->
  let id := RegistryService.generateServiceId (r_name request) in
  let service := builtService request w in
  let outcome :=
    fetch (List.length (requests w)) (healthRequest service) in
  exists snapshot w' stored result,
    RegistryService.registerService request w = (Ok snapshot, w')
    /\ requests w' = healthRequest service :: requests w
    /\ JsMap.get String.eqb id (services w') = Some stored
    /\ snapshot = Service.toSnapshot stored
    /\ Service.id stored = id
    /\ Service.lastHealthCheck stored = Some result
    /\ Service.status stored = hc_status result
    /\ hc_status result = spec_classify outcome
    /\ (forall name message,
          outcome = Rejected name message ->
          Service.snap_status snapshot = UNHEALTHY).
Proof.
  intros Hget Hv id service outcome.
  destruct (registerService_new request w Hget Hv) as [calls Hrun].
  eexists _, _, _, (checkResult service (savedWorld request w)).
  split; [exact Hrun|].
  split; [reflexivity|].
  split; [cbn [services with_history tick checkedWorld]; apply get_set_same|].
  repeat split.
  intros name message Hout.
  change (spec_classify outcome = UNHEALTHY).
  now rewrite Hout.
Qed.

Lemma initial_health_check_witness :
  exists snapshot w',
    RegistryService.registerService
      (P := Scenario.scripted [Rejected "TypeError" "fetch failed"])
      (Scenario.register "Alpha" "http://alpha.local") emptyWorld
    = (Ok snapshot, w')
    /\ Service.snap_status snapshot = UNHEALTHY
    /\ List.length (requests w') = 1%nat
    /\ JsMap.has String.eqb "alpha" (services w') = true.
Proof.
  destruct (initial_health_check
              (Scenario.scripted [Rejected "TypeError" "fetch failed"])
              (Scenario.register "Alpha" "http://alpha.local") emptyWorld
              eq_refl eq_refl)
    as (snapshot & w' & stored & result & Hrun & Hreq & Hstored & _ & _ & _
        & _ & _ & Hfail).
  exists snapshot, w'. split; [exact Hrun|].
  split; [exact (Hfail _ _ eq_refl)|].
  split; [now rewrite Hreq|].
  unfold JsMap.has.
  change (RegistryService.generateServiceId
            (r_name (Scenario.register "Alpha" "http://alpha.local")))
    with "alpha" in Hstored.
  now rewrite Hstored.
Defined.

(** C10. Heartbeat: for an identifier that the directory does not hold,
    [heartbeat] returns without an error and changes nothing, where
    [getService] and [deregisterService] fail with [NOT_FOUND]; for an
    identifier that it holds, [heartbeat] sets the last-seen time of that
    entry to the present time and changes nothing else. *)
Theorem heartbeat_refreshes_or_ignores (P : Platform) (id : string)
  (w : World) :
  wellKeyed w ->
  match JsMap.get String.eqb id (services w) with
  | None =>
      RegistryService.heartbeat id w = (Ok tt, w)
      /\ (exists message,
            RegistryService.getService id w
            = (Throw (DomainError NOT_FOUND message 404), w))
      /\ (exists message,
            RegistryService.deregisterService id w
            = (Throw (DomainError NOT_FOUND message 404), w))
  | Some service =>
      exists w',
        RegistryService.heartbeat id w = (Ok tt, w')
        /\ JsMap.get String.eqb id (services w')
           = Some (refreshed service (clock (clockReads w)))
        /\ (forall id', id' <> id ->
              JsMap.get String.eqb id' (services w')
              = JsMap.get String.eqb id' (services w))
        /\ JsMap.keys (services w') = JsMap.keys (services w)
        /\ recentEvents w' = recentEvents w
        /\ requests w' = requests w
        /\ invocations w' = invocations w
  end.
Proof.
  intros Hwf.
  destruct (JsMap.get String.eqb id (services w)) as [service|] eqn:Hget.
  - pose proof (wellKeyed_get w id service Hwf Hget) as Hid.
    eexists. split.
    + unfold RegistryService.heartbeat.
      unfold bind at 1. unfold Repo.findById at 1, gets. rewrite Hget.
      reflexivity.
    + cbn [services set_services tick recentEvents requests invocations].
      change (Service.id (Service.touch (clock (clockReads w)) service))
        with (Service.id service).
      rewrite Hid. repeat split.
      * apply get_set_same.
      * intros id' Hne. now apply get_set_other.
      * apply keys_set_present. apply get_in in Hget.
        apply (in_map fst) in Hget. exact Hget.
  - repeat split.
    + unfold RegistryService.heartbeat.
      unfold bind at 1. unfold Repo.findById at 1, gets. now rewrite Hget.
    + unfold RegistryService.getService.
      unfold bind at 1. unfold Repo.findById at 1, gets. rewrite Hget.
      eexists. reflexivity.
    + unfold RegistryService.deregisterService.
      unfold bind at 1. unfold Repo.findById at 1, gets. rewrite Hget.
      eexists. reflexivity.
Qed.

Lemma heartbeat_refreshes_or_ignores_witness :
  RegistryService.heartbeat (P := Scenario.scripted []) "ghost"
    Scenario.billingWorld = (Ok tt, Scenario.billingWorld)
  /\ exists w',
       RegistryService.heartbeat (P := Scenario.scripted []) "billing"
         Scenario.billingWorld = (Ok tt, w')
       /\ option_map Service.lastSeenAt
            (JsMap.get String.eqb "billing" (services w')) = Some 1007.
Proof.
  split.
  - exact (proj1 (heartbeat_refreshes_or_ignores (Scenario.scripted [])
                    "ghost" Scenario.billingWorld wellKeyed_billingWorld)).
  - destruct (heartbeat_refreshes_or_ignores (Scenario.scripted [])
                "billing" Scenario.billingWorld wellKeyed_billingWorld)
      as (w' & Hrun & Hentry & _).
    exists w'. split; [exact Hrun|].
    change (JsMap.get String.eqb "billing" (services w')
            = Some (refreshed billing 1007)) in Hentry.
    now rewrite Hentry.
Defined.

(** ** Where the code departs from its specification *)

(** With a negative limit, [slice] counts from the end: all events but
    the [-limit] oldest are returned. *)
Lemma getRecentEvents_negative (limit : Z) (w : World) :
  limit < 0 ->
  EventService.getRecentEvents (Some limit) w
  = (Ok (firstn (List.length (recentEvents w) - Z.to_nat (- limit))
           (recentEvents w)), w).
Proof.
  intros Hl. unfold EventService.getRecentEvents, gets, JsArray.slice0.
  destruct (Z.ltb_spec limit 0); [|lia].
  do 3 f_equal. lia.
Qed.

(** C3. The destination of a proxy call is not the concatenation of the
    base address and the path: [new URL(path, base)] resolves the path
    against the base, and a path that starts with a slash replaces the path
    component of the base.  For the healthy service "billing" at
    [http://svc.local:3000/api], the request for [/invoices] with the query
    parameter [page=2] goes to [http://svc.local:3000/invoices?page=2],
    while the health check of the same service went to the concatenation
    [http://svc.local:3000/api/health]. *)
Theorem proxy_destination_drops_base_path :
  let request :=
    {| pr_serviceId := "billing";
       pr_method := "GET";
       pr_path := "/invoices";
       pr_headers := None;
       pr_body := None;
       pr_query := Some [("page", "2")];
       pr_timeout := None |} in
  let after :=
    snd (GatewayService.proxy (P := Scenario.scripted []) request
           Scenario.billingWorld) in
  JsMap.get String.eqb "billing" (services Scenario.billingWorld)
  = Some billing
  /\ Service.isAvailable billing = true
  /\ Service.baseUrl billing = "http://svc.local:3000/api"
  /\ map fr_url (requests after)
     = ["http://svc.local:3000/invoices?page=2";
        "http://svc.local:3000/api/health"]
  /\ "http://svc.local:3000/invoices?page=2"
     <> (Service.baseUrl billing ++ pr_path request ++ "?page=2")%string.
Proof.
  cbn zeta. repeat split; try (vm_compute; reflexivity).
  vm_compute. discriminate.
Qed.

(** C8. The bound of the history holds, but [getRecentEvents] does not
    return "up to [limit]" events for every limit: after three events, the
    limit [-1] (which the route lets through) returns the two newest
    ones. *)
Theorem getRecentEvents_negative_limit :
  let w :=
    snd (emitAll [Scenario.event 1; Scenario.event 2; Scenario.event 3]
           emptyWorld) in
  recentEvents w = [Scenario.event 3; Scenario.event 2; Scenario.event 1]
  /\ EventService.getRecentEvents (Some (-1)) w
     = (Ok [Scenario.event 3; Scenario.event 2], w).
Proof.
  cbn zeta. split; vm_compute; reflexivity.
Qed.

(** ** The directory invariant is kept by every operation *)

Lemma delete_sub {V : Type} (k : string) (m : JsMap.t string V)
  (kv : string * V) :
  In kv (JsMap.delete String.eqb k m) -> In kv m.
Proof.
  induction m as [|[k' v'] r IH]; cbn; [tauto|].
  destruct (String.eqb k' k); cbn; tauto.
Qed.

Lemma wellKeyed_delete (w w' : World) (k : string) :
  services w' = JsMap.delete String.eqb k (services w) ->
  wellKeyed w -> wellKeyed w'.
Proof.
  unfold wellKeyed. intros -> [Hk Hnd]. split.
  - rewrite Forall_forall in *. intros kv Hin.
    apply Hk. now apply delete_sub in Hin.
  - unfold JsMap.keys in *.
    induction (services w) as [|[k' s] r IH]; cbn in *; [constructor|].
    inversion Hk; inversion Hnd; subst.
    destruct (String.eqb k' k); cbn; [assumption|].
    constructor; [|now apply IH].
    intro Hin. apply in_map_iff in Hin. destruct Hin as (kv & Hfst & Hin).
    apply delete_sub in Hin. match goal with H : ~ In _ _ |- _ => apply H end.
    apply in_map_iff. now exists kv.
Qed.

Section InvariantFacts.
Context {P : Platform}.

Lemma checkServiceHealth_wellKeyed (id : string) (w : World) :
  wellKeyed w -> wellKeyed (snd (HealthService.checkServiceHealth id w)).
Proof.
  intros Hwf.
  destruct (JsMap.get String.eqb id (services w)) as [service|] eqn:Hget.
  - rewrite (checkServiceHealth_found id service w Hget).
    now apply (wellKeyed_write w _
                 (Service.updateHealthStatus (checkResult service w)
                    (clock (S (S (S (clockReads w))))) service)).
  - destruct (checkServiceHealth_absent id w Hget) as (result & -> & _).
    now apply (wellKeyed_frame w).
Qed.

Lemma heartbeat_wellKeyed (id : string) (w : World) :
  wellKeyed w -> wellKeyed (snd (RegistryService.heartbeat id w)).
Proof.
  intros Hwf. unfold RegistryService.heartbeat.
  unfold bind at 1. unfold Repo.findById at 1, gets.
  destruct (JsMap.get String.eqb id (services w)) as [service|].
  - now apply (wellKeyed_write w _
                 (Service.touch (clock (clockReads w)) service)).
  - exact Hwf.
Qed.

Lemma registerService_wellKeyed (request : RegisterServiceRequest)
  (w : World) :
  wellKeyed w ->
  wellKeyed (snd (RegistryService.registerService request w)).
Proof.
  intros Hwf.
  destruct (JsMap.get String.eqb
              (RegistryService.generateServiceId (r_name request))
              (services w)) as [existing|] eqn:Hget.
  - rewrite (registerService_existing request existing w Hget).
    now apply (wellKeyed_write w _
                 (refreshed existing (clock (clockReads w)))).
  - destruct (Service.validate canParse (propsOf request)) as [[]|e] eqn:Hv.
    + destruct (registerService_new request w Hget Hv) as [calls ->].
      cbn [snd].
      apply (wellKeyed_write (savedWorld request w) _
               (Service.updateHealthStatus
                  (checkResult (builtService request w)
                     (savedWorld request w))
                  (clock (5 + clockReads w)%nat) (builtService request w)));
        [reflexivity|].
      now apply (wellKeyed_write w _ (builtService request w)).
    + now rewrite (registerService_invalid request e w Hget Hv).
Qed.

Lemma deregisterService_wellKeyed (id : string) (w : World) :
  wellKeyed w ->
  wellKeyed (snd (RegistryService.deregisterService id w)).
Proof.
  intros Hwf. unfold RegistryService.deregisterService.
  unfold bind at 1. unfold Repo.findById at 1, gets.
  destruct (JsMap.get String.eqb id (services w)) as [service|];
    [|exact Hwf].
  unfold bind at 1. unfold lift at 1. cbn [Guard.throwIfNull].
  unfold bind at 1. unfold Repo.delete at 1.
  unfold bind at 1. unfold now at 1.
  match goal with
  | |- context [EventService.emit ?e ?w1] =>
      destruct (emit_run e w1) as [calls ->]
  end.
  now apply (wellKeyed_delete w _ id).
Qed.

Lemma proxy_wellKeyed (request : ProxyRequest) (w : World) :
  wellKeyed w -> wellKeyed (snd (GatewayService.proxy request w)).
Proof.
  intros Hwf.
  remember (GatewayService.proxy request w) as res eqn:Hres.
  unfold GatewayService.proxy in Hres.
  unfold bind at 1 in Hres. unfold Repo.findById at 1, gets in Hres.
  destruct (JsMap.get String.eqb (pr_serviceId request) (services w))
    as [s|]; [|now subst res].
  unfold bind at 1 in Hres. unfold lift at 1 in Hres.
  cbn [Guard.throwIfNull] in Hres.
  destruct (Service.isAvailable s); cbn [negb] in Hres; [|now subst res].
  unfold bind at 1 in Hres. unfold newURL in Hres.
  destruct (URL_new (pr_path request) (Some (Service.baseUrl s))) as [url|];
    [|now subst res].
  unfold ret at 1 in Hres.
  unfold bind at 1 in Hres. unfold now at 1 in Hres.
  unfold tryCatch in Hres. unfold bind at 1 in Hres. unfold doFetch in Hres.
  destruct (fetch _ _) as [r|name message].
  - unfold bind at 1 in Hres. unfold now at 1 in Hres.
    unfold bind at 1 in Hres.
    destruct (Js.lookup "content-type" (resp_headers r)) as [ct|];
      [destruct (GatewayService.includes "application/json" ct);
       [destruct (resp_json r) as [?|bn ?]|destruct (resp_text r) as [?|bn ?]]
      |destruct (resp_text r) as [?|bn ?]];
      cbn in Hres; try destruct (String.eqb bn "AbortError");
      cbn in Hres; subst res; cbn [snd];
      first [ now apply (wellKeyed_frame w)
            | eapply (wellKeyed_write w _ (Service.touch _ s));
              [reflexivity|exact Hwf] ].
  - cbn in Hres. destruct (String.eqb name "AbortError");
      cbn in Hres; subst res; now apply (wellKeyed_frame w).
Qed.

Lemma broadcast_wellKeyed (serviceType : string) (message : JsValue)
  (w : World) :
  wellKeyed w ->
  wellKeyed (snd (GatewayService.broadcast serviceType message w)).
Proof.
  intros Hwf. exact (proj1 (broadcast_quiet message serviceType w Hwf)).
Qed.

End InvariantFacts.

(** * Further properties *)

(** ** The shape of identifiers *)

Lemma slugChar_not_dash (c : ascii) :
  Slug.isSlugChar c = true -> Ascii.eqb c "-" = false.
Proof.
  intros Hc. destruct (Ascii.eqb_spec c "-") as [->|]; [|reflexivity].
  discriminate Hc.
Qed.

Lemma replaceNonSlugRuns_dashesApart (s : string) (b : bool) :
  dashesApart b (Slug.replaceNonSlugRuns b s) = true.
Proof.
  revert b. induction s as [|c r IH]; intros b; [reflexivity|].
  cbn [Slug.replaceNonSlugRuns].
  destruct (Slug.isSlugChar c) eqn:Ec.
  - cbn [dashesApart]. rewrite Ec. apply IH.
  - destruct b; [apply IH|].
    cbn [dashesApart]. change (Slug.isSlugChar "-") with false.
    cbn. apply IH.
Qed.

Lemma replaceEdgeDashes_slugBody (t : string) (a : bool) :
  dashesApart a t = true ->
  t <> EmptyString \/ a = false ->
  slugBody a (Slug.replaceEdgeDashes false t) = true.
Proof.
  revert a. induction t as [|c r IH]; intros a Hd Hne.
  - destruct Hne as [Hne| ->]; [contradiction|reflexivity].
  - cbn [dashesApart] in Hd. cbn [Slug.replaceEdgeDashes orb].
    destruct (Slug.isSlugChar c) eqn:Ec.
    + rewrite (slugChar_not_dash c Ec). cbn [andb slugBody]. rewrite Ec.
      apply IH; [exact Hd|now right].
    + destruct (Ascii.eqb c "-") eqn:Edash; [|discriminate].
      apply andb_true_iff in Hd. destruct Hd as [Ha Hd].
      apply negb_true_iff in Ha. subst a.
      destruct r as [|c' r'].
      * reflexivity.
      * cbn [JsString.isEmpty andb slugBody]. rewrite Ec, Edash.
        cbn [negb andb]. apply IH; [exact Hd|left; discriminate].
Qed.

Lemma generateServiceId_isSlug (name : string) :
  isSlug (Slug.generateServiceId name) = true.
Proof.
  unfold Slug.generateServiceId, isSlug.
  pose proof (replaceNonSlugRuns_dashesApart (JsString.toLowerCase name)
                false) as Hd.
  destruct (Slug.replaceNonSlugRuns false (JsString.toLowerCase name))
    as [|c r]; [reflexivity|].
  cbn [dashesApart] in Hd. cbn [Slug.replaceEdgeDashes orb].
  rewrite andb_true_r.
  destruct (Slug.isSlugChar c) eqn:Ec.
  - rewrite (slugChar_not_dash c Ec). cbn [JsString.isEmpty orb slugBody].
    rewrite Ec. apply replaceEdgeDashes_slugBody; [exact Hd|now right].
  - destruct (Ascii.eqb c "-"); [|discriminate].
    cbn [negb andb] in Hd.
    destruct r as [|c' r']; [reflexivity|].
    apply orb_true_iff. right.
    apply replaceEdgeDashes_slugBody; [exact Hd|left; discriminate].
Qed.

Lemma lowerChar_slugChar (c : ascii) :
  Slug.isSlugChar c = true \/ Ascii.eqb c "-" = true ->
  JsString.lowerChar c = c.
Proof.
  unfold Slug.isSlugChar, JsString.between, JsString.lowerChar,
    JsString.code.
  intros H.
  assert (Hn : (97 <= N_of_ascii c <= 122 \/ 48 <= N_of_ascii c <= 57
                \/ N_of_ascii c = 45)%N).
  { destruct H as [H|H].
    - apply orb_true_iff in H. destruct H as [H|H];
        apply andb_true_iff in H; destruct H as [H1 H2];
        apply N.leb_le in H1, H2; cbn in H1, H2; lia.
    - apply Ascii.eqb_eq in H. subst c. right. right. reflexivity. }
  destruct ((65 <=? N_of_ascii c) && (N_of_ascii c <=? 90)
            || (192 <=? N_of_ascii c) && (N_of_ascii c <=? 222)
               && negb (N_of_ascii c =? 215))%N eqn:E; [|reflexivity].
  apply orb_true_iff in E. destruct E as [E|E].
  - apply andb_true_iff in E. destruct E as [E1 E2].
    apply N.leb_le in E1, E2. lia.
  - apply andb_true_iff in E. destruct E as [E _].
    apply andb_true_iff in E. destruct E as [E1 E2].
    apply N.leb_le in E1, E2. lia.
Qed.

Lemma slugBody_dashesApart (s : string) (a : bool) :
  slugBody a s = true -> dashesApart a s = true.
Proof.
  revert a. induction s as [|c r IH]; intros a; [reflexivity|].
  cbn [slugBody dashesApart].
  destruct (Slug.isSlugChar c); [apply IH|].
  destruct (Ascii.eqb c "-"); [|auto].
  intros H. apply andb_true_iff in H. destruct H as [-> H].
  now rewrite (IH _ H).
Qed.

Lemma toLowerCase_dashesApart (s : string) (a : bool) :
  dashesApart a s = true -> JsString.toLowerCase s = s.
Proof.
  revert a. induction s as [|c r IH]; intros a; [reflexivity|].
  cbn [dashesApart JsString.toLowerCase].
  destruct (Slug.isSlugChar c) eqn:Ec.
  - intros H. rewrite (IH _ H), lowerChar_slugChar; auto.
  - destruct (Ascii.eqb c "-") eqn:Ed; [|discriminate].
    intros H. apply andb_true_iff in H. destruct H as [_ H].
    rewrite (IH _ H), lowerChar_slugChar; auto.
Qed.

Lemma replaceNonSlugRuns_fixed (s : string) (a : bool) :
  dashesApart a s = true -> Slug.replaceNonSlugRuns a s = s.
Proof.
  revert a. induction s as [|c r IH]; intros a; [reflexivity|].
  cbn [dashesApart Slug.replaceNonSlugRuns].
  destruct (Slug.isSlugChar c).
  - intros H. now rewrite (IH _ H).
  - destruct (Ascii.eqb_spec c "-") as [->|]; [|discriminate].
    intros H. apply andb_true_iff in H. destruct H as [Ha H].
    apply negb_true_iff in Ha. subst a. now rewrite (IH _ H).
Qed.

Lemma replaceEdgeDashes_fixed (s : string) (a : bool) :
  slugBody a s = true -> Slug.replaceEdgeDashes false s = s.
Proof.
  revert a. induction s as [|c r IH]; intros a; [reflexivity|].
  cbn [slugBody Slug.replaceEdgeDashes orb].
  destruct (Slug.isSlugChar c) eqn:Ec.
  - rewrite (slugChar_not_dash c Ec). cbn [andb].
    intros H. now rewrite (IH _ H).
  - destruct (Ascii.eqb c "-"); [|discriminate].
    intros H. apply andb_true_iff in H. destruct H as [_ H].
    destruct r as [|c' r']; [discriminate H|].
    cbn [JsString.isEmpty andb]. now rewrite (IH _ H).
Qed.

Lemma generateServiceId_fixed (s : string) :
  isSlug s = true -> Slug.generateServiceId s = s.
Proof.
  unfold isSlug. intros H. destruct s as [|c r]; [reflexivity|].
  cbn [JsString.isEmpty orb] in H.
  unfold Slug.generateServiceId.
  rewrite (toLowerCase_dashesApart _ true (slugBody_dashesApart _ _ H)).
  assert (Hd : dashesApart false (String c r) = true).
  { pose proof (slugBody_dashesApart _ _ H) as Hd.
    cbn [dashesApart] in *. destruct (Slug.isSlugChar c); [exact Hd|].
    destruct (Ascii.eqb c "-"); discriminate. }
  rewrite (replaceNonSlugRuns_fixed _ false Hd).
  cbn [slugBody] in H. cbn [Slug.replaceEdgeDashes orb].
  destruct (Slug.isSlugChar c) eqn:Ec.
  - rewrite (slugChar_not_dash c Ec). cbn [andb].
    now rewrite (replaceEdgeDashes_fixed _ _ H).
  - destruct (Ascii.eqb c "-"); discriminate.
Qed.

(** X1. Every identifier that [generateServiceId] derives is empty or made
    of words of [a-z0-9] joined by single dashes: it holds no other
    character, no two dashes in a row, and no dash at either end. *)
Theorem generateServiceId_shape (name : string) :
  isSlug (RegistryService.generateServiceId name) = true.
Proof. apply generateServiceId_isSlug. Qed.

(** X2. [generateServiceId] is idempotent: the identifier derived from an
    identifier is that identifier, so a service registered under the name
    "payment-agent" and one registered as "Payment Agent" meet in the same
    entry. *)
Theorem generateServiceId_idempotent (name : string) :
  RegistryService.generateServiceId (RegistryService.generateServiceId name)
  = RegistryService.generateServiceId name
  /\ RegistryService.generateServiceId "payment-agent"
     = RegistryService.generateServiceId "Payment Agent".
Proof.
  split; [|reflexivity].
  apply generateServiceId_fixed, generateServiceId_isSlug.
Qed.

(** ** Subscriptions and delivery *)

Lemma EventType_eqb_eq (a b : EventType) :
  EventType_eqb a b = true <-> a = b.
Proof. destruct a, b; cbn; split; intros H; congruence. Qed.

Lemma EventType_eqb_refl (a : EventType) : EventType_eqb a a = true.
Proof. now apply EventType_eqb_eq. Qed.

Section TypeMapFacts.
Context {V : Type}.
Implicit Types (m : JsMap.t EventType V) (k : EventType) (v : V).

Lemma type_get_set_same k v m :
  JsMap.get EventType_eqb k (JsMap.set EventType_eqb k v m) = Some v.
Proof.
  induction m as [|[k' v'] r IH]; cbn.
  - now rewrite EventType_eqb_refl.
  - destruct (EventType_eqb k' k) eqn:E; cbn; rewrite E; auto.
Qed.

Lemma type_get_set_other k k' v m :
  k' <> k ->
  JsMap.get EventType_eqb k' (JsMap.set EventType_eqb k v m)
  = JsMap.get EventType_eqb k' m.
Proof.
  intros Hne. induction m as [|[k0 v0] r IH]; cbn.
  - destruct (EventType_eqb k k') eqn:E; [|reflexivity].
    apply EventType_eqb_eq in E. congruence.
  - destruct (EventType_eqb k0 k) eqn:E; cbn.
    + apply EventType_eqb_eq in E. subst k0.
      destruct (EventType_eqb k k') eqn:E'; [|reflexivity].
      apply EventType_eqb_eq in E'. congruence.
    + now rewrite IH.
Qed.

(** Writing the value that a key already has changes nothing. *)
Lemma type_set_same k v m :
  JsMap.get EventType_eqb k m = Some v ->
  JsMap.set EventType_eqb k v m = m.
Proof.
  induction m as [|[k' v'] r IH]; cbn; [discriminate|].
  destruct (EventType_eqb k' k) eqn:E.
  - now intros [= ->].
  - intros H. now rewrite IH.
Qed.

Lemma type_set_set k v v' m :
  JsMap.set EventType_eqb k v' (JsMap.set EventType_eqb k v m)
  = JsMap.set EventType_eqb k v' m.
Proof.
  induction m as [|[k0 v0] r IH]; cbn.
  - now rewrite EventType_eqb_refl.
  - destruct (EventType_eqb k0 k) eqn:E; cbn; rewrite E; [reflexivity|].
    now rewrite IH.
Qed.
End TypeMapFacts.

Lemma deliveries_app (event : DomainEvent) (a b : list EventHandler) :
  deliveries event (a ++ b) = deliveries event b ++ deliveries event a.
Proof. unfold deliveries. now rewrite map_app, rev_app_distr. Qed.

Lemma forOf_notify_exact (event : DomainEvent) (hs : list EventHandler)
  (w : World) :
  forOf hs (EventService.notify event) w
  = (Ok tt,
     with_history (recentEvents w) (deliveries event hs ++ invocations w) w).
Proof.
  revert w. induction hs as [|h r IH]; intros w.
  - cbn. now rewrite with_history_same.
  - cbn [forOf]. unfold bind at 1.
    assert (Hn : EventService.notify event h w
                 = (Ok tt, log_invocation (handler_ref h) event w)).
    { unfold EventService.notify, tryCatch, EventService.call, ret.
      destruct (handler_run h event); reflexivity. }
    rewrite Hn, IH.
    change (h :: r) with ([h] ++ r). rewrite deliveries_app, <- app_assoc.
    reflexivity.
Qed.

Lemma emit_exact (event : DomainEvent) (w : World) :
  EventService.emit event w
  = (Ok tt,
     with_history (pushed event (recentEvents w))
       (deliveries event (subscribersOf event w) ++ invocations w) w).
Proof.
  unfold EventService.emit, subscribersOf.
  unfold bind at 1. unfold modify at 1.
  unfold bind at 1. unfold gets at 1.
  unfold bind at 1.
  set (w1 := set_recentEvents (JsArray.unshift event) w).
  set (w2 := with_history (pushed event (recentEvents w)) (invocations w) w).
  assert (H2 : (if EventService.maxRecentEvents
                     <? Z.of_nat (List.length (recentEvents w1))
                then modify (set_recentEvents JsArray.pop)
                else ret tt) w1 = (Ok tt, w2)).
  { unfold w2, pushed. cbn [recentEvents w1 set_recentEvents].
    unfold JsArray.unshift.
    destruct (EventService.maxRecentEvents
              <? Z.of_nat (List.length (event :: recentEvents w)));
      reflexivity. }
  rewrite H2.
  unfold bind at 1. unfold gets at 1.
  unfold bind at 1.
  change (handlers w2) with (handlers w).
  rewrite deliveries_app, <- app_assoc.
  destruct (JsMap.get EventType_eqb (ev_type event) (handlers w)) as [hs|].
  - rewrite forOf_notify_exact.
    unfold bind at 1. unfold gets at 1.
    rewrite forOf_notify_exact. reflexivity.
  - unfold ret at 1.
    unfold bind at 1. unfold gets at 1.
    rewrite forOf_notify_exact. reflexivity.
Qed.

(** X3. Delivery and handler isolation: [emit] never throws; it calls
    every handler subscribed to the type of the event, in the order of
    subscription, then every handler subscribed to all events, each one
    once, whether or not a handler before it rejected; handlers of other
    types are not called. *)
Theorem emit_notifies_all_subscribers (event : DomainEvent) (w : World) :
  exists w',
    EventService.emit event w = (Ok tt, w')
    /\ invocations w'
       = rev (map (fun h => (handler_ref h, event))
                (match JsMap.get EventType_eqb (ev_type event) (handlers w)
                 with
                 | Some hs => hs
                 | None => []
                 end ++ allHandlers w))
         ++ invocations w
    /\ handlers w' = handlers w
    /\ allHandlers w' = allHandlers w
    /\ services w' = services w
    /\ requests w' = requests w.
Proof.
  eexists. split; [apply emit_exact|]. repeat split.
Qed.

(** A handler of the event's type that rejects, then an all-events handler:
    both are called. *)
Example emit_isolates_failing_handler :
  let w :=
    snd (EventService.subscribeAll quietHandler
           (snd (EventService.subscribe COMMAND_COMPLETED failingHandler
                   emptyWorld))) in
  EventService.emit (Scenario.event 7) w
  = (Ok tt,
     with_history [Scenario.event 7]
       [(2%nat, Scenario.event 7); (1%nat, Scenario.event 7)] w).
Proof. reflexivity. Qed.

Lemma subscribe_handlers (eventType : EventType) (h : EventHandler)
  (w : World) :
  handlers (snd (EventService.subscribe eventType h w))
  = JsMap.set EventType_eqb eventType
      (JsSet.add h
         (match JsMap.get EventType_eqb eventType (handlers w) with
          | Some hs => hs
          | None => []
          end))
      (handlers w).
Proof.
  unfold EventService.subscribe, modify. cbn [snd handlers set_handlers].
  unfold JsMap.has.
  destruct (JsMap.get EventType_eqb eventType (handlers w)) as [hs|] eqn:E.
  - now rewrite E.
  - rewrite type_get_set_same. apply type_set_set.
Qed.

Lemma add_add (h : EventHandler) (hs : list EventHandler) :
  JsSet.add h (JsSet.add h hs) = JsSet.add h hs.
Proof.
  unfold JsSet.add. destruct (existsb (JsSet.sameRef h) hs) eqn:E.
  - now rewrite E.
  - rewrite existsb_app. cbn. unfold JsSet.sameRef at 2.
    now rewrite Nat.eqb_refl, orb_true_r.
Qed.

Lemma delete_add_fresh (h : EventHandler) (hs : list EventHandler) :
  subscribed h hs = false -> JsSet.delete h (JsSet.add h hs) = hs.
Proof.
  unfold subscribed, JsSet.add, JsSet.delete. intros E. rewrite E.
  rewrite filter_app. cbn. unfold JsSet.sameRef at 2.
  rewrite Nat.eqb_refl. cbn. rewrite app_nil_r.
  induction hs as [|x r IH]; [reflexivity|].
  cbn in *. apply orb_false_iff in E. destruct E as [Ex Er].
  rewrite Ex. cbn. now rewrite IH.
Qed.

Lemma world_handlers_eq (w w' : World) :
  services w' = services w -> handlers w' = handlers w ->
  allHandlers w' = allHandlers w -> recentEvents w' = recentEvents w ->
  clockReads w' = clockReads w -> requests w' = requests w ->
  invocations w' = invocations w -> w' = w.
Proof. destruct w, w'; cbn; intros; subst; reflexivity. Qed.

(** X4. Subscribing is idempotent: a handler subscribed a second time to
    the same type, or a second time to all events, leaves the bus as it
    was after the first time, so it is called once per event. *)
Theorem subscribe_twice_is_once (eventType : EventType) (h : EventHandler)
  (w : World) :
  snd (EventService.subscribe eventType h
         (snd (EventService.subscribe eventType h w)))
  = snd (EventService.subscribe eventType h w)
  /\ snd (EventService.subscribeAll h
            (snd (EventService.subscribeAll h w)))
     = snd (EventService.subscribeAll h w).
Proof.
  split.
  - apply world_handlers_eq; try reflexivity.
    rewrite (subscribe_handlers eventType h
               (snd (EventService.subscribe eventType h w))).
    rewrite subscribe_handlers, type_get_set_same, add_add.
    apply type_set_set.
  - unfold EventService.subscribeAll, modify. cbn [snd].
    apply world_handlers_eq; try reflexivity.
    cbn [allHandlers set_allHandlers]. apply add_add.
Qed.

(** X5. Unsubscribing undoes subscribing: when no handler with the
    reference of [h] is subscribed to the type, subscribing [h] and then
    unsubscribing it gives a bus that notifies, for every event, the same
    handlers in the same order as before; and unsubscribing from a type
    that nobody ever subscribed to changes nothing. *)
Theorem unsubscribe_undoes_subscribe (eventType : EventType)
  (h : EventHandler) (w : World) :
  subscribed h
    (match JsMap.get EventType_eqb eventType (handlers w) with
     | Some hs => hs
     | None => []
     end) = false ->
  (forall event,
      subscribersOf event
        (snd (EventService.unsubscribe eventType h
                (snd (EventService.subscribe eventType h w))))
      = subscribersOf event w)
  /\ (JsMap.get EventType_eqb eventType (handlers w) = None ->
      EventService.unsubscribe eventType h w = (Ok tt, w)).
Proof.
  intros Hfresh. split.
  - intros event. unfold subscribersOf. f_equal.
    unfold EventService.unsubscribe, modify.
    cbn [snd handlers set_handlers].
    change (handlers
              (let (_, y) := EventService.subscribe eventType h w in y))
      with (handlers (snd (EventService.subscribe eventType h w))).
    rewrite subscribe_handlers, type_get_set_same, type_set_set.
    rewrite delete_add_fresh by exact Hfresh.
    destruct (EventType_eqb eventType (ev_type event)) eqn:E.
    + apply EventType_eqb_eq in E. subst eventType.
      rewrite type_get_set_same.
      now destruct (JsMap.get EventType_eqb (ev_type event) (handlers w)).
    + rewrite type_get_set_other; [reflexivity|].
      intros Heq. rewrite <- Heq, EventType_eqb_refl in E. discriminate.
  - intros Hnone. unfold EventService.unsubscribe, modify.
    f_equal. apply world_handlers_eq; try reflexivity.
    cbn [handlers set_handlers]. now rewrite Hnone.
Qed.

Lemma unsubscribe_undoes_subscribe_witness :
  subscribed quietHandler [failingHandler] = false
  /\ forall event,
       subscribersOf event
         (snd (EventService.unsubscribe SERVICE_REGISTERED quietHandler
                 (snd (EventService.subscribe SERVICE_REGISTERED quietHandler
                         (snd (EventService.subscribe SERVICE_REGISTERED
                                 failingHandler emptyWorld))))))
       = subscribersOf event
           (snd (EventService.subscribe SERVICE_REGISTERED failingHandler
                   emptyWorld)).
Proof.
  split; [reflexivity|].
  exact (proj1 (unsubscribe_undoes_subscribe SERVICE_REGISTERED quietHandler
                  (snd (EventService.subscribe SERVICE_REGISTERED
                          failingHandler emptyWorld))
                  eq_refl)).
Defined.

(** ** The event history *)

(** X6. The history is a window on the latest events: from a history of at
    most 100 events, emitting any list of events leaves the 100 newest of
    all of them, the newest first; the history never grows past 100. *)
Theorem history_keeps_latest_hundred (events : list DomainEvent)
  (w : World) :
  (List.length (recentEvents w) <= 100)%nat ->
  recentEvents (snd (emitAll events w))
  = firstn 100 (rev events ++ recentEvents w)
  /\ (List.length (recentEvents (snd (emitAll events w))) <= 100)%nat
  /\ fst (emitAll events w) = Ok tt.
Proof.
  intros Hlen. destruct (emitAll_history events w Hlen) as [calls He].
  rewrite He. unfold with_history; cbn [fst snd recentEvents].
  repeat split. rewrite length_firstn. lia.
Qed.

Lemma history_keeps_latest_hundred_witness :
  List.length (recentEvents (snd (emitAll manyEvents emptyWorld))) = 100%nat
  /\ hd_error (recentEvents (snd (emitAll manyEvents emptyWorld)))
     = Some (Scenario.event 150)
  /\ last (recentEvents (snd (emitAll manyEvents emptyWorld)))
       (Scenario.event 0)
     = Scenario.event 51.
Proof.
  destruct (history_keeps_latest_hundred manyEvents emptyWorld)
    as (Hh & _ & _).
  - cbn. lia.
  - rewrite Hh. vm_compute. repeat split.
Defined.

(** X7. With a limit that is not negative, [getRecentEvents] returns the
    [limit] newest events of the history, or all of them when there are
    fewer, the newest first; without a limit it returns up to 50.  The
    history and the rest of the bus stay as they are. *)
Theorem getRecentEvents_newest_first (limit : Z) (w : World) :
  0 <= limit ->
  EventService.getRecentEvents (Some limit) w
  = (Ok (firstn (Z.to_nat limit) (recentEvents w)), w)
  /\ EventService.getRecentEvents None w
     = (Ok (firstn 50 (recentEvents w)), w).
Proof.
  intros Hl. split.
  - now apply getRecentEvents_nonnegative.
  - apply getRecentEvents_default.
Qed.

Lemma getRecentEvents_newest_first_witness :
  fst (EventService.getRecentEvents (Some 2)
         (snd (emitAll manyEvents emptyWorld)))
  = Ok [Scenario.event 150; Scenario.event 149].
Proof.
  rewrite (proj1 (getRecentEvents_newest_first 2
                    (snd (emitAll manyEvents emptyWorld)) ltac:(lia))).
  vm_compute. reflexivity.
Defined.

(** ** The repository *)

Section RepoFacts.
Context {V : Type}.
Implicit Types (m : JsMap.t string V) (k : string) (v : V).

Lemma has_keys k m : JsMap.has String.eqb k m = true <-> In k (JsMap.keys m).
Proof.
  unfold JsMap.has.
  destruct (JsMap.get String.eqb k m) eqn:E.
  - split; [|reflexivity]. intros _.
    apply get_in in E. now apply (in_map fst) in E.
  - split; [discriminate|]. intros Hin.
    now apply get_none_keys in E.
Qed.

Lemma get_delete_other k k' m :
  k' <> k ->
  JsMap.get String.eqb k' (JsMap.delete String.eqb k m)
  = JsMap.get String.eqb k' m.
Proof.
  intros Hne. induction m as [|[k0 v0] r IH]; cbn; [reflexivity|].
  destruct (String.eqb k0 k) eqn:E; cbn.
  - apply String.eqb_eq in E. subst k0.
    destruct (String.eqb k k') eqn:E'; [|reflexivity].
    apply String.eqb_eq in E'. congruence.
  - now rewrite IH.
Qed.

Lemma get_delete_same k m :
  NoDup (JsMap.keys m) ->
  JsMap.get String.eqb k (JsMap.delete String.eqb k m) = None.
Proof.
  induction m as [|[k0 v0] r IH]; cbn; [reflexivity|].
  intros Hnd. inversion Hnd as [|? ? Hfresh Hrest]; subst.
  destruct (String.eqb k0 k) eqn:E; cbn.
  - apply String.eqb_eq in E. subst k0. now apply get_none_keys.
  - rewrite E. now apply IH.
Qed.

Lemma size_delete k m :
  JsMap.size (JsMap.delete String.eqb k m)
  = if JsMap.has String.eqb k m then JsMap.size m - 1 else JsMap.size m.
Proof.
  unfold JsMap.size, JsMap.has.
  induction m as [|[k0 v0] r IH]; cbn [JsMap.delete JsMap.get];
    [reflexivity|].
  destruct (String.eqb k0 k); [cbn [List.length]; lia|].
  cbn [List.length].
  destruct (JsMap.get String.eqb k r); rewrite !Nat2Z.inj_succ; lia.
Qed.

Lemma size_set k v m :
  JsMap.size (JsMap.set String.eqb k v m)
  = if JsMap.has String.eqb k m then JsMap.size m else JsMap.size m + 1.
Proof.
  unfold JsMap.size, JsMap.has.
  induction m as [|[k0 v0] r IH]; cbn [JsMap.set JsMap.get];
    [reflexivity|].
  destruct (String.eqb k0 k); [reflexivity|].
  cbn [List.length].
  destruct (JsMap.get String.eqb k r); rewrite !Nat2Z.inj_succ; lia.
Qed.
End RepoFacts.

(** X8. Saving and looking up: after [save], [findById] of the entity's
    identifier returns the entity and [exists] holds; every other
    identifier is found as before; the count grows by one when the
    identifier is new and stays when it replaces an entry. *)
Theorem save_then_find (service : Service.t) (w : World) :
  let w' := snd (Repo.save service w) in
  fst (Repo.findById (Service.id service) w') = Ok (Some service)
  /\ fst (Repo.exists_ (Service.id service) w') = Ok true
  /\ (forall id, id <> Service.id service ->
        fst (Repo.findById id w') = fst (Repo.findById id w))
  /\ fst (Repo.count w')
     = Ok (if JsMap.has String.eqb (Service.id service) (services w)
           then JsMap.size (services w)
           else JsMap.size (services w) + 1).
Proof.
  cbn zeta. unfold Repo.save, Repo.findById, Repo.exists_, Repo.count,
    modify, gets, JsMap.has.
  cbn [fst snd services set_services].
  rewrite get_set_same. repeat split.
  - intros id Hne. now rewrite get_set_other.
  - now rewrite size_set.
Qed.

(** X9. Deleting: in a directory with distinct keys, [delete] tells
    whether the identifier was present; afterwards it is not found and
    does not exist, every other identifier is found as before, and the
    count is one less when it was present. *)
Theorem delete_then_find (id : string) (w : World) :
  wellKeyed w ->
  let w' := snd (Repo.delete id w) in
  fst (Repo.delete id w) = Ok (JsMap.has String.eqb id (services w))
  /\ fst (Repo.findById id w') = Ok None
  /\ fst (Repo.exists_ id w') = Ok false
  /\ (forall id', id' <> id ->
        fst (Repo.findById id' w') = fst (Repo.findById id' w))
  /\ fst (Repo.count w')
     = Ok (if JsMap.has String.eqb id (services w)
           then JsMap.size (services w) - 1
           else JsMap.size (services w))
  /\ wellKeyed w'.
Proof.
  intros Hwf. cbn zeta.
  unfold Repo.delete, Repo.findById, Repo.exists_, Repo.count, gets.
  cbn [fst snd services set_services].
  assert (Hgone : JsMap.get String.eqb id
                    (JsMap.delete String.eqb id (services w)) = None)
    by apply (get_delete_same id (services w) (proj2 Hwf)).
  split; [reflexivity|].
  split; [now rewrite Hgone|].
  split; [unfold JsMap.has at 1; now rewrite Hgone|].
  split; [intros id' Hne; now rewrite get_delete_other|].
  split; [now rewrite size_delete|].
  now apply (wellKeyed_delete w _ id).
Qed.

Lemma delete_then_find_witness :
  fst (Repo.delete "billing" Scenario.billingWorld) = Ok true
  /\ fst (Repo.findById "billing"
            (snd (Repo.delete "billing" Scenario.billingWorld))) = Ok None
  /\ fst (Repo.count (snd (Repo.delete "billing" Scenario.billingWorld)))
     = Ok 0.
Proof.
  destruct (delete_then_find "billing" Scenario.billingWorld
              wellKeyed_billingWorld) as (Hd & Hf & _ & _ & Hc & _).
  repeat split; assumption.
Defined.

(** ** Registration and deregistration *)

Lemma whiteSpace_not_slug (c : ascii) :
  JsString.isWhiteSpace c = true ->
  Slug.isSlugChar (JsString.lowerChar c) = false.
Proof.
  unfold JsString.isWhiteSpace, JsString.lowerChar, JsString.code.
  intros H.
  assert (Hn : (N_of_ascii c <= 32 \/ N_of_ascii c = 160)%N).
  { apply orb_true_iff in H. destruct H as [H|H].
    - apply orb_true_iff in H. destruct H as [H|H].
      + apply andb_true_iff in H. destruct H as [_ H].
        apply N.leb_le in H. lia.
      + apply N.eqb_eq in H. lia.
    - apply N.eqb_eq in H. lia. }
  destruct ((65 <=? N_of_ascii c) && (N_of_ascii c <=? 90)
            || (192 <=? N_of_ascii c) && (N_of_ascii c <=? 222)
               && negb (N_of_ascii c =? 215))%N eqn:E.
  - apply orb_true_iff in E. destruct E as [E|E].
    + apply andb_true_iff in E. destruct E as [E1 E2].
      apply N.leb_le in E1, E2. lia.
    + apply andb_true_iff in E. destruct E as [E _].
      apply andb_true_iff in E. destruct E as [E1 E2].
      apply N.leb_le in E1, E2. lia.
  - unfold Slug.isSlugChar, JsString.between, JsString.code.
    apply orb_false_iff.
    destruct Hn as [Hn|Hn].
    + split; apply andb_false_iff; left; apply N.leb_gt; cbn; lia.
    + split; apply andb_false_iff; right; apply N.leb_gt; cbn; lia.
Qed.

Lemma slugChar_not_whiteSpace (c : ascii) :
  Slug.isSlugChar c = true -> JsString.isWhiteSpace c = false.
Proof.
  unfold Slug.isSlugChar, JsString.between, JsString.isWhiteSpace,
    JsString.code.
  intros H.
  assert (Hn : (48 <= N_of_ascii c <= 122)%N).
  { apply orb_true_iff in H. destruct H as [H|H];
      apply andb_true_iff in H; destruct H as [H1 H2];
      apply N.leb_le in H1, H2; cbn in H1, H2; lia. }
  apply orb_false_iff. split; [apply orb_false_iff; split|].
  - apply andb_false_iff. right. apply N.leb_gt. lia.
  - apply N.eqb_neq. lia.
  - apply N.eqb_neq. lia.
Qed.

(** A name of white space only has the empty identifier. *)
Lemma blank_name_empty_slug (name : string) :
  JsString.allWhiteSpace name = true -> Slug.generateServiceId name = "".
Proof.
  intros Hb. unfold Slug.generateServiceId.
  assert (H : Slug.replaceNonSlugRuns true (JsString.toLowerCase name) = ""
              /\ (Slug.replaceNonSlugRuns false (JsString.toLowerCase name)
                  = ""
                  \/ Slug.replaceNonSlugRuns false
                       (JsString.toLowerCase name) = "-")).
  { induction name as [|c r IH]; [split; [|left]; reflexivity|].
    cbn [JsString.allWhiteSpace] in Hb. apply andb_true_iff in Hb.
    destruct Hb as [Hc Hr]. destruct (IH Hr) as [IHt _].
    cbn [JsString.toLowerCase Slug.replaceNonSlugRuns].
    rewrite (whiteSpace_not_slug c Hc), IHt. split; [reflexivity|].
    now right. }
  destruct H as [_ [-> | ->]]; reflexivity.
Qed.

Lemma slug_not_blank (s : string) :
  isSlug s = true -> s <> "" -> JsString.trimIsEmpty s = false.
Proof.
  unfold isSlug, JsString.trimIsEmpty. intros H Hne.
  destruct s as [|c r]; [contradiction|].
  cbn [JsString.isEmpty orb slugBody] in H.
  cbn [JsString.allWhiteSpace].
  destruct (Slug.isSlugChar c) eqn:Ec.
  - now rewrite (slugChar_not_whiteSpace c Ec).
  - destruct (Ascii.eqb c "-"); discriminate.
Qed.

Section RegistrationFacts.
Context {P : Platform}.

(** The constructor accepts a registration exactly when the identifier is
    not empty and the base address parses. *)
Lemma validate_propsOf (request : RegisterServiceRequest) :
  if negb (JsString.isEmpty
             (RegistryService.generateServiceId (r_name request)))
     && canParse (r_baseUrl request)
  then Service.validate canParse (propsOf request) = Ok tt
  else exists message,
      Service.validate canParse (propsOf request)
      = Throw (DomainError VALIDATION_ERROR message 400).
Proof.
  unfold Service.validate, Guard.stringNotEmpty, Guard.validUrl.
  cbn [propsOf Service.p_id Service.p_name Service.p_baseUrl].
  pose proof (generateServiceId_isSlug (r_name request)) as Hshape.
  unfold RegistryService.generateServiceId.
  destruct (Slug.generateServiceId (r_name request)) as [|c r] eqn:Eslug.
  - cbn. eexists. reflexivity.
  - cbn [JsString.isEmpty negb andb orb].
    rewrite (slug_not_blank _ Hshape) by discriminate.
    assert (Hname : JsString.isEmpty (r_name request)
                    || JsString.trimIsEmpty (r_name request) = false).
    { apply orb_false_iff.
      assert (Hb : JsString.allWhiteSpace (r_name request) = false).
      { destruct (JsString.allWhiteSpace (r_name request)) eqn:Eb;
          [|reflexivity].
        rewrite (blank_name_empty_slug _ Eb) in Eslug. discriminate. }
      split; [|exact Hb].
      destruct (r_name request); [discriminate Hb|reflexivity]. }
    rewrite Hname.
    destruct (canParse (r_baseUrl request)); [reflexivity|].
    eexists. reflexivity.
Qed.

Lemma registerService_new_exact (request : RegisterServiceRequest)
  (w : World) :
  JsMap.get String.eqb
    (RegistryService.generateServiceId (r_name request)) (services w)
  = None ->
  Service.validate canParse (propsOf request) = Ok tt ->
  let service := builtService request w in
  let w2 := savedWorld request w in
  let event := registeredEvent request (clock (6 + clockReads w)%nat) in
  RegistryService.registerService request w
  = (Ok (Service.toSnapshot
           (Service.updateHealthStatus (checkResult service w2)
              (clock (5 + clockReads w)%nat) service)),
     with_history (pushed event (recentEvents w))
       (deliveries event (subscribersOf event w) ++ invocations w)
       (tick (checkedWorld service w2))).
Proof.
  intros Hget Hv service w2 event.
  unfold RegistryService.registerService.
  unfold bind at 1. unfold Repo.findById at 1, gets. rewrite Hget.
  unfold bind at 1. unfold newService. unfold bind at 1. unfold lift.
  fold (propsOf request). rewrite Hv.
  unfold bind at 1. unfold now at 1.
  unfold bind at 1. unfold now at 1.
  unfold ret at 1.
  unfold bind at 1. unfold Repo.save at 1, modify.
  change (Service.init (propsOf request) (clock (clockReads w))
            (clock (clockReads (tick w)))) with service.
  change (set_services
            (JsMap.set String.eqb (Service.id service) service)
            (tick (tick w))) with w2.
  assert (Hfound : JsMap.get String.eqb
                     (RegistryService.generateServiceId (r_name request))
                     (services w2) = Some service)
    by apply get_set_same.
  unfold bind at 1. unfold tryCatch at 1. unfold bind at 1.
  rewrite (checkServiceHealth_found _ service w2 Hfound).
  unfold ret at 1.
  unfold bind at 1. unfold now at 1.
  unfold bind at 1.
  change (clockReads (checkedWorld service w2))
    with (6 + clockReads w)%nat.
  fold (registeredEvent request (clock (6 + clockReads w)%nat)).
  fold event. rewrite emit_exact.
  unfold bind, RegistryService.current, gets, ret.
  cbn [services with_history tick checkedWorld].
  change (Service.id service)
    with (RegistryService.generateServiceId (r_name request)).
  rewrite get_set_same. reflexivity.
Qed.

End RegistrationFacts.

(** X10. What a registration needs: when the derived identifier is new,
    [registerService] succeeds exactly when that identifier is not empty
    (the name holds a letter or a digit) and the base address parses as a
    URL; otherwise it fails with [VALIDATION_ERROR] (400) and leaves the
    directory, the event history and the network untouched. *)
Theorem registration_validation (P : Platform)
  (request : RegisterServiceRequest) (w : World) :
  JsMap.get String.eqb
    (RegistryService.generateServiceId (r_name request)) (services w)
  = None ->
  if negb (JsString.isEmpty
             (RegistryService.generateServiceId (r_name request)))
     && canParse (r_baseUrl request)
  then exists snapshot w',
      RegistryService.registerService request w = (Ok snapshot, w')
  else exists message,
      RegistryService.registerService request w
      = (Throw (DomainError VALIDATION_ERROR message 400), w).
Proof.
  intros Hget. pose proof (validate_propsOf request) as Hv.
  destruct (negb (JsString.isEmpty
                    (RegistryService.generateServiceId (r_name request)))
            && canParse (r_baseUrl request)).
  - destruct (registerService_new request w Hget Hv) as [calls Hrun].
    eexists _, _. exact Hrun.
  - destruct Hv as [message Hv]. exists message.
    now apply registerService_invalid.
Qed.

Lemma registration_validation_witness :
  (exists message,
      RegistryService.registerService (P := Scenario.scripted [])
        (Scenario.register " !!! " "http://alpha.local") emptyWorld
      = (Throw (DomainError VALIDATION_ERROR message 400), emptyWorld))
  /\ (exists message,
        RegistryService.registerService (P := Scenario.scripted [])
          (Scenario.register "Alpha" "not a url") emptyWorld
        = (Throw (DomainError VALIDATION_ERROR message 400), emptyWorld)).
Proof.
  split.
  - exact (registration_validation (Scenario.scripted [])
             (Scenario.register " !!! " "http://alpha.local") emptyWorld
             eq_refl).
  - exact (registration_validation (Scenario.scripted [])
             (Scenario.register "Alpha" "not a url") emptyWorld eq_refl).
Defined.

(** X11. What is registered can be read back: after a successful
    [registerService], [getService] of the returned identifier returns the
    very snapshot that the registration returned, and changes nothing. *)
Theorem register_then_get (P : Platform) (request : RegisterServiceRequest)
  (w w' : World) (snapshot : Service.Snapshot) :
  wellKeyed w ->
  RegistryService.registerService request w = (Ok snapshot, w') ->
  RegistryService.getService (Service.snap_id snapshot) w'
  = (Ok snapshot, w').
Proof.
  intros Hwf Hrun. unfold RegistryService.getService.
  unfold bind at 1. unfold Repo.findById at 1, gets.
  destruct (JsMap.get String.eqb
              (RegistryService.generateServiceId (r_name request))
              (services w)) as [existing|] eqn:Hget.
  - rewrite (registerService_existing request existing w Hget) in Hrun.
    injection Hrun as <- <-.
    cbn [Service.snap_id Service.toSnapshot refreshed Service.id
           services set_services tick].
    now rewrite get_set_same.
  - destruct (Service.validate canParse (propsOf request)) as [[]|e] eqn:Hv.
    + destruct (registerService_new request w Hget Hv) as [calls Hnew].
      rewrite Hnew in Hrun. injection Hrun as <- <-.
      cbn [services with_history tick checkedWorld].
      change (Service.snap_id _)
        with (Service.id (builtService request w)).
      now rewrite get_set_same.
    + rewrite (registerService_invalid request e w Hget Hv) in Hrun.
      discriminate.
Qed.

Lemma register_then_get_witness :
  exists snapshot w',
    RegistryService.registerService (P := Scenario.scripted [])
      (Scenario.register "Payment Agent" "http://pay.local") emptyWorld
    = (Ok snapshot, w')
    /\ RegistryService.getService "payment-agent" w' = (Ok snapshot, w').
Proof.
  assert (Hrun : exists snapshot w',
             RegistryService.registerService (P := Scenario.scripted [])
               (Scenario.register "Payment Agent" "http://pay.local")
               emptyWorld = (Ok snapshot, w')
             /\ Service.snap_id snapshot = "payment-agent")
    by (vm_compute; eexists _, _; split; reflexivity).
  destruct Hrun as (snapshot & w' & Hrun & Hid).
  exists snapshot, w'. split; [exact Hrun|].
  rewrite <- Hid.
  exact (register_then_get (Scenario.scripted []) _ emptyWorld w' snapshot
           wellKeyed_empty Hrun).
Defined.

(** X12. Deregistration: for a registered identifier, [deregisterService]
    removes that entry and no other, issues no request, and puts one
    [SERVICE_DEREGISTERED] event with the identifier and the name of the
    service into the history; afterwards [getService] and a second
    [deregisterService] fail with [NOT_FOUND] and [heartbeat] does
    nothing. *)
Theorem deregister_removes_entry (P : Platform) (id : string)
  (service : Service.t) (w : World) :
  wellKeyed w ->
  (List.length (recentEvents w) <= 100)%nat ->
  JsMap.get String.eqb id (services w) = Some service ->
  exists w',
    RegistryService.deregisterService id w = (Ok tt, w')
    /\ services w' = JsMap.delete String.eqb id (services w)
    /\ JsMap.get String.eqb id (services w') = None
    /\ (forall id', id' <> id ->
          JsMap.get String.eqb id' (services w')
          = JsMap.get String.eqb id' (services w))
    /\ recentEvents w'
       = firstn 100
           ({| ev_type := SERVICE_DEREGISTERED;
               ev_serviceId := Some id;
               ev_timestamp := clock (clockReads w);
               ev_data :=
                 Some (JObj [("name", JStr (Service.name service))]) |}
            :: recentEvents w)
    /\ requests w' = requests w
    /\ (exists message,
          RegistryService.getService id w'
          = (Throw (DomainError NOT_FOUND message 404), w'))
    /\ (exists message,
          RegistryService.deregisterService id w'
          = (Throw (DomainError NOT_FOUND message 404), w'))
    /\ RegistryService.heartbeat id w' = (Ok tt, w').
Proof.
  intros Hwf Hlen Hget.
  assert (Hgone : JsMap.get String.eqb id
                    (JsMap.delete String.eqb id (services w)) = None)
    by apply (get_delete_same id (services w) (proj2 Hwf)).
  eexists. split.
  - unfold RegistryService.deregisterService.
    unfold bind at 1. unfold Repo.findById at 1, gets. rewrite Hget.
    unfold bind at 1. unfold lift at 1. cbn [Guard.throwIfNull].
    unfold bind at 1. unfold Repo.delete at 1.
    unfold bind at 1. unfold now at 1.
    rewrite emit_exact. reflexivity.
  - cbn [services recentEvents requests with_history tick set_services
           clockReads].
    rewrite pushed_firstn by exact Hlen.
    split; [reflexivity|]. split; [exact Hgone|].
    split; [intros id' Hne; now apply get_delete_other|].
    split; [reflexivity|]. split; [reflexivity|].
    split; [|split].
    + unfold RegistryService.getService.
      unfold bind at 1. unfold Repo.findById at 1, gets.
      cbn [services with_history tick set_services]. rewrite Hgone.
      eexists. reflexivity.
    + unfold RegistryService.deregisterService.
      unfold bind at 1. unfold Repo.findById at 1, gets.
      cbn [services with_history tick set_services]. rewrite Hgone.
      eexists. reflexivity.
    + unfold RegistryService.heartbeat.
      unfold bind at 1. unfold Repo.findById at 1, gets.
      cbn [services with_history tick set_services]. now rewrite Hgone.
Qed.

Lemma deregister_removes_entry_witness :
  exists w',
    RegistryService.deregisterService (P := Scenario.scripted []) "beta"
      Scenario.threeAgents = (Ok tt, w')
    /\ JsMap.keys (services w') = ["alpha"; "gamma"]
    /\ option_map ev_type (hd_error (recentEvents w'))
       = Some SERVICE_DEREGISTERED.
Proof.
  assert (Hget : exists service,
             JsMap.get String.eqb "beta" (services Scenario.threeAgents)
             = Some service)
    by (vm_compute; eexists; reflexivity).
  destruct Hget as [service Hget].
  destruct (deregister_removes_entry (Scenario.scripted []) "beta" service
              Scenario.threeAgents wellKeyed_threeAgents) as
    (w' & Hrun & Hs & _ & _ & He & _); [vm_compute; lia|exact Hget|].
  exists w'. split; [exact Hrun|].
  rewrite Hs, He. split; vm_compute; reflexivity.
Defined.

(** X13. A new registration announces itself: after the health check, one
    [SERVICE_REGISTERED] event with the identifier, the name and the type
    of the service is put first in the history, and every handler
    subscribed to that type, then every all-events handler, is called with
    it once; a handler that rejects does not fail the registration. *)
Theorem registration_is_announced (P : Platform)
  (request : RegisterServiceRequest) (w : World) :
  JsMap.get String.eqb
    (RegistryService.generateServiceId (r_name request)) (services w)
  = None ->
  Service.validate canParse (propsOf request) = Ok tt ->
  (List.length (recentEvents w) <= 100)%nat ->
  let event :=
    {| ev_type := SERVICE_REGISTERED;
       ev_serviceId :=
         Some (RegistryService.generateServiceId (r_name request));
       ev_timestamp := clock (6 + clockReads w)%nat;
       ev_data :=
         Some (JObj [("name", JStr (r_name request));
                     ("type",
                      JStr (ServiceType_value (r_type request)))]) |} in
  exists snapshot w',
    RegistryService.registerService request w = (Ok snapshot, w')
    /\ recentEvents w' = firstn 100 (event :: recentEvents w)
    /\ invocations w'
       = rev (map (fun h => (handler_ref h, event))
                (match JsMap.get EventType_eqb SERVICE_REGISTERED
                         (handlers w) with
                 | Some hs => hs
                 | None => []
                 end ++ allHandlers w))
         ++ invocations w.
Proof.
  intros Hget Hv Hlen event.
  eexists _, _. split; [now apply registerService_new_exact|].
  cbn [recentEvents invocations with_history].
  split; [|reflexivity].
  now apply pushed_firstn.
Qed.

Lemma registration_is_announced_witness :
  let w :=
    snd (EventService.subscribeAll quietHandler
           (snd (EventService.subscribe SERVICE_REGISTERED failingHandler
                   emptyWorld))) in
  exists snapshot w',
    RegistryService.registerService (P := Scenario.scripted [])
      (Scenario.register "Alpha" "http://alpha.local") w = (Ok snapshot, w')
    /\ map fst (invocations w') = [2%nat; 1%nat]
    /\ option_map ev_serviceId (hd_error (recentEvents w'))
       = Some (Some "alpha").
Proof.
  cbn zeta.
  destruct (registration_is_announced (Scenario.scripted [])
              (Scenario.register "Alpha" "http://alpha.local")
              (snd (EventService.subscribeAll quietHandler
                      (snd (EventService.subscribe SERVICE_REGISTERED
                              failingHandler emptyWorld))))
              eq_refl eq_refl)
    as (snapshot & w' & Hrun & He & Hi); [cbn; lia|].
  exists snapshot, w'. split; [exact Hrun|].
  rewrite He, Hi. split; reflexivity.
Defined.

(** X14. The services that [getHealthyServices] lists are those with
    status [HEALTHY], in the order of the directory, and the gateway serves
    every one of them: a proxy request to a listed identifier fails neither
    with [NOT_FOUND] nor with [SERVICE_UNAVAILABLE].  Degraded services,
    which the gateway serves too, are not listed. *)
Theorem healthy_services_are_served (P : Platform) (w : World) :
  wellKeyed w ->
  exists snapshots,
    RegistryService.getHealthyServices w = (Ok snapshots, w)
    /\ snapshots
       = map Service.toSnapshot
           (filter (fun s => ServiceStatus_eqb (Service.status s) HEALTHY)
              (JsMap.values (services w)))
    /\ forall snapshot request,
         In snapshot snapshots ->
         pr_serviceId request = Service.snap_id snapshot ->
         Service.snap_status snapshot = HEALTHY
         /\ match fst (GatewayService.proxy request w) with
            | Ok _ => True
            | Throw e =>
                Errors.codeOf e <> Some NOT_FOUND
                /\ Errors.codeOf e <> Some SERVICE_UNAVAILABLE
            end.
Proof.
  intros Hwf. eexists. split; [reflexivity|]. split; [reflexivity|].
  intros snapshot request Hin Hid.
  apply in_map_iff in Hin. destruct Hin as (s & <- & Hin).
  apply filter_In in Hin. destruct Hin as [Hin Hst].
  assert (Hstatus : Service.status s = HEALTHY)
    by (destruct (Service.status s) eqn:E; try discriminate; reflexivity).
  split; [exact Hstatus|].
  unfold JsMap.values in Hin. apply in_map_iff in Hin.
  destruct Hin as ([k s'] & Hs & Hin). cbn in Hs. subst s'.
  assert (Hk : Service.id s = k).
  { destruct Hwf as [Hk _]. rewrite Forall_forall in Hk.
    exact (Hk _ Hin). }
  assert (Hget : JsMap.get String.eqb (pr_serviceId request) (services w)
                 = Some s).
  { rewrite Hid. cbn [Service.snap_id Service.toSnapshot]. rewrite Hk.
    destruct Hwf as [_ Hnd]. clear - Hin Hnd.
    induction (services w) as [|[k0 s0] r IH]; [contradiction|].
    cbn in *. inversion Hnd as [|? ? Hfresh Hrest]; subst.
    destruct Hin as [Heq|Hin].
    - injection Heq as -> ->. now rewrite String.eqb_refl.
    - destruct (String.eqb_spec k0 k) as [->|]; [|now apply IH].
      exfalso. apply Hfresh. apply in_map_iff. now exists (k, s). }
  apply (proxy_available request s w Hget).
  apply isAvailable_status. now left.
Qed.

Lemma healthy_services_are_served_witness :
  exists snapshots,
    RegistryService.getHealthyServices Scenario.threeAgents
    = (Ok snapshots, Scenario.threeAgents)
    /\ map Service.snap_id snapshots = ["alpha"; "beta"; "gamma"].
Proof.
  destruct (healthy_services_are_served (Scenario.scripted [])
              Scenario.threeAgents wellKeyed_threeAgents)
    as (snapshots & Hrun & Hs & _).
  exists snapshots. split; [exact Hrun|]. rewrite Hs. reflexivity.
Defined.

(** ** Forwarding by the gateway *)


(** X15. Failed calls: when the call of an available service is aborted by
    its timeout, [proxy] fails with [GATEWAY_TIMEOUT] (504); any other
    rejection of the call is thrown on as it is.  In both cases one request
    went out and the directory is untouched: the last-seen time of the
    service is not refreshed. *)
Theorem proxy_failure_is_reported (P : Platform) (request : ProxyRequest)
  (s : Service.t) (address name message : string) (w : World) :
  JsMap.get String.eqb (pr_serviceId request) (services w) = Some s ->
  Service.isAvailable s = true ->
  destination request (Service.baseUrl s) = Some address ->
  fetch (List.length (requests w)) (outbound request address)
  = Rejected name message ->
  exists w',
    GatewayService.proxy request w
    = (Throw
         (if String.eqb name "AbortError"
          then DomainError GATEWAY_TIMEOUT
                 ("Request to service '" ++ pr_serviceId request
                  ++ "' timed out") 504
          else JsError name message), w')
    /\ services w' = services w
    /\ requests w' = outbound request address :: requests w
    /\ fr_url (outbound request address) = address.
Proof.
  intros Hget Hav Hdest Hfetch.
  eexists. split.
  - rewrite (proxy_forward request s address w Hget Hav Hdest).
    cbn zeta. rewrite Hfetch. reflexivity.
  - repeat split.
Qed.

Lemma proxy_failure_is_reported_witness :
  exists w',
    GatewayService.proxy (P := hanging)
      (billingRequest "GET" "/invoices" None) Scenario.billingWorld
    = (Throw (DomainError GATEWAY_TIMEOUT
                "Request to service 'billing' timed out" 504), w')
    /\ services w' = services Scenario.billingWorld.
Proof.
  destruct (proxy_failure_is_reported hanging
              (billingRequest "GET" "/invoices" None) billing
              "http://svc.local:3000/invoices" "AbortError"
              "This operation was aborted" Scenario.billingWorld
              eq_refl eq_refl eq_refl eq_refl)
    as (w' & Hrun & Hs & _).
  exists w'. split; [exact Hrun|exact Hs].
Defined.

(** X16. Answered calls: whatever status the service answers with, also
    4xx and 5xx, [proxy] returns it, with the headers of the response and
    its body: the parsed document when the content type names
    [application/json], the text otherwise.  The last-seen time of the
    service is then set to the present time; its other fields and the
    other entries are unchanged.  When reading the body fails (a JSON body
    that does not parse), [proxy] throws the very error that the reading
    threw, with its name and its message, or [GATEWAY_TIMEOUT] when that
    error is an [AbortError]; the service is then not touched. *)
Theorem proxy_relays_response (P : Platform) (request : ProxyRequest)
  (s : Service.t) (address : string) (r : Response) (w : World) :
  wellKeyed w ->
  JsMap.get String.eqb (pr_serviceId request) (services w) = Some s ->
  Service.isAvailable s = true ->
  destination request (Service.baseUrl s) = Some address ->
  fetch (List.length (requests w)) (outbound request address)
  = Responded r ->
  match relayedBody r with
  | Ok body =>
      exists response w',
        GatewayService.proxy request w = (Ok response, w')
        /\ prx_status response = resp_status r
        /\ prx_body response = body
        /\ (NoDup (map fst (resp_headers r)) ->
            prx_headers response = resp_headers r)
        /\ JsMap.get String.eqb (pr_serviceId request) (services w')
           = Some (refreshed s (clock (2 + clockReads w)%nat))
        /\ (forall id, id <> pr_serviceId request ->
              JsMap.get String.eqb id (services w')
              = JsMap.get String.eqb id (services w))
  | Throw e =>
      exists w',
        GatewayService.proxy request w
        = (Throw (if Errors.isAbortError e
                  then Errors.gatewayTimeout (pr_serviceId request)
                  else e), w')
        /\ services w' = services w
        /\ requests w' = outbound request address :: requests w
  end
  /\ (forall e,
        relayedBody r = Throw e
        <-> exists name message,
              e = JsError name message
              /\ match Js.lookup "content-type" (resp_headers r) with
                 | Some contentType =>
                     if GatewayService.includes "application/json"
                          contentType
                     then resp_json r = Unread name message
                     else resp_text r = Unread name message
                 | None => resp_text r = Unread name message
                 end).
Proof.
  intros Hwf Hget Hav Hdest Hfetch.
  pose proof (proxy_forward request s address w Hget Hav Hdest) as Hrun.
  cbn zeta in Hrun. rewrite Hfetch in Hrun.
  pose proof (wellKeyed_get w _ s Hwf Hget) as Hid.
  split.
  - destruct (relayedBody r) as [body|e].
    + eexists _, _. split; [exact Hrun|].
      cbn [prx_status prx_body prx_headers services afterCall].
      rewrite Hid. split; [reflexivity|]. split; [reflexivity|].
      split; [|split].
      * intros Hnd. unfold GatewayService.assign.
        now rewrite (set_all_fresh (resp_headers r) []).
      * apply get_set_same.
      * intros id Hne. now apply get_set_other.
    + eexists. split; [exact Hrun|]. split; reflexivity.
  - intros e. unfold relayedBody, textBody.
    destruct (Js.lookup "content-type" (resp_headers r)) as [ct|];
      [destruct (GatewayService.includes "application/json" ct)|];
      [destruct (resp_json r) as [v|bn bm]
      |destruct (resp_text r) as [v|bn bm]
      |destruct (resp_text r) as [v|bn bm]];
      cbn [reading];
      first
        [ split;
          [ intros [= <-]; now exists bn, bm
          | intros (name & message & -> & [= -> ->]); reflexivity ]
        | split; [discriminate|intros (? & ? & _ & [=])] ].
Qed.

Lemma proxy_relays_response_witness :
  exists response w',
    GatewayService.proxy (P := answering 503)
      (billingRequest "GET" "/invoices" None) Scenario.billingWorld
    = (Ok response, w')
    /\ prx_status response = 503
    /\ prx_body response = JStr ""
    /\ option_map Service.lastSeenAt
         (JsMap.get String.eqb "billing" (services w')) = Some 1009.
Proof.
  destruct (proxy_relays_response (answering 503)
              (billingRequest "GET" "/invoices" None) billing
              "http://svc.local:3000/invoices"
              {| resp_status := 503; resp_headers := []; resp_text := Read "";
                 resp_json :=
                   Unread "SyntaxError" "Unexpected end of JSON input" |}
              Scenario.billingWorld wellKeyed_billingWorld
              eq_refl eq_refl eq_refl eq_refl)
    as ((response & w' & Hrun & Hst & Hb & _ & Hs & _) & _).
  exists response, w'. repeat split; try assumption.
  change (JsMap.get String.eqb "billing" (services w')
          = Some (refreshed billing 1009)) in Hs.
  now rewrite Hs.
Defined.

Lemma assign_other (k : string) (entries acc : list (string * string)) :
  ~ In k (map fst entries) ->
  JsMap.get String.eqb k (GatewayService.assign entries acc)
  = JsMap.get String.eqb k acc.
Proof.
  unfold GatewayService.assign. revert acc.
  induction entries as [|[k0 v0] rest IH]; intros acc Hn; [reflexivity|].
  cbn [fold_left fst snd]. cbn in Hn.
  rewrite IH by tauto. apply get_set_other. intros ->. tauto.
Qed.

Lemma assign_given (k v : string) (entries acc : list (string * string)) :
  NoDup (map fst entries) -> In (k, v) entries ->
  JsMap.get String.eqb k (GatewayService.assign entries acc) = Some v.
Proof.
  unfold GatewayService.assign. revert acc.
  induction entries as [|[k0 v0] rest IH]; intros acc Hnd Hin;
    [contradiction|].
  cbn [fold_left fst snd]. cbn in Hnd. inversion Hnd; subst.
  destruct Hin as [[= -> ->]|Hin].
  - fold (GatewayService.assign rest (JsMap.set String.eqb k v acc)).
    rewrite assign_other by assumption. apply get_set_same.
  - now apply IH.
Qed.

(** X17. The outbound request: for an available service whose address can
    be built, [proxy] sends one request to that address with the method of
    the caller.  The timeout is the one of the caller, and 30000 ms when it
    is left out or zero.  A body goes out only when the caller gave one
    that is not falsy and the method is [POST], [PUT] or [PATCH] in upper
    case.  Every header of the caller goes out with its value, also in
    place of a default; [Content-Type: application/json] and
    [X-Forwarded-By: overlord-api] go out unless the caller gave a header
    of exactly that name. *)
Theorem proxy_builds_request (P : Platform) (request : ProxyRequest)
  (s : Service.t) (address : string) (w : World) :
  JsMap.get String.eqb (pr_serviceId request) (services w) = Some s ->
  Service.isAvailable s = true ->
  destination request (Service.baseUrl s) = Some address ->
  NoDup (map fst (Js.orElse (pr_headers request) [])) ->
  exists sent,
    requests (snd (GatewayService.proxy request w)) = sent :: requests w
    /\ fr_url sent = address
    /\ fr_method sent = pr_method request
    /\ fr_timeoutMs sent
       = match pr_timeout request with
         | Some 0 | None => 30000
         | Some t => t
         end
    /\ (forall b, fr_body sent = Some b <->
          pr_body request = Some b /\ Js.truthy b = true
          /\ In (pr_method request) ["POST"; "PUT"; "PATCH"])
    /\ (forall k v, In (k, v) (Js.orElse (pr_headers request) []) ->
          JsMap.get String.eqb k (fr_headers sent) = Some v)
    /\ (forall k, ~ In k (map fst (Js.orElse (pr_headers request) [])) ->
          JsMap.get String.eqb k (fr_headers sent)
          = JsMap.get String.eqb k
              [("Content-Type", "application/json");
               ("X-Forwarded-By", "overlord-api")]).
Proof.
  intros Hget Hav Hdest Hnd.
  exists (outbound request address).
  rewrite (proxy_forward request s address w Hget Hav Hdest). cbn zeta.
  split.
  { destruct (fetch _ _) as [r|name message]; [|reflexivity].
    destruct (relayedBody r); reflexivity. }
  split; [reflexivity|]. split; [reflexivity|].
  split.
  { cbn [outbound fr_timeoutMs]. unfold COMMAND_TIMEOUT_MS.
    destruct (pr_timeout request) as [t|]; [|reflexivity].
    destruct (Z.eqb_spec t 0) as [->|Hne]; [reflexivity|].
    destruct t; [contradiction|reflexivity|reflexivity]. }
  split.
  { intros b. cbn [outbound fr_body].
    assert (Hin : JsArray.includes (pr_method request)
                    ["POST"; "PUT"; "PATCH"] = true
                  <-> In (pr_method request) ["POST"; "PUT"; "PATCH"]).
    { unfold JsArray.includes. rewrite existsb_exists. split.
      - intros (x & Hx & He). apply String.eqb_eq in He. now subst.
      - intros Hx. exists (pr_method request). split; [exact Hx|].
        apply String.eqb_refl. }
    destruct (pr_body request) as [b0|].
    - destruct (Js.truthy b0) eqn:Et;
        destruct (JsArray.includes (pr_method request)
                    ["POST"; "PUT"; "PATCH"]) eqn:Ei; cbn [andb].
      + split.
        * intros [= <-]. repeat split; [exact Et|now apply Hin].
        * intros ([= <-] & _). reflexivity.
      + split; [discriminate|]. intros (_ & _ & Hm).
        apply Hin in Hm. discriminate.
      + split; [discriminate|]. intros ([= <-] & Ht & _). congruence.
      + split; [discriminate|]. intros ([= <-] & Ht & _). congruence.
    - split; [discriminate|]. intros (Hb & _). discriminate. }
  split.
  - intros k v Hin. cbn [outbound fr_headers]. now apply assign_given.
  - intros k Hk. cbn [outbound fr_headers]. now apply assign_other.
Qed.

Lemma proxy_builds_request_witness :
  exists sent,
    requests
      (snd (GatewayService.proxy (P := Scenario.scripted [])
              (billingRequest "post" "/invoices" (Some (JObj [])))
              Scenario.billingWorld))
    = sent :: requests Scenario.billingWorld
    /\ fr_body sent = None
    /\ fr_timeoutMs sent = 30000.
Proof.
  destruct (proxy_builds_request (Scenario.scripted [])
              (billingRequest "post" "/invoices" (Some (JObj []))) billing
              "http://svc.local:3000/invoices" Scenario.billingWorld
              eq_refl eq_refl eq_refl (NoDup_nil _))
    as (sent & Hreq & _ & _ & Ht & Hb & _).
  exists sent. split; [exact Hreq|]. split; [|exact Ht].
  destruct (fr_body sent) as [b|]; [|reflexivity].
  destruct (proj1 (Hb b) eq_refl) as (_ & _ & Hm). cbn in Hm.
  destruct Hm as [Hm|[Hm|[Hm|[]]]]; discriminate.
Defined.

(** X18. Dispatching a command: [dispatchCommand] posts the parameters to
    [/commands/<command>] of the service.  When the service answers with a
    status below 400 the body of the answer is returned; when it answers
    with 400 or more the call fails with [COMMAND_DISPATCH_FAILED] carrying
    that status.  Either way the service has answered, and its last-seen
    time is refreshed. *)
Theorem dispatch_reports_status (P : Platform) (id command : string)
  (params : option JsValue) (s : Service.t) (address : string)
  (r : Response) (body : JsValue) (w : World) :
  wellKeyed w ->
  JsMap.get String.eqb id (services w) = Some s ->
  Service.isAvailable s = true ->
  destination (commandRequest id command params) (Service.baseUrl s)
  = Some address ->
  fetch (List.length (requests w))
    (outbound (commandRequest id command params) address) = Responded r ->
  relayedBody r = Ok body ->
  exists w',
    GatewayService.dispatchCommand id command params w
    = (if 400 <=? resp_status r
       then Throw (DomainError COMMAND_DISPATCH_FAILED
                     ("Command '" ++ command ++ "' failed with status "
                      ++ JsString.ofZ (resp_status r))
                     (resp_status r))
       else Ok body, w')
    /\ hd_error (requests w')
       = Some (outbound (commandRequest id command params) address)
    /\ fr_method (outbound (commandRequest id command params) address)
       = "POST"
    /\ JsMap.get String.eqb id (services w')
       = Some (refreshed s (clock (2 + clockReads w)%nat)).
Proof.
  intros Hwf Hget Hav Hdest Hfetch Hbody.
  pose proof (proxy_forward (commandRequest id command params) s address w
                Hget Hav Hdest) as Hrun.
  cbn zeta in Hrun. rewrite Hfetch, Hbody in Hrun.
  pose proof (wellKeyed_get w _ s Hwf Hget) as Hid.
  eexists. split.
  - unfold GatewayService.dispatchCommand.
    fold (commandRequest id command params).
    unfold bind. rewrite Hrun. cbn [prx_status prx_body].
    destruct (400 <=? resp_status r); reflexivity.
  - cbn [requests services afterCall hd_error].
    split; [reflexivity|]. split; [reflexivity|].
    rewrite Hid. apply get_set_same.
Qed.

Lemma dispatch_reports_status_witness :
  exists w',
    GatewayService.dispatchCommand (P := answering 404) "billing" "rebuild"
      None Scenario.billingWorld
    = (Throw (DomainError COMMAND_DISPATCH_FAILED
                "Command 'rebuild' failed with status 404" 404), w')
    /\ option_map fr_url (hd_error (requests w'))
       = Some "http://svc.local:3000/commands/rebuild".
Proof.
  destruct (dispatch_reports_status (answering 404) "billing" "rebuild" None
              billing "http://svc.local:3000/commands/rebuild"
              {| resp_status := 404; resp_headers := []; resp_text := Read "";
                 resp_json :=
                   Unread "SyntaxError" "Unexpected end of JSON input" |}
              (JStr "") Scenario.billingWorld wellKeyed_billingWorld
              eq_refl eq_refl eq_refl eq_refl eq_refl)
    as (w' & Hrun & Hreq & _).
  exists w'. split; [exact Hrun|]. now rewrite Hreq.
Defined.

Section FrameFacts.
Context {P : Platform}.

(** What [proxy] leaves alone, and the one request it may add. *)
Lemma proxy_frame (request : ProxyRequest) (w : World) :
  let w' := snd (GatewayService.proxy request w) in
  recentEvents w' = recentEvents w
  /\ handlers w' = handlers w
  /\ allHandlers w' = allHandlers w
  /\ invocations w' = invocations w
  /\ (List.length (requests w') <= S (List.length (requests w)))%nat.
Proof.
  cbn zeta.
  remember (GatewayService.proxy request w) as res eqn:Hres.
  unfold GatewayService.proxy in Hres.
  unfold bind at 1 in Hres. unfold Repo.findById at 1, gets in Hres.
  destruct (JsMap.get String.eqb (pr_serviceId request) (services w))
    as [s|]; [|subst res; cbn; repeat split; lia].
  unfold bind at 1 in Hres. unfold lift at 1 in Hres.
  cbn [Guard.throwIfNull] in Hres.
  destruct (Service.isAvailable s); cbn [negb] in Hres;
    [|subst res; cbn; repeat split; lia].
  unfold bind at 1 in Hres. unfold newURL in Hres.
  destruct (URL_new (pr_path request) (Some (Service.baseUrl s))) as [url|];
    [|subst res; cbn; repeat split; lia].
  unfold ret at 1 in Hres.
  unfold bind at 1 in Hres. unfold now at 1 in Hres.
  unfold tryCatch in Hres. unfold bind at 1 in Hres. unfold doFetch in Hres.
  destruct (fetch _ _) as [r|name message].
  - unfold bind at 1 in Hres. unfold now at 1 in Hres.
    unfold bind at 1 in Hres.
    destruct (Js.lookup "content-type" (resp_headers r)) as [ct|];
      [destruct (GatewayService.includes "application/json" ct);
       [destruct (resp_json r) as [?|bn ?]|destruct (resp_text r) as [?|bn ?]]
      |destruct (resp_text r) as [?|bn ?]];
      cbn in Hres; try destruct (String.eqb bn "AbortError");
      cbn in Hres; subst res; cbn; repeat split; lia.
  - cbn in Hres. destruct (String.eqb name "AbortError");
      cbn in Hres; subst res; cbn; repeat split; lia.
Qed.

End FrameFacts.

Section SparingFacts.
Context {P : Platform}.
Variable message : JsValue.

Lemma sparingRun_resumed (w0 : World) :
  forall pre service leg post results w,
    sparingRun w0 (pre ++ (service, leg) :: post) results w ->
    sparingRun w0
      (pre ++ (service, fst (fst (resumed service leg results w))) :: post)
      (snd (fst (resumed service leg results w)))
      (snd (resumed service leg results w)).
Proof.
  intros pre service leg post results w (He & Hh & Ha & Hi & Hr & _).
  assert (Hgoal :
            forall leg' results' w',
              recentEvents w' = recentEvents w ->
              handlers w' = handlers w ->
              allHandlers w' = allHandlers w ->
              invocations w' = invocations w ->
              requests w' = requests w ->
              sparingRun w0 (pre ++ (service, leg') :: post) results' w').
  { intros leg' results' w' He' Hh' Ha' Hi' Hr'.
    rewrite length_app in Hr. cbn [List.length] in Hr.
    unfold sparingRun. rewrite He', Hh', Ha', Hi', Hr', length_app.
    cbn [List.length].
    split; [exact He|]. split; [exact Hh|]. split; [exact Ha|].
    split; [exact Hi|]. split; [exact Hr|].
    intros Hnil. now destruct pre. }
  destruct leg as [sent|answered|]; cbn [resumed].
  - destruct (GatewayService.sent_outcome sent) as [r|name text];
      cbn [fst snd]; now apply Hgoal.
  - destruct (relayedBody (GatewayService.ans_response answered));
      cbn [fst snd]; now apply Hgoal.
  - cbn [fst snd]. now apply Hgoal.
Qed.

Lemma sparingRun_started (w0 : World) :
  forall done service results w,
    sparingRun w0 done results w ->
    sparingRun w0
      (done ++ [(service, fst (fst (started message service results w)))])
      (snd (fst (started message service results w)))
      (snd (started message service results w)).
Proof.
  intros done service results w (He & Hh & Ha & Hi & Hr & _).
  unfold started.
  pose proof (proxySend_cases
                (GatewayService.broadcastRequest service message) w) as Hc.
  destruct (GatewayService.proxySend _ w) as [[sent|e] w']; cbn [fst snd].
  - destruct Hc as (address & _ & _ & _ & ->).
    unfold sparingRun. rewrite length_app.
    cbn [List.length recentEvents handlers allHandlers invocations requests
         log_request tick].
    split; [exact He|]. split; [exact Hh|]. split; [exact Ha|].
    split; [exact Hi|]. split; [lia|].
    intros Hnil. now destruct done.
  - subst w'. unfold sparingRun. rewrite length_app. cbn [List.length].
    split; [exact He|]. split; [exact Hh|]. split; [exact Ha|].
    split; [exact Hi|]. split; [lia|].
    intros Hnil. now destruct done.
Qed.

(** A broadcast never fails, leaves the event bus alone and sends at most
    as many requests as it has targets. *)
Lemma broadcast_sparing (serviceType : string) (w : World) :
  exists results w',
    GatewayService.broadcast serviceType message w = (Ok results, w')
    /\ recentEvents w' = recentEvents w
    /\ handlers w' = handlers w
    /\ allHandlers w' = allHandlers w
    /\ invocations w' = invocations w
    /\ (List.length (requests w')
        <= List.length (requests w)
           + List.length (targetsOf serviceType w))%nat
    /\ (targetsOf serviceType w = [] -> results = [] /\ w' = w).
Proof.
  destruct (broadcastLegs_kept message (sparingRun w)
              (sparingRun_resumed w)
              (targetsOf serviceType w)
              (fun done service rest results w1 _ =>
                 sparingRun_started w done service results w1)
              serviceType w eq_refl)
    as (legs & results & w' & _ & Hrun & Hfst & _ & Hs).
  { unfold sparingRun. cbn [List.length]. split; [reflexivity|].
    split; [reflexivity|]. split; [reflexivity|]. split; [reflexivity|].
    split; [lia|]. now intros _. }
  destruct Hs as (He & Hh & Ha & Hi & Hr & Hnone).
  exists results, w'. split; [exact Hrun|].
  split; [exact He|]. split; [exact Hh|]. split; [exact Ha|].
  split; [exact Hi|].
  split.
  - rewrite <- Hfst, length_map. exact Hr.
  - intros Hnil. apply Hnone. rewrite Hnil in Hfst. now destruct legs.
Qed.

Lemma legRequests_each (targets : list Service.t) :
  legRequests message targets
  = flat_map
      (fun s =>
         match legAddress message s with
         | Some address => [legRequest message s address]
         | None => []
         end)
      targets.
Proof.
  induction targets as [|s rest IH]; [reflexivity|].
  cbn [legRequests flat_map]. rewrite IH.
  now destruct (legAddress message s).
Qed.

Lemma no_targets_of_unknown_type (serviceType : string) (w : World) :
  ~ In serviceType ["agent"; "web_app"; "mobile_app"; "api"] ->
  targetsOf serviceType w = [].
Proof.
  intros Hty. unfold targetsOf.
  induction (JsMap.values (services w)) as [|s r IH]; [reflexivity|].
  cbn [filter].
  destruct (String.eqb_spec (ServiceType_value (Service.type s))
              serviceType) as [Heq|Hne]; [|exact IH].
  exfalso. apply Hty. rewrite <- Heq.
  destruct (Service.type s); cbn; tauto.
Qed.

End SparingFacts.

(** X19. A broadcast never fails and touches neither the event history
    nor the subscriptions, by type or to all events, nor calls a handler.
    It sends no more requests than it has targets; in a well-keyed
    directory it sends, in the order of the targets, exactly one request
    to every target whose address can be built and none to the others.
    Over a type without a healthy or degraded service, and so over any
    string that names no service type, it returns the empty map and
    changes nothing. *)
Theorem broadcast_sends_at_most_once (P : Platform) (serviceType : string)
  (message : JsValue) (w : World) :
  exists results w',
    GatewayService.broadcast serviceType message w = (Ok results, w')
    /\ (List.length (requests w')
        <= List.length (requests w)
           + List.length (targetsOf serviceType w))%nat
    /\ recentEvents w' = recentEvents w
    /\ handlers w' = handlers w
    /\ allHandlers w' = allHandlers w
    /\ invocations w' = invocations w
    /\ (targetsOf serviceType w = [] -> results = [] /\ w' = w)
    /\ (~ In serviceType ["agent"; "web_app"; "mobile_app"; "api"] ->
        targetsOf serviceType w = [])
    /\ (wellKeyed w ->
        requests w'
        = (rev (flat_map
                  (fun s =>
                     match legAddress message s with
                     | Some address => [legRequest message s address]
                     | None => []
                     end)
                  (targetsOf serviceType w))
             ++ requests w)%list).
Proof.
  destruct (broadcast_sparing message serviceType w)
    as (results & w' & Hrun & He & Hh & Ha & Hi & Hr & Hnone).
  exists results, w'. split; [exact Hrun|].
  split; [exact Hr|]. split; [exact He|]. split; [exact Hh|].
  split; [exact Ha|]. split; [exact Hi|]. split; [exact Hnone|].
  split; [apply no_targets_of_unknown_type|].
  intros Hwf.
  destruct (broadcast_traced message serviceType w Hwf)
    as (legs & results1 & w1 & _ & Hrun1 & _ & _ & Hreq & _).
  rewrite Hrun in Hrun1. injection Hrun1 as _ <-.
  now rewrite <- legRequests_each.
Qed.

(** Three targets of which the second cannot be reached: three requests,
    one to each, the last one first in the log, ahead of the three health
    checks of the registrations. *)
Lemma broadcast_sends_at_most_once_witness :
  map fr_url
    (requests
       (snd (GatewayService.broadcast (P := outOfOrder) "agent" (JObj [])
               Scenario.threeAgents)))
  = ["http://gamma.local/broadcast"; "http://beta.local/broadcast";
     "http://alpha.local/broadcast"; "http://gamma.local/health";
     "http://beta.local/health"; "http://alpha.local/health"]
  /\ map fr_method
       (requests
          (snd (GatewayService.broadcast (P := outOfOrder) "agent" (JObj [])
                  Scenario.threeAgents)))
     = ["POST"; "POST"; "POST"; "GET"; "GET"; "GET"].
Proof.
  destruct (broadcast_sends_at_most_once outOfOrder "agent" (JObj [])
              Scenario.threeAgents)
    as (results & w' & Hrun & _ & _ & _ & _ & _ & _ & _ & Hreq).
  rewrite Hrun. cbn [snd]. rewrite (Hreq wellKeyed_threeAgents).
  split; vm_compute; reflexivity.
Defined.

(** ** Checks and sweeps *)


(** X20. Checking an identifier that the directory does not hold gives
    the status [UNKNOWN] with the message "Service not found" and a
    response time of zero.  No request is sent, nothing is stored, and no
    cached result can be read for the identifier afterwards. *)
Theorem check_of_unknown_service (P : Platform) (id : string) (w : World) :
  JsMap.get String.eqb id (services w) = None ->
  exists w',
    HealthService.checkServiceHealth id w
    = (Ok {| hc_status := UNKNOWN;
             hc_timestamp := clock (clockReads w);
             hc_responseTimeMs := 0;
             hc_details :=
               Some (JObj [("error", JStr "Service not found")]) |}, w')
    /\ services w' = services w
    /\ requests w' = requests w
    /\ HealthService.getServiceHealth id w' = (Ok None, w').
Proof.
  intros Hget. eexists. split.
  - unfold HealthService.checkServiceHealth.
    unfold bind at 1. unfold Repo.findById at 1, gets. rewrite Hget.
    reflexivity.
  - cbn [services requests tick]. repeat split.
    unfold HealthService.getServiceHealth.
    unfold bind at 1. unfold Repo.findById at 1, gets.
    cbn [services tick]. now rewrite Hget.
Qed.

Lemma check_of_unknown_service_witness :
  exists result w',
    HealthService.checkServiceHealth (P := Scenario.scripted []) "ghost"
      Scenario.billingWorld = (Ok result, w')
    /\ hc_status result = UNKNOWN
    /\ requests w' = requests Scenario.billingWorld.
Proof.
  destruct (check_of_unknown_service (Scenario.scripted []) "ghost"
              Scenario.billingWorld eq_refl) as (w' & Hrun & _ & Hreq & _).
  eexists _, w'. split; [exact Hrun|]. split; [reflexivity|exact Hreq].
Defined.

(** X21. The result of a check is the one cached: after
    [checkServiceHealth] of a registered service, [getServiceHealth] of
    the same identifier returns the result that the check returned, and the
    cached results of the other services are as before. *)
Theorem check_then_read_cached (P : Platform) (id : string)
  (service : Service.t) (w : World) :
  wellKeyed w ->
  JsMap.get String.eqb id (services w) = Some service ->
  exists result w',
    HealthService.checkServiceHealth id w = (Ok result, w')
    /\ HealthService.getServiceHealth id w' = (Ok (Some result), w')
    /\ forall id', id' <> id ->
         fst (HealthService.getServiceHealth id' w')
         = fst (HealthService.getServiceHealth id' w).
Proof.
  intros Hwf Hget.
  pose proof (wellKeyed_get w id service Hwf Hget) as Hid. subst id.
  exists (checkResult service w), (checkedWorld service w).
  split; [now apply checkServiceHealth_found|].
  unfold HealthService.getServiceHealth, bind, Repo.findById, gets, ret.
  cbn [services checkedWorld fst]. rewrite get_set_same.
  split; [reflexivity|].
  intros id' Hne. now rewrite get_set_other.
Qed.

Lemma check_then_read_cached_witness :
  exists result w',
    HealthService.checkServiceHealth (P := answering 500) "billing"
      Scenario.billingWorld = (Ok result, w')
    /\ HealthService.getServiceHealth "billing" w' = (Ok (Some result), w').
Proof.
  destruct (check_then_read_cached (answering 500) "billing" billing
              Scenario.billingWorld wellKeyed_billingWorld eq_refl)
    as (result & w' & Hrun & Hread & _).
  now exists result, w'.
Defined.

(** X22. A sweep checks every service once: [checkAllServices] never
    fails; it sends one request per entry of the directory, to the health
    address of that entry and in the order of the directory; it lists one
    detail per entry, with the status that is stored for the entry when
    the sweep ends; it adds and removes no entry and leaves the event
    history alone. *)
Theorem sweep_checks_every_service (P : Platform) (w : World) :
  wellKeyed w ->
  exists a w',
    HealthService.checkAllServices w = (Ok a, w')
    /\ requests w'
       = rev (map healthRequest (JsMap.values (services w))) ++ requests w
    /\ map d_serviceId (agg_details a) = JsMap.keys (services w)
    /\ map d_status (agg_details a)
       = map Service.status (JsMap.values (services w'))
    /\ JsMap.keys (services w') = JsMap.keys (services w)
    /\ recentEvents w' = recentEvents w
    /\ wellKeyed w'.
Proof.
  intros Hwf.
  destruct (sweep_run w Hwf)
    as (a & w' & Hrun & Hk & Hwf' & Hreq & Hev & Hd & Hi & _).
  exists a, w'.
  split; [exact Hrun|]. split; [exact Hreq|]. split; [exact Hi|].
  split; [exact Hd|]. split; [exact Hk|]. split; [exact Hev|exact Hwf'].
Qed.

Lemma sweep_checks_every_service_witness :
  exists a w',
    HealthService.checkAllServices (P := betaDown) Scenario.threeAgents
    = (Ok a, w')
    /\ map fr_url (firstn 3 (requests w'))
       = ["http://gamma.local/health"; "http://beta.local/health";
          "http://alpha.local/health"]
    /\ map d_status (agg_details a) = [HEALTHY; UNHEALTHY; HEALTHY]
    /\ agg_status a = DEGRADED.
Proof.
  destruct (sweep_checks_every_service betaDown Scenario.threeAgents
              wellKeyed_threeAgents)
    as (a & w' & Hrun & Hreq & _).
  exists a, w'. split; [exact Hrun|].
  rewrite Hreq. split; [reflexivity|].
  vm_compute in Hrun. injection Hrun as <- _. split; reflexivity.
Defined.

(** X23. The cached summary agrees with the sweep: after
    [checkAllServices], [getAggregatedHealth] reports the same overall
    status, the same counts and the same status for every service as the
    sweep did, without sending a request. *)
Theorem cached_summary_agrees_with_sweep (P : Platform) (w w' : World)
  (a : AggregatedHealth) :
  wellKeyed w ->
  HealthService.checkAllServices w = (Ok a, w') ->
  exists a',
    HealthService.getAggregatedHealth w' = (Ok a', tick w')
    /\ agg_status a' = agg_status a
    /\ agg_services a' = agg_services a
    /\ map d_status (agg_details a') = map d_status (agg_details a)
    /\ map d_serviceId (agg_details a') = map d_serviceId (agg_details a).
Proof.
  intros Hwf Hrun.
  destruct (sweep_run w Hwf)
    as (a0 & w0 & Hrun0 & Hk & Hwf' & _ & _ & Hd & Hi & Hc & Hs & _).
  rewrite Hrun in Hrun0. injection Hrun0 as <- <-.
  destruct (cached_run w') as (a' & Hrun' & Hi' & Hd' & Hc' & Hs').
  assert (Hlen : List.length (services w') = List.length (services w)).
  { rewrite <- (length_map fst (services w')), <- (length_map fst (services w)).
    change (map fst (services w')) with (JsMap.keys (services w')).
    change (map fst (services w)) with (JsMap.keys (services w)).
    now rewrite Hk. }
  exists a'. split; [exact Hrun'|].
  rewrite Hs', Hc', Hd', Hi', Hs, Hc, Hd, Hi, Hlen.
  split; [reflexivity|]. split; [reflexivity|]. split; [reflexivity|].
  now rewrite (wellKeyed_ids w' Hwf'), Hk.
Qed.

Lemma cached_summary_agrees_with_sweep_witness :
  exists a a' w',
    HealthService.checkAllServices (P := betaDown) Scenario.threeAgents
    = (Ok a, w')
    /\ HealthService.getAggregatedHealth (P := betaDown) w'
       = (Ok a', tick w')
    /\ agg_status a' = agg_status a
    /\ agg_services a' = agg_services a.
Proof.
  remember (HealthService.checkAllServices (P := betaDown)
              Scenario.threeAgents) as res eqn:Hrun.
  symmetry in Hrun.
  destruct res as [[a|e] w']; [|vm_compute in Hrun; discriminate Hrun].
  destruct (cached_summary_agrees_with_sweep betaDown Scenario.threeAgents
              w' a wellKeyed_threeAgents Hrun)
    as (a' & Hread & Hs & Hc & _).
  exists a, a', w'.
  split; [reflexivity|]. split; [exact Hread|]. split; [exact Hs|exact Hc].
Defined.

(** ** Runs of calls *)

Section RunFacts.
Context {P : Platform}.

Lemma get_keys (k : string) (s : Service.t) (m : JsMap.t string Service.t) :
  JsMap.get String.eqb k m = Some s -> In k (JsMap.keys m).
Proof.
  intros Hget. apply get_in in Hget. now apply (in_map fst) in Hget.
Qed.

Lemma stored_id_is_key (w : World) (k : string) (s : Service.t) :
  wellKeyed w ->
  JsMap.get String.eqb k (services w) = Some s ->
  In (Service.id s) (JsMap.keys (services w)).
Proof.
  intros Hwf Hget. rewrite (wellKeyed_get w k s Hwf Hget).
  exact (get_keys k s _ Hget).
Qed.

Lemma keys_frame (w w' : World) :
  services w' = services w ->
  JsMap.keys (services w') = JsMap.keys (services w).
Proof. now intros ->. Qed.

Lemma keys_write (w w' : World) (s : Service.t) :
  services w' = JsMap.set String.eqb (Service.id s) s (services w) ->
  In (Service.id s) (JsMap.keys (services w)) ->
  JsMap.keys (services w') = JsMap.keys (services w).
Proof. intros -> Hin. now apply keys_set_present. Qed.

Lemma heartbeat_keeps (id : string) (w : World) :
  wellKeyed w ->
  JsMap.keys (services (snd (RegistryService.heartbeat id w)))
  = JsMap.keys (services w)
  /\ recentEvents (snd (RegistryService.heartbeat id w)) = recentEvents w.
Proof.
  intros Hwf.
  unfold RegistryService.heartbeat, bind, Repo.findById, gets, now,
    Repo.save, modify, ret.
  destruct (JsMap.get String.eqb id (services w)) as [service|] eqn:Hget;
    cbn [snd]; [|now split].
  split; [|reflexivity].
  apply (keys_write w _ (Service.touch (clock (clockReads w)) service));
    [reflexivity|].
  exact (stored_id_is_key w id service Hwf Hget).
Qed.

Lemma checkServiceHealth_keeps (id : string) (w : World) :
  wellKeyed w ->
  JsMap.keys (services (snd (HealthService.checkServiceHealth id w)))
  = JsMap.keys (services w)
  /\ recentEvents (snd (HealthService.checkServiceHealth id w))
     = recentEvents w.
Proof.
  intros Hwf.
  destruct (JsMap.get String.eqb id (services w)) as [service|] eqn:Hget.
  - rewrite (checkServiceHealth_found id service w Hget).
    split; [|reflexivity].
    apply (keys_write w _
             (Service.updateHealthStatus (checkResult service w)
                (clock (S (S (S (clockReads w))))) service));
      [reflexivity|].
    exact (stored_id_is_key w id service Hwf Hget).
  - destruct (checkServiceHealth_absent id w Hget) as (result & -> & _).
    now split.
Qed.

Lemma proxy_keys (request : ProxyRequest) (w : World) :
  wellKeyed w ->
  JsMap.keys (services (snd (GatewayService.proxy request w)))
  = JsMap.keys (services w).
Proof.
  intros Hwf.
  remember (GatewayService.proxy request w) as res eqn:Hres.
  unfold GatewayService.proxy in Hres.
  unfold bind at 1 in Hres. unfold Repo.findById at 1, gets in Hres.
  destruct (JsMap.get String.eqb (pr_serviceId request) (services w))
    as [s|] eqn:Hget; [|now subst res].
  pose proof (stored_id_is_key w _ s Hwf Hget) as Hin.
  unfold bind at 1 in Hres. unfold lift at 1 in Hres.
  cbn [Guard.throwIfNull] in Hres.
  destruct (Service.isAvailable s); cbn [negb] in Hres; [|now subst res].
  unfold bind at 1 in Hres. unfold newURL in Hres.
  destruct (URL_new (pr_path request) (Some (Service.baseUrl s))) as [url|];
    [|now subst res].
  unfold ret at 1 in Hres.
  unfold bind at 1 in Hres. unfold now at 1 in Hres.
  unfold tryCatch in Hres. unfold bind at 1 in Hres. unfold doFetch in Hres.
  destruct (fetch _ _) as [r|name message].
  - unfold bind at 1 in Hres. unfold now at 1 in Hres.
    unfold bind at 1 in Hres.
    destruct (Js.lookup "content-type" (resp_headers r)) as [ct|];
      [destruct (GatewayService.includes "application/json" ct);
       [destruct (resp_json r) as [?|bn ?]|destruct (resp_text r) as [?|bn ?]]
      |destruct (resp_text r) as [?|bn ?]];
      cbn in Hres; try destruct (String.eqb bn "AbortError");
      cbn in Hres; subst res; cbn [snd];
      first [ now apply (keys_frame w)
            | eapply (keys_write w _ (Service.touch _ s));
              [reflexivity|exact Hin] ].
  - cbn in Hres. destruct (String.eqb name "AbortError");
      cbn in Hres; subst res; now apply (keys_frame w).
Qed.

Lemma dispatch_world (id command : string) (params : option JsValue)
  (w : World) :
  snd (GatewayService.dispatchCommand id command params w)
  = snd (GatewayService.proxy (commandRequest id command params) w).
Proof.
  unfold GatewayService.dispatchCommand.
  fold (commandRequest id command params). unfold bind.
  destruct (GatewayService.proxy (commandRequest id command params) w)
    as [[response|e] w']; [|reflexivity].
  now destruct (400 <=? prx_status response).
Qed.

(** The calls other than [Register], [Deregister] and [Emit] keep the
    identifiers of the directory and the history. *)
Lemma perform_keeps (op : Operation) (w : World) :
  changesRegistry op = false ->
  wellKeyed w ->
  JsMap.keys (services (perform op w)) = JsMap.keys (services w)
  /\ recentEvents (perform op w) = recentEvents w.
Proof.
  intros Hop Hwf.
  destruct op; try discriminate Hop; cbn [perform].
  - now apply heartbeat_keeps.
  - now apply checkServiceHealth_keeps.
  - destruct (sweep_run w Hwf) as (a & w' & -> & Hk & _ & _ & Hev & _).
    now split.
  - destruct (cached_run w) as (a & -> & _). now split.
  - split; [now apply proxy_keys|].
    exact (proj1 (proxy_frame request w)).
  - rewrite dispatch_world. split; [now apply proxy_keys|].
    exact (proj1 (proxy_frame _ w)).
  - destruct (broadcast_quiet message serviceType w Hwf)
      as (_ & Hk & Hev & _).
    now split.
  - now split.
  - now split.
  - now split.
Qed.

(** The calls other than [Register] and [Deregister] keep the identifiers
    of the directory. *)
Lemma perform_keeps_identifiers (op : Operation) (w : World) :
  writesDirectory op = false ->
  wellKeyed w ->
  JsMap.keys (services (perform op w)) = JsMap.keys (services w).
Proof.
  intros Hop Hwf. destruct (changesRegistry op) eqn:Hc.
  - destruct op; try discriminate Hop; try discriminate Hc.
    cbn [perform]. now rewrite emit_exact.
  - exact (proj1 (perform_keeps op w Hc Hwf)).
Qed.

Lemma perform_wellKeyed (op : Operation) (w : World) :
  wellKeyed w -> wellKeyed (perform op w).
Proof.
  intros Hwf. destruct op; cbn [perform].
  - now apply registerService_wellKeyed.
  - now apply deregisterService_wellKeyed.
  - now apply heartbeat_wellKeyed.
  - now apply checkServiceHealth_wellKeyed.
  - destruct (sweep_run w Hwf) as (a & w' & -> & _ & Hwf' & _). exact Hwf'.
  - destruct (cached_run w) as (a & -> & _). now apply (wellKeyed_frame w).
  - now apply proxy_wellKeyed.
  - rewrite dispatch_world. now apply proxy_wellKeyed.
  - now apply broadcast_wellKeyed.
  - destruct (emit_run event w) as [calls ->]. now apply (wellKeyed_frame w).
  - now apply (wellKeyed_frame w).
  - now apply (wellKeyed_frame w).
  - now apply (wellKeyed_frame w).
Qed.

Lemma pushed_bound (event : DomainEvent) (history : list DomainEvent) :
  (List.length history <= 100)%nat ->
  (List.length (pushed event history) <= 100)%nat.
Proof.
  intros Hlen. rewrite pushed_firstn by exact Hlen.
  rewrite length_firstn. lia.
Qed.

Lemma keys_delete_sub (k k0 : string) (m : JsMap.t string Service.t) :
  In k0 (JsMap.keys (JsMap.delete String.eqb k m)) -> In k0 (JsMap.keys m).
Proof.
  unfold JsMap.keys. intros Hin. apply in_map_iff in Hin.
  destruct Hin as (kv & <- & Hin). apply delete_sub in Hin.
  now apply in_map.
Qed.

Lemma registerService_shape (request : RegisterServiceRequest) (w : World) :
  wellKeyed w -> slugKeyed w -> historyBounded w ->
  slugKeyed (snd (RegistryService.registerService request w))
  /\ historyBounded (snd (RegistryService.registerService request w)).
Proof.
  intros Hwf Hslug Hlen. unfold slugKeyed, historyBounded in *.
  destruct (JsMap.get String.eqb
              (RegistryService.generateServiceId (r_name request))
              (services w)) as [existing|] eqn:Hget.
  - rewrite (registerService_existing request existing w Hget).
    cbn [snd]. split; [|exact Hlen].
    cbn [services set_services tick].
    change (Service.id existing)
      with (Service.id (refreshed existing (clock (clockReads w)))).
    rewrite keys_set_present; [exact Hslug|].
    exact (stored_id_is_key w _ existing Hwf Hget).
  - destruct (Service.validate canParse (propsOf request)) as [[]|e] eqn:Hv.
    + rewrite (registerService_new_exact request w Hget Hv).
      cbn [snd]. split; [|now apply pushed_bound].
      cbn [services with_history tick checkedWorld savedWorld set_services].
      rewrite Forall_forall in *. intros k Hin.
      apply keys_set in Hin.
      change (Service.id (builtService request w))
        with (RegistryService.generateServiceId (r_name request)) in Hin.
      assert (Hk : k = RegistryService.generateServiceId (r_name request)
                   \/ In k (JsMap.keys (services w))).
      { destruct Hin as [Hin|Hin]; [now left|].
        apply keys_set in Hin. exact Hin. }
      destruct Hk as [->|Hk]; [|now apply Hslug].
      split; [apply generateServiceId_isSlug|].
      pose proof (validate_propsOf request) as Hcond.
      destruct (negb (JsString.isEmpty
                        (RegistryService.generateServiceId (r_name request))))
        eqn:Hne.
      * intros Heq. rewrite Heq in Hne. discriminate Hne.
      * cbn [andb] in Hcond. destruct Hcond as [message Hthrow].
        rewrite Hthrow in Hv. discriminate Hv.
    + rewrite (registerService_invalid request e w Hget Hv). now split.
Qed.

Lemma deregisterService_shape (id : string) (w : World) :
  slugKeyed w -> historyBounded w ->
  slugKeyed (snd (RegistryService.deregisterService id w))
  /\ historyBounded (snd (RegistryService.deregisterService id w)).
Proof.
  intros Hslug Hlen. unfold slugKeyed, historyBounded in *.
  remember (RegistryService.deregisterService id w) as res eqn:Hres.
  unfold RegistryService.deregisterService in Hres.
  unfold bind at 1 in Hres. unfold Repo.findById at 1, gets in Hres.
  destruct (JsMap.get String.eqb id (services w)) as [service|];
    [|subst res; now split].
  unfold bind at 1 in Hres. unfold lift at 1 in Hres.
  cbn [Guard.throwIfNull] in Hres.
  unfold bind at 1 in Hres. unfold Repo.delete at 1 in Hres.
  unfold bind at 1 in Hres. unfold now at 1 in Hres.
  rewrite emit_exact in Hres. subst res. cbn [snd].
  cbn [services recentEvents with_history tick set_services].
  split; [|now apply pushed_bound].
  rewrite Forall_forall in *. intros k Hin.
  apply Hslug. exact (keys_delete_sub id k _ Hin).
Qed.

Lemma perform_shape (op : Operation) (w : World) :
  wellKeyed w -> slugKeyed w -> historyBounded w ->
  slugKeyed (perform op w) /\ historyBounded (perform op w).
Proof.
  intros Hwf Hslug Hlen.
  destruct (changesRegistry op) eqn:Hop.
  - destruct op; try discriminate Hop; cbn [perform].
    + now apply registerService_shape.
    + now apply deregisterService_shape.
    + rewrite emit_exact. cbn [snd]. split; [exact Hslug|].
      now apply pushed_bound.
  - destruct (perform_keeps op w Hop Hwf) as [Hk Hev].
    unfold slugKeyed, historyBounded. now rewrite Hk, Hev.
Qed.

End RunFacts.

(** X24. When the calls run one after the other, each to its end before
    the next one starts, only registration and deregistration change
    which identifiers the directory holds, and only they and [emit] write
    to the event history: a heartbeat, a health check of one service or of
    all, the cached summary, a forwarded request, a dispatched command, a
    broadcast and the three ways of subscribing leave both as they were,
    and [emit] leaves the identifiers as they were.  In particular a
    health check that changes the status of a service puts no event into
    the history.  Every call keeps the directory well keyed. *)
Theorem only_registration_changes_identifiers (P : Platform)
  (op : Operation) (w : World) :
  wellKeyed w ->
  wellKeyed (perform op w)
  /\ (writesDirectory op = false ->
      JsMap.keys (services (perform op w)) = JsMap.keys (services w))
  /\ (changesRegistry op = false ->
      recentEvents (perform op w) = recentEvents w).
Proof.
  intros Hwf.
  split; [now apply perform_wellKeyed|].
  split.
  - intros Hop. now apply perform_keeps_identifiers.
  - intros Hop. exact (proj2 (perform_keeps op w Hop Hwf)).
Qed.

Lemma only_registration_changes_identifiers_witness :
  JsMap.keys
    (services (perform (P := betaDown) (Emit (Scenario.event 7))
                 Scenario.threeAgents))
  = ["alpha"; "beta"; "gamma"]
  /\ JsMap.keys
       (services (perform (P := betaDown) CheckAll Scenario.threeAgents))
     = ["alpha"; "beta"; "gamma"]
  /\ map ev_type
       (recentEvents (perform (P := betaDown) CheckAll Scenario.threeAgents))
     = [SERVICE_REGISTERED; SERVICE_REGISTERED; SERVICE_REGISTERED].
Proof.
  destruct (only_registration_changes_identifiers betaDown
              (Emit (Scenario.event 7)) Scenario.threeAgents
              wellKeyed_threeAgents)
    as (_ & Hk & _).
  destruct (only_registration_changes_identifiers betaDown CheckAll
              Scenario.threeAgents wellKeyed_threeAgents)
    as (_ & Hk' & Hev).
  rewrite (Hk eq_refl), (Hk' eq_refl), (Hev eq_refl).
  split; [reflexivity|]. split; reflexivity.
Defined.

(** X30. A forwarded request in flight puts back an entry that was
    removed meanwhile.  [proxy] takes its service from the directory before
    it waits for the network and saves it again after the answer.  When
    [deregisterService] for the same identifier runs during that wait, it
    removes the entry and announces it, and the rest of [proxy] then stores
    the service again: the directory holds an entry whose deregistration
    is the newest event of the history. *)
Theorem proxy_in_flight_restores_entry (P : Platform)
  (request : ProxyRequest) (s : Service.t) (address : string)
  (r : Response) (body : JsValue) (w : World) :
  wellKeyed w ->
  (List.length (recentEvents w) <= 100)%nat ->
  JsMap.get String.eqb (pr_serviceId request) (services w) = Some s ->
  Service.isAvailable s = true ->
  destination request (Service.baseUrl s) = Some address ->
  fetch (List.length (requests w)) (outbound request address)
  = Responded r ->
  relayedBody r = Ok body ->
  exists sent w1 w2 answered w3 response w4,
    GatewayService.proxySend request w = (Ok sent, w1)
    /\ RegistryService.deregisterService (pr_serviceId request) w1
       = (Ok tt, w2)
    /\ JsMap.get String.eqb (pr_serviceId request) (services w2) = None
    /\ hd_error (recentEvents w2)
       = Some {| ev_type := SERVICE_DEREGISTERED;
                 ev_serviceId := Some (pr_serviceId request);
                 ev_timestamp := clock (clockReads w1);
                 ev_data :=
                   Some (JObj [("name", JStr (Service.name s))]) |}
    /\ GatewayService.proxyAnswered request sent w2 = (Ok answered, w3)
    /\ GatewayService.proxyReturn request answered w3 = (Ok response, w4)
    /\ prx_body response = body
    /\ JsMap.get String.eqb (pr_serviceId request) (services w4)
       = Some (Service.touch (clock (clockReads w3)) s)
    /\ recentEvents w4 = recentEvents w2.
Proof.
  intros Hwf Hlen Hget Hav Hd Hfetch Hbody.
  pose proof (wellKeyed_get w _ s Hwf Hget) as Hid.
  pose proof (proxySend_found request s w Hget Hav) as Hsend.
  rewrite Hd, Hfetch in Hsend.
  eexists _, _. eexists. eexists. eexists. eexists. eexists.
  split; [exact Hsend|].
  split.
  { unfold RegistryService.deregisterService.
    unfold bind at 1. unfold Repo.findById at 1, gets.
    cbn [services log_request tick]. rewrite Hget.
    unfold bind at 1. unfold lift at 1. cbn [Guard.throwIfNull].
    unfold bind at 1. unfold Repo.delete at 1.
    unfold bind at 1. unfold now at 1.
    rewrite emit_exact. reflexivity. }
  split.
  { cbn [services with_history tick set_services log_request].
    apply (get_delete_same _ (services w) (proj2 Hwf)). }
  split.
  { cbn [recentEvents with_history tick set_services log_request clockReads].
    rewrite pushed_firstn by exact Hlen. reflexivity. }
  split.
  { rewrite proxyAnswered_run. cbn [GatewayService.sent_outcome].
    reflexivity. }
  split.
  { rewrite proxyReturn_run. cbn [GatewayService.ans_response].
    rewrite Hbody. reflexivity. }
  split; [reflexivity|].
  split; [|reflexivity].
  cbn [services set_services tick GatewayService.ans_service
       GatewayService.sent_service].
  rewrite Hid. apply get_set_same.
Qed.

Lemma proxy_in_flight_restores_entry_witness :
  exists sent w1 w2 answered w3 response w4,
    GatewayService.proxySend (P := answering 200)
      (billingRequest "GET" "/invoices" None) Scenario.billingWorld
    = (Ok sent, w1)
    /\ RegistryService.deregisterService (P := answering 200) "billing" w1
       = (Ok tt, w2)
    /\ JsMap.keys (services w2) = []
    /\ GatewayService.proxyAnswered (P := answering 200)
         (billingRequest "GET" "/invoices" None) sent w2
       = (Ok answered, w3)
    /\ GatewayService.proxyReturn (P := answering 200)
         (billingRequest "GET" "/invoices" None) answered w3
       = (Ok response, w4)
    /\ JsMap.keys (services w4) = ["billing"]
    /\ map ev_type (recentEvents w4)
       = [SERVICE_DEREGISTERED; SERVICE_REGISTERED].
Proof.
  destruct (proxy_in_flight_restores_entry (answering 200)
              (billingRequest "GET" "/invoices" None) billing
              "http://svc.local:3000/invoices"
              {| resp_status := 200; resp_headers := []; resp_text := Read "";
                 resp_json :=
                   Unread "SyntaxError" "Unexpected end of JSON input" |}
              (JStr "") Scenario.billingWorld wellKeyed_billingWorld)
    as (sent & w1 & w2 & answered & w3 & response & w4
        & Hsend & Hgone & _ & _ & Hanswered & Hreturn & _);
    [vm_compute; lia|reflexivity|reflexivity|reflexivity|reflexivity
    |reflexivity|].
  exists sent, w1, w2, answered, w3, response, w4.
  split; [exact Hsend|]. split; [exact Hgone|].
  vm_compute in Hsend. injection Hsend as <- <-.
  vm_compute in Hgone. injection Hgone as <-.
  split; [reflexivity|].
  split; [exact Hanswered|]. split; [exact Hreturn|].
  vm_compute in Hanswered. injection Hanswered as <- <-.
  vm_compute in Hreturn. injection Hreturn as _ <-.
  split; reflexivity.
Defined.

(** X25. The directory invariant holds in every state that calls can
    reach: after any sequence of calls of the registry, the health
    monitor, the gateway and the event bus on the empty state, whatever the
    network answers, every entry of the directory is stored under its own
    identifier, no identifier occurs twice, every identifier is a
    non-empty slug, and the history holds at most a hundred events. *)
Theorem reachable_states_are_sound (P : Platform) (ops : list Operation) :
  wellKeyed (performAll ops emptyWorld)
  /\ slugKeyed (performAll ops emptyWorld)
  /\ historyBounded (performAll ops emptyWorld).
Proof.
  assert (Hstep : forall l w,
             wellKeyed w /\ slugKeyed w /\ historyBounded w ->
             wellKeyed (performAll l w) /\ slugKeyed (performAll l w)
             /\ historyBounded (performAll l w)).
  { induction l as [|op rest IH]; intros w Hw; [exact Hw|].
    destruct Hw as (Hwf & Hslug & Hlen).
    unfold performAll. cbn [fold_left]. apply IH.
    split; [now apply perform_wellKeyed|].
    now apply perform_shape. }
  apply Hstep. split; [exact wellKeyed_empty|].
  split; [constructor|]. unfold historyBounded. cbn. lia.
Qed.

(** ** Workflows *)

Lemma updateAt_middle (done todo : list Workflow.Step) (s : Workflow.Step)
  (f : Workflow.Step -> Workflow.Step) :
  Workflow.updateAt (List.length done) f (done ++ s :: todo)
  = done ++ f s :: todo.
Proof.
  induction done as [|x r IH]; cbn; [reflexivity|]. now rewrite IH.
Qed.

Lemma nth_error_middle (done todo : list Workflow.Step) (s : Workflow.Step) :
  nth_error (done ++ s :: todo) (List.length done) = Some s.
Proof. induction done as [|x r IH]; cbn; [reflexivity|exact IH]. Qed.

Lemma updateAt_length (index : nat) (f : Workflow.Step -> Workflow.Step)
  (l : list Workflow.Step) :
  List.length (Workflow.updateAt index f l) = List.length l.
Proof.
  revert index. induction l as [|x r IH]; intros [|n]; cbn; auto.
Qed.

Lemma updateAt_plan (index : nat) (status : CommandStatus.t)
  (r : option (option JsValue)) (l : list Workflow.Step) :
  map plan (Workflow.updateAt index (Workflow.markStep status r) l)
  = map plan l.
Proof.
  revert index. induction l as [|x rest IH]; intros [|n]; cbn;
    [reflexivity|reflexivity|reflexivity|]. now rewrite IH.
Qed.

(** A step before the last one is completed: the index moves on. *)
Lemma completeCurrentStep_advance (done todo : list Workflow.Step)
  (s : Workflow.Step) (r : option JsValue) (now : Date) (w : Workflow.t) :
  Workflow.steps w = done ++ s :: todo ->
  Workflow._currentStepIndex w = List.length done ->
  todo <> [] ->
  Workflow.completeCurrentStep r now w
  = Workflow.with_state (Workflow._status w) (S (List.length done))
      (Workflow._startedAt w) (Workflow._completedAt w) (Workflow._error w)
      (done ++ Workflow.markStep CommandStatus.COMPLETED (Some r) s :: todo)
      w.
Proof.
  intros Hsteps Hidx Hne.
  unfold Workflow.completeCurrentStep, Workflow.currentStep.
  rewrite Hsteps, Hidx, nth_error_middle, updateAt_middle.
  cbn [Workflow.with_state Workflow._currentStepIndex Workflow.steps
       Workflow._status Workflow._startedAt Workflow._completedAt
       Workflow._error Workflow.id Workflow.name Workflow.metadata
       Workflow.createdAt].
  rewrite length_app. cbn [List.length].
  destruct todo as [|t rest]; [contradiction|]. cbn [List.length].
  destruct (Nat.ltb_spec (List.length done)
              (List.length done + S (S (List.length rest)) - 1));
    [reflexivity|lia].
Qed.

(** The last step is completed: the workflow is. *)
Lemma completeCurrentStep_last (done : list Workflow.Step)
  (s : Workflow.Step) (r : option JsValue) (now : Date) (w : Workflow.t) :
  Workflow.steps w = done ++ [s] ->
  Workflow._currentStepIndex w = List.length done ->
  Workflow.completeCurrentStep r now w
  = Workflow.with_state WorkflowStatus.COMPLETED (List.length done)
      (Workflow._startedAt w) (Some now) (Workflow._error w)
      (done ++ [Workflow.markStep CommandStatus.COMPLETED (Some r) s]) w.
Proof.
  intros Hsteps Hidx.
  unfold Workflow.completeCurrentStep, Workflow.currentStep.
  rewrite Hsteps, Hidx, nth_error_middle, updateAt_middle.
  cbn [Workflow.with_state Workflow._currentStepIndex Workflow.steps
       Workflow._status Workflow._startedAt Workflow._completedAt
       Workflow._error Workflow.id Workflow.name Workflow.metadata
       Workflow.createdAt].
  rewrite length_app. cbn [List.length].
  destruct (Nat.ltb_spec (List.length done) (List.length done + 1 - 1));
    [lia|reflexivity].
Qed.

Lemma completeAll_partial (calls : list (option JsValue * Date)) :
  forall (done todo : list Workflow.Step) (w : Workflow.t),
    Workflow.steps w = done ++ todo ->
    Workflow._currentStepIndex w = List.length done ->
    (List.length calls < List.length todo)%nat ->
    Workflow.steps (completeAll calls w)
    = done ++ completedWith (map fst calls) todo
    /\ Workflow._currentStepIndex (completeAll calls w)
       = (List.length done + List.length calls)%nat
    /\ Workflow._status (completeAll calls w) = Workflow._status w
    /\ Workflow._startedAt (completeAll calls w) = Workflow._startedAt w
    /\ Workflow._completedAt (completeAll calls w) = Workflow._completedAt w.
Proof.
  induction calls as [|[r now] rest IH]; intros done todo w Hsteps Hidx Hlen.
  - cbn. rewrite Nat.add_0_r. now repeat split.
  - destruct todo as [|s todo]; [cbn in Hlen; lia|].
    cbn [List.length] in Hlen.
    assert (Hne : todo <> []) by (destruct todo; [cbn in Hlen; lia|easy]).
    unfold completeAll. cbn [fold_left fst snd].
    rewrite (completeCurrentStep_advance done todo s r now w Hsteps Hidx Hne).
    fold (completeAll rest
            (Workflow.with_state (Workflow._status w) (S (List.length done))
               (Workflow._startedAt w) (Workflow._completedAt w)
               (Workflow._error w)
               (done
                ++ Workflow.markStep CommandStatus.COMPLETED (Some r) s
                   :: todo) w)).
    destruct (IH (done ++ [Workflow.markStep CommandStatus.COMPLETED
                             (Some r) s]) todo
                (Workflow.with_state (Workflow._status w)
                   (S (List.length done))
                   (Workflow._startedAt w) (Workflow._completedAt w)
                   (Workflow._error w)
                   (done
                    ++ Workflow.markStep CommandStatus.COMPLETED (Some r) s
                       :: todo) w))
      as (Hs & Hi & Hst & Hsa & Hca).
    + cbn [Workflow.with_state Workflow.steps]. now rewrite <- app_assoc.
    + cbn [Workflow.with_state Workflow._currentStepIndex].
      rewrite length_app. cbn. lia.
    + lia.
    + rewrite Hs, Hi, Hst, Hsa, Hca. rewrite length_app.
      cbn [map fst completedWith List.length Workflow.with_state
           Workflow._status Workflow._startedAt Workflow._completedAt].
      rewrite <- app_assoc. repeat split. lia.
Qed.

Lemma completeAll_full (calls : list (option JsValue * Date)) :
  forall (done todo : list Workflow.Step) (w : Workflow.t),
    Workflow.steps w = done ++ todo ->
    Workflow._currentStepIndex w = List.length done ->
    calls <> [] ->
    List.length calls = List.length todo ->
    Workflow.steps (completeAll calls w)
    = done ++ completedWith (map fst calls) todo
    /\ Workflow._currentStepIndex (completeAll calls w)
       = (List.length done + List.length calls - 1)%nat
    /\ Workflow._status (completeAll calls w) = WorkflowStatus.COMPLETED
    /\ Workflow._startedAt (completeAll calls w) = Workflow._startedAt w
    /\ Workflow._completedAt (completeAll calls w)
       = Some (snd (last calls (None, 0))).
Proof.
  induction calls as [|[r now] rest IH];
    intros done todo w Hsteps Hidx Hne Hlen; [contradiction|].
  destruct todo as [|s todo]; [discriminate Hlen|].
  cbn [List.length] in Hlen. injection Hlen as Hlen.
  unfold completeAll. cbn [fold_left fst snd].
  destruct rest as [|c rest].
  - destruct todo; [|discriminate Hlen].
    rewrite (completeCurrentStep_last done s r now w Hsteps Hidx).
    cbn. repeat split. lia.
  - assert (Hne' : todo <> []) by (destruct todo; [discriminate Hlen|easy]).
    rewrite (completeCurrentStep_advance done todo s r now w Hsteps Hidx
               Hne').
    fold (completeAll (c :: rest)
            (Workflow.with_state (Workflow._status w) (S (List.length done))
               (Workflow._startedAt w) (Workflow._completedAt w)
               (Workflow._error w)
               (done
                ++ Workflow.markStep CommandStatus.COMPLETED (Some r) s
                   :: todo) w)).
    destruct (IH (done ++ [Workflow.markStep CommandStatus.COMPLETED
                             (Some r) s]) todo
                (Workflow.with_state (Workflow._status w)
                   (S (List.length done))
                   (Workflow._startedAt w) (Workflow._completedAt w)
                   (Workflow._error w)
                   (done
                    ++ Workflow.markStep CommandStatus.COMPLETED (Some r) s
                       :: todo) w))
      as (Hs & Hi & Hst & Hsa & Hca).
    + cbn [Workflow.with_state Workflow.steps]. now rewrite <- app_assoc.
    + cbn [Workflow.with_state Workflow._currentStepIndex].
      rewrite length_app. cbn. lia.
    + discriminate.
    + exact Hlen.
    + rewrite Hs, Hi, Hst, Hsa, Hca. rewrite length_app.
      change (map fst ((r, now) :: c :: rest))
        with (r :: map fst (c :: rest)).
      change (last ((r, now) :: c :: rest) (None, 0))
        with (last (c :: rest) (None, 0)).
      cbn [completedWith List.length Workflow.with_state
           Workflow._startedAt].
      rewrite <- app_assoc. repeat split. lia.
Qed.

Lemma completedWith_all (rs : list (option JsValue)) :
  forall todo : list Workflow.Step,
    List.length rs = List.length todo ->
    map Workflow.stepStatus (completedWith rs todo)
    = repeat CommandStatus.COMPLETED (List.length rs)
    /\ map Workflow.result (completedWith rs todo) = rs.
Proof.
  induction rs as [|r rest IH]; intros [|s todo] Hlen;
    try discriminate Hlen; [now split|].
  injection Hlen as Hlen. destruct (IH todo Hlen) as [Hs Hr].
  cbn. now rewrite Hs, Hr.
Qed.

(** What the constructor builds, when it does. *)
Lemma new_built (props : Workflow.Props) (created : Date) (w : Workflow.t) :
  Workflow.new props created = Ok w ->
  Workflow.p_steps props <> []
  /\ w = {| Workflow.id := Workflow.p_id props;
            Workflow.name := Workflow.p_name props;
            Workflow.steps := Workflow.p_steps props;
            Workflow.metadata := Js.orElse (Workflow.p_metadata props) [];
            Workflow.createdAt := created;
            Workflow._status := WorkflowStatus.CREATED;
            Workflow._currentStepIndex := 0;
            Workflow._startedAt := None;
            Workflow._completedAt := None;
            Workflow._error := None |}.
Proof.
  unfold Workflow.new.
  destruct (Guard.stringNotEmpty (Workflow.p_id props) "id");
    [|discriminate].
  destruct (Guard.stringNotEmpty (Workflow.p_name props) "name");
    [|discriminate].
  destruct (Workflow.p_steps props) as [|s rest]; [discriminate|].
  cbn. intros [= <-]. split; [discriminate|reflexivity].
Qed.

(** X26. Running a workflow to its end: on a workflow that the
    constructor has built, each call of [completeCurrentStep] marks the
    next step [COMPLETED] with the result handed over.  While fewer calls
    than steps have been made the status stays [CREATED] and the index
    counts the calls; the call for the last step makes the workflow
    [COMPLETED] at the time of that call, with the index on the last
    step.  The workflow need not have been started: its start time is
    still unset at the end. *)
Theorem workflow_runs_to_completion (props : Workflow.Props)
  (created : Date) (w : Workflow.t)
  (calls : list (option JsValue * Date)) :
  Workflow.new props created = Ok w ->
  (List.length calls <= List.length (Workflow.p_steps props))%nat ->
  Workflow.steps (completeAll calls w)
  = completedWith (map fst calls) (Workflow.p_steps props)
  /\ Workflow._startedAt (completeAll calls w) = None
  /\ ((List.length calls < List.length (Workflow.p_steps props))%nat ->
      Workflow.status (completeAll calls w) = WorkflowStatus.CREATED
      /\ Workflow.currentStepIndex (completeAll calls w) = List.length calls
      /\ Workflow._completedAt (completeAll calls w) = None)
  /\ (List.length calls = List.length (Workflow.p_steps props) ->
      Workflow.status (completeAll calls w) = WorkflowStatus.COMPLETED
      /\ Workflow.currentStepIndex (completeAll calls w)
         = (List.length calls - 1)%nat
      /\ Workflow._completedAt (completeAll calls w)
         = Some (snd (last calls (None, 0)))
      /\ map Workflow.stepStatus (Workflow.steps (completeAll calls w))
         = repeat CommandStatus.COMPLETED (List.length calls)
      /\ map Workflow.result (Workflow.steps (completeAll calls w))
         = map fst calls).
Proof.
  intros Hnew Hle. destruct (new_built props created w Hnew) as [Hne ->].
  set (w0 := {| Workflow.id := Workflow.p_id props |}).
  assert (Hlen0 : (0 < List.length (Workflow.p_steps props))%nat)
    by (destruct (Workflow.p_steps props); [contradiction|cbn; lia]).
  destruct (Nat.eq_dec (List.length calls)
              (List.length (Workflow.p_steps props))) as [Heq|Hlt].
  - assert (Hcalls : calls <> [])
      by (intros ->; cbn in Heq; lia).
    destruct (completeAll_full calls [] (Workflow.p_steps props) w0
                eq_refl eq_refl Hcalls Heq) as (Hs & Hi & Hst & Hsa & Hca).
    destruct (completedWith_all (map fst calls) (Workflow.p_steps props))
      as [Hall Hres]; [now rewrite length_map|].
    rewrite length_map in Hall.
    split; [exact Hs|]. split; [exact Hsa|]. split; [lia|].
    intros _. unfold Workflow.status, Workflow.currentStepIndex.
    rewrite Hs. cbn [app]. now repeat split.
  - destruct (completeAll_partial calls [] (Workflow.p_steps props) w0
                eq_refl eq_refl ltac:(lia)) as (Hs & Hi & Hst & Hsa & Hca).
    split; [exact Hs|]. split; [exact Hsa|]. split; [|lia].
    intros _. unfold Workflow.status, Workflow.currentStepIndex.
    now repeat split.
Qed.

Lemma workflow_runs_to_completion_witness :
  Workflow.status
    (completeAll [(Some (JStr "built"), 2000); (None, 3000);
                  (Some (JStr "shipped"), 4000)] pipeline)
  = WorkflowStatus.COMPLETED
  /\ Workflow._completedAt
       (completeAll [(Some (JStr "built"), 2000); (None, 3000);
                     (Some (JStr "shipped"), 4000)] pipeline)
     = Some 4000
  /\ Workflow._startedAt
       (completeAll [(Some (JStr "built"), 2000); (None, 3000);
                     (Some (JStr "shipped"), 4000)] pipeline)
     = None.
Proof.
  destruct (workflow_runs_to_completion pipelineProps 1000 pipeline
              [(Some (JStr "built"), 2000); (None, 3000);
               (Some (JStr "shipped"), 4000)] eq_refl ltac:(cbn; lia))
    as (_ & Hsa & _ & Hfull).
  destruct (Hfull eq_refl) as (Hst & _ & Hca & _).
  split; [exact Hst|]. split; [exact Hca|exact Hsa].
Defined.

Lemma call_keeps (c : WorkflowCall) (w : Workflow.t) :
  inRange w ->
  inRange (call c w)
  /\ map plan (Workflow.steps (call c w)) = map plan (Workflow.steps w)
  /\ Workflow.id (call c w) = Workflow.id w
  /\ Workflow.name (call c w) = Workflow.name w
  /\ Workflow.createdAt (call c w) = Workflow.createdAt w.
Proof.
  unfold inRange. intros Hin. destruct c as [now|r now|e now| | |now];
    cbn [call].
  - unfold Workflow.start.
    destruct (WorkflowStatus.eqb (Workflow._status w) WorkflowStatus.CREATED);
      now repeat split.
  - unfold Workflow.completeCurrentStep.
    destruct (Workflow.currentStep w); [|now repeat split].
    cbn [Workflow.with_state Workflow._currentStepIndex Workflow.steps
         Workflow._status Workflow._startedAt Workflow._completedAt
         Workflow._error Workflow.id Workflow.name Workflow.metadata
         Workflow.createdAt].
    rewrite updateAt_length.
    destruct (Nat.ltb_spec (Workflow._currentStepIndex w)
                (List.length (Workflow.steps w) - 1));
      cbn [Workflow.complete Workflow.with_state Workflow._currentStepIndex
           Workflow.steps Workflow.id Workflow.name Workflow.createdAt];
      rewrite updateAt_length, updateAt_plan; repeat split; lia.
  - unfold Workflow.failCurrentStep.
    destruct (Workflow.currentStep w); [|now repeat split].
    cbn [Workflow.fail Workflow.with_state Workflow._currentStepIndex
         Workflow.steps Workflow.id Workflow.name Workflow.createdAt].
    rewrite updateAt_length, updateAt_plan. now repeat split.
  - unfold Workflow.pause.
    destruct (WorkflowStatus.eqb (Workflow._status w) WorkflowStatus.RUNNING);
      now repeat split.
  - unfold Workflow.resume.
    destruct (WorkflowStatus.eqb (Workflow._status w) WorkflowStatus.PAUSED);
      now repeat split.
  - now repeat split.
Qed.

(** X27. The calls of a workflow change the status and the result of its
    steps and nothing else of them: after any sequence of calls of
    [start], [completeCurrentStep], [failCurrentStep], [pause], [resume]
    and [cancel] on a workflow that the constructor has built, the steps
    are the ones given, with their identifiers, names, services, commands,
    parameters and dependencies, in the same order; the index of the
    current step is an index of the array, so [currentStep] is never
    undefined; and the identifier, the name and the creation time of the
    workflow are the ones it was built with. *)
Theorem workflow_calls_keep_the_plan (props : Workflow.Props)
  (created : Date) (w : Workflow.t) (cs : list WorkflowCall) :
  Workflow.new props created = Ok w ->
  map plan (Workflow.steps (callAll cs w))
  = map plan (Workflow.p_steps props)
  /\ (Workflow.currentStepIndex (callAll cs w)
      < List.length (Workflow.p_steps props))%nat
  /\ Workflow.currentStep (callAll cs w) <> None
  /\ Workflow.id (callAll cs w) = Workflow.p_id props
  /\ Workflow.name (callAll cs w) = Workflow.p_name props
  /\ Workflow.createdAt (callAll cs w) = created.
Proof.
  intros Hnew. destruct (new_built props created w Hnew) as [Hne ->].
  set (w0 := {| Workflow.id := Workflow.p_id props |}).
  assert (Hgen : forall l w,
             inRange w ->
             inRange (callAll l w)
             /\ map plan (Workflow.steps (callAll l w))
                = map plan (Workflow.steps w)
             /\ Workflow.id (callAll l w) = Workflow.id w
             /\ Workflow.name (callAll l w) = Workflow.name w
             /\ Workflow.createdAt (callAll l w) = Workflow.createdAt w).
  { induction l as [|c rest IH]; intros w1 Hin; [now repeat split|].
    destruct (call_keeps c w1 Hin) as (Hin1 & Hp1 & Hi1 & Hn1 & Hc1).
    destruct (IH (call c w1) Hin1) as (Hin2 & Hp2 & Hi2 & Hn2 & Hc2).
    unfold callAll in *. cbn [fold_left].
    rewrite Hp2, Hi2, Hn2, Hc2. now repeat split. }
  assert (Hin0 : inRange w0).
  { unfold inRange. cbn.
    destruct (Workflow.p_steps props); [contradiction|cbn; lia]. }
  destruct (Hgen cs w0 Hin0) as (Hin & Hp & Hi & Hn & Hc).
  assert (Hlen : List.length (Workflow.steps (callAll cs w0))
                 = List.length (Workflow.p_steps props)).
  { rewrite <- (length_map plan (Workflow.steps (callAll cs w0))), Hp.
    now rewrite length_map. }
  unfold inRange in Hin. rewrite Hlen in Hin.
  split; [exact Hp|]. split; [exact Hin|].
  split; [|now repeat split].
  unfold Workflow.currentStep. intros Hnone.
  apply nth_error_None in Hnone. unfold Workflow.currentStepIndex in Hin.
  lia.
Qed.

Lemma workflow_calls_keep_the_plan_witness :
  map Workflow.stepId
    (Workflow.steps
       (callAll [CallStart 1500; CallCompleteStep None 2000; CallPause;
                 CallFailStep "no tests" 3000; CallCancel 3500;
                 CallCompleteStep None 4000] pipeline))
  = ["build"; "test"; "ship"]
  /\ Workflow.currentStep
       (callAll [CallStart 1500; CallCompleteStep None 2000; CallPause;
                 CallFailStep "no tests" 3000; CallCancel 3500;
                 CallCompleteStep None 4000] pipeline)
     <> None.
Proof.
  destruct (workflow_calls_keep_the_plan pipelineProps 1000 pipeline
              [CallStart 1500; CallCompleteStep None 2000; CallPause;
               CallFailStep "no tests" 3000; CallCancel 3500;
               CallCompleteStep None 4000] eq_refl)
    as (_ & _ & Hcur & _).
  split; [reflexivity|exact Hcur].
Defined.

Lemma CommandStatus_eqb_eq (a b : CommandStatus.t) :
  CommandStatus.eqb a b = true <-> a = b.
Proof. destruct a, b; cbn; split; (reflexivity || discriminate). Qed.

Lemma find_step (steps : list Workflow.Step) (d : Workflow.Step) :
  NoDup (map Workflow.stepId steps) ->
  In d steps ->
  find (fun s => String.eqb (Workflow.stepId s) (Workflow.stepId d)) steps
  = Some d.
Proof.
  induction steps as [|x rest IH]; intros Hnd Hin; [destruct Hin|].
  cbn [map] in Hnd. inversion Hnd as [|? ? Hfresh Hnd']; subst.
  cbn [find]. destruct Hin as [->|Hin].
  - now rewrite String.eqb_refl.
  - destruct (String.eqb_spec (Workflow.stepId x) (Workflow.stepId d))
      as [Heq|Hneq]; [|now apply IH].
    exfalso. apply Hfresh. rewrite Heq. now apply in_map.
Qed.

Lemma dependencyMet_iff (w : Workflow.t) (dep : string) :
  NoDup (map Workflow.stepId (Workflow.steps w)) ->
  Workflow.dependencyMet w dep = true
  <-> exists d, In d (Workflow.steps w) /\ Workflow.stepId d = dep
                /\ Workflow.stepStatus d = CommandStatus.COMPLETED.
Proof.
  intros Hnd. unfold Workflow.dependencyMet. split.
  - destruct (find _ _) as [d|] eqn:Hfind; [|discriminate].
    intros Hdone. apply find_some in Hfind. destruct Hfind as [Hin Hid].
    exists d. split; [exact Hin|]. split; [now apply String.eqb_eq|].
    now apply CommandStatus_eqb_eq.
  - intros (d & Hin & <- & Hdone).
    rewrite (find_step _ d Hnd Hin), Hdone. reflexivity.
Qed.

(** X28. Which steps can run: when the identifiers of the steps are
    distinct, [getNextExecutableSteps] returns a step exactly when it is a
    step of the workflow, it is [PENDING], and every identifier it depends
    on is the identifier of a step of the workflow that is [COMPLETED].
    A step that depends on an identifier no step has, or on itself, is
    therefore never returned. *)
Theorem executable_steps_are_ready (w : Workflow.t) (step : Workflow.Step) :
  NoDup (map Workflow.stepId (Workflow.steps w)) ->
  (In step (Workflow.getNextExecutableSteps w)
   <-> In step (Workflow.steps w)
       /\ Workflow.stepStatus step = CommandStatus.PENDING
       /\ forall dep, In dep (depsOf step) ->
            exists d, In d (Workflow.steps w) /\ Workflow.stepId d = dep
                      /\ Workflow.stepStatus d = CommandStatus.COMPLETED)
  /\ (In step (Workflow.getNextExecutableSteps w) ->
      ~ In (Workflow.stepId step) (depsOf step)).
Proof.
  intros Hnd.
  assert (Hiff : In step (Workflow.getNextExecutableSteps w)
                 <-> In step (Workflow.steps w)
                     /\ Workflow.stepStatus step = CommandStatus.PENDING
                     /\ forall dep, In dep (depsOf step) ->
                          exists d, In d (Workflow.steps w)
                                    /\ Workflow.stepId d = dep
                                    /\ Workflow.stepStatus d
                                       = CommandStatus.COMPLETED).
  { unfold Workflow.getNextExecutableSteps. rewrite filter_In.
    unfold Workflow.executable, depsOf.
    destruct (CommandStatus.eqb (Workflow.stepStatus step)
                CommandStatus.PENDING) eqn:Hp; cbn [negb].
    - apply CommandStatus_eqb_eq in Hp.
      destruct (Workflow.dependsOn step) as [[|dep deps]|].
      + split; [intros [Hin _]|intros (Hin & _ & _)]; repeat split; auto.
        intros ? [].
      + rewrite forallb_forall. split.
        * intros [Hin Hall]. repeat split; auto.
          intros dep' Hdep. now apply dependencyMet_iff, Hall.
        * intros (Hin & _ & Hall). split; [exact Hin|].
          intros dep' Hdep. now apply dependencyMet_iff, Hall.
      + split; [intros [Hin _]|intros (Hin & _ & _)]; repeat split; auto.
        intros ? [].
    - split; [intros [_ Hf]; discriminate Hf|].
      intros (_ & Hpend & _). rewrite Hpend in Hp. discriminate Hp. }
  split; [exact Hiff|].
  intros Hex Hself. apply Hiff in Hex. destruct Hex as (Hin & Hpend & Hall).
  destruct (Hall _ Hself) as (d & Hind & Hid & Hdone).
  pose proof (find_step _ d Hnd Hind) as Hd.
  rewrite Hid, (find_step _ step Hnd Hin) in Hd.
  injection Hd as ->. rewrite Hpend in Hdone. discriminate Hdone.
Qed.

Lemma executable_steps_are_ready_witness :
  map Workflow.stepId
    (Workflow.getNextExecutableSteps
       (completeAll [(None, 2000)] pipeline))
  = ["test"]
  /\ ~ In (pendingStep "ship" ["build"; "test"])
         (Workflow.getNextExecutableSteps
            (completeAll [(None, 2000)] pipeline)).
Proof.
  split; [reflexivity|].
  intros Hin.
  destruct (executable_steps_are_ready (completeAll [(None, 2000)] pipeline)
              (pendingStep "ship" ["build"; "test"])) as [Hiff _].
  - cbn. repeat constructor; cbn; intuition discriminate.
  - apply Hiff in Hin. destruct Hin as (_ & _ & Hall).
    destruct (Hall "test" (or_intror (or_introl eq_refl)))
      as (d & Hd & Hid & Hdone).
    cbn in Hd. destruct Hd as [<-|[<-|[<-|[]]]]; discriminate.
Defined.

(** X29. Pausing and resuming a running workflow: [pause] makes it
    [PAUSED], and [resume] after it gives the workflow back exactly as it
    was.  A second [pause] changes nothing more, and [resume] of the
    running workflow changes nothing.  [start] throws on it, paused or
    not: a workflow is started from [CREATED] only. *)
Theorem pause_then_resume (w : Workflow.t) (now : Date) :
  Workflow.status w = WorkflowStatus.RUNNING ->
  Workflow.resume (Workflow.pause w) = w
  /\ Workflow.status (Workflow.pause w) = WorkflowStatus.PAUSED
  /\ Workflow.pause (Workflow.pause w) = Workflow.pause w
  /\ Workflow.resume w = w
  /\ Workflow.start now (Workflow.pause w)
     = Throw (JsError "Error"
                "Workflow can only be started from CREATED status")
  /\ Workflow.start now w
     = Throw (JsError "Error"
                "Workflow can only be started from CREATED status").
Proof.
  unfold Workflow.status. intros Hrun. destruct w. cbn in Hrun. subst.
  now repeat split.
Qed.

Lemma pause_then_resume_witness :
  exists w,
    Workflow.start 1500 pipeline = Ok w
    /\ Workflow.resume (Workflow.pause w) = w
    /\ Workflow.status (Workflow.pause w) = WorkflowStatus.PAUSED.
Proof.
  eexists. split; [reflexivity|].
  match goal with
  | |- Workflow.resume (Workflow.pause ?w) = _ /\ _ =>
      destruct (pause_then_resume w 1600 eq_refl) as (Hr & Hp & _)
  end.
  split; [exact Hr|exact Hp].
Defined.
